(** * Event-time panel pipeline for Steam games: a shallow embedding

  The development follows the Python sources:
  - [patch_extractor.py]         : [classify_patch], [extract_patches_for_games];
  - [collect_panel_for_did.py]   : [extract_last_major_date], [build_panel];
  - [scraper/cache.py]           : [SteamCache].

  Conventions of the embedding.
  - Python [str] values are Stdlib strings holding the UTF-8 bytes of the
    text; [str.lower] is modelled on the ASCII range (characters outside
    'A'..'Z' are left unchanged); slices and lengths count characters, not
    bytes ([Text.take_chars], [Text.char_length]).
  - [None] is [option]'s [None]; a pandas NaN/NaT cell is [None] as well.
  - Player counts are exact rationals ([Q]); rounding of binary floating
    point is not modelled.
  - Library calls whose behaviour is not part of the repository (date
    parsers, the network fetchers, the clock, the JSON codec) are Section
    variables: every theorem holds for all of their behaviours. *)

From Stdlib Require Import ZArith QArith Qminmax String Ascii List Bool Lia Lqa
  Sorted.
From stdpp Require Import gmap strings list pretty.

Open Scope string_scope.

(** ** Text: Python's [in] on strings and [str.lower] *)

Module Text.

(** [c.lower()] for an ASCII character. *)
Definition lower_ascii (c : ascii) : ascii :=
  let n := nat_of_ascii c in
  if (65 <=? n)%nat && (n <=? 90)%nat then ascii_of_nat (n + 32) else c.

(** [s.lower()] *)
Fixpoint lower (s : string) : string :=
  match s with
  | EmptyString => EmptyString
  | String c s' => String (lower_ascii c) (lower s')
  end.

(** [s.startswith(p)] *)
Fixpoint startswith (p s : string) : bool :=
  match p, s with
  | EmptyString, _ => true
  | String _ _, EmptyString => false
  | String a p', String b s' => Ascii.eqb a b && startswith p' s'
  end.

(** [needle in hay] *)
Fixpoint contains (needle hay : string) : bool :=
  startswith needle hay ||
  match hay with
  | EmptyString => false
  | String _ hay' => contains needle hay'
  end.

(** [any(kw in text for kw in kws)] *)
Definition any_in (kws : list string) (text : string) : bool :=
  existsb (fun kw => contains kw text) kws.

(** The bytes [10xxxxxx] of a UTF-8 text: each continues the character
    begun by the byte before it. *)
Definition is_continuation (c : ascii) : bool :=
  let n := nat_of_ascii c in (128 <=? n)%nat && (n <? 192)%nat.

(** [len(s)]: the number of characters of [s]. *)
Fixpoint char_length (s : string) : nat :=
  match s with
  | EmptyString => O
  | String c s' =>
      if is_continuation c then char_length s' else S (char_length s')
  end.

(** [s[:n]]: the first [n] characters of [s], each with all its bytes. *)
Fixpoint take_chars (n : nat) (s : string) : string :=
  match s with
  | EmptyString => EmptyString
  | String c s' =>
      if is_continuation c then String c (take_chars n s')
      else
        match n with
        | O => EmptyString
        | S n' => String c (take_chars n' s')
        end
  end.

(** Declarative reading of [needle in hay]: [needle] occurs as a
    contiguous block of [hay]. *)
Definition occurs (needle hay : string) : Prop :=
  exists l r : string, hay = l ++ needle ++ r.

Definition some_occurs (kws : list string) (text : string) : Prop :=
  exists kw, In kw kws /\ occurs kw text.

Lemma startswith_spec p s :
  startswith p s = true <-> exists r, s = p ++ r.
Proof.
  revert s. induction p as [|a p IH]; intros s; simpl.
  - split; [intros _; now exists s | reflexivity].
  - destruct s as [|b s].
    + split; [discriminate | intros [r Hr]; discriminate].
    + rewrite andb_true_iff, Ascii.eqb_eq, IH. split.
      * intros [-> [r ->]]. now exists r.
      * intros [r Hr]. injection Hr as -> ->. split; [reflexivity | now exists r].
Qed.

Lemma contains_spec needle hay :
  contains needle hay = true <-> occurs needle hay.
Proof.
  unfold occurs. induction hay as [|c hay IH]; simpl.
  - rewrite orb_false_r, startswith_spec. split.
    + intros [r Hr]. now exists "", r.
    + intros [l [r Hr]]. destruct l; [now exists r | discriminate].
  - rewrite orb_true_iff, startswith_spec, IH. split.
    + intros [[r Hr] | [l [r Hr]]].
      * now exists "", r.
      * exists (String c l), r. simpl. now rewrite Hr.
    + intros [l [r Hr]]. destruct l as [|c' l]; simpl in Hr.
      * left. now exists r.
      * right. injection Hr as _ Hr. now exists l, r.
Qed.

Lemma any_in_spec kws text :
  any_in kws text = true <-> some_occurs kws text.
Proof.
  unfold any_in, some_occurs. rewrite existsb_exists.
  split; intros [kw [Hin Hc]]; exists kw; (split; [exact Hin|]);
    now apply contains_spec.
Qed.

Lemma any_in_false kws text :
  any_in kws text = false <-> ~ some_occurs kws text.
Proof.
  rewrite <- any_in_spec. destruct (any_in kws text); split; congruence.
Qed.

(** A slice is a prefix, and holds no more characters than asked for. *)
Lemma take_chars_length (n : nat) (s : string) :
  (char_length (take_chars n s) <= n)%nat.
Proof.
  revert n. induction s as [|c s IH]; intros n; cbn [take_chars char_length];
    [lia|].
  destruct (is_continuation c) eqn:Hc.
  - cbn [char_length]. rewrite Hc. apply IH.
  - destruct n as [|n]; cbn [char_length]; [lia|].
    rewrite Hc. specialize (IH n). lia.
Qed.

Lemma take_chars_prefix (n : nat) (s : string) :
  exists rest, s = (take_chars n s ++ rest)%string.
Proof.
  revert n. induction s as [|c s IH]; intros n; cbn [take_chars].
  - now exists "".
  - destruct (is_continuation c).
    + destruct (IH n) as [rest Hrest]. exists rest.
      change (String c (take_chars n s) ++ rest)%string
        with (String c (take_chars n s ++ rest)%string).
      now rewrite <- Hrest.
    + destruct n as [|n]; [now exists (String c s)|].
      destruct (IH n) as [rest Hrest]. exists rest.
      change (String c (take_chars n s) ++ rest)%string
        with (String c (take_chars n s ++ rest)%string).
      now rewrite <- Hrest.
Qed.

(** A text of at most [n] characters is its own slice. *)
Lemma take_chars_short (n : nat) (s : string) :
  (char_length s <= n)%nat -> take_chars n s = s.
Proof.
  revert n. induction s as [|c s IH]; intros n; cbn [take_chars char_length];
    [reflexivity|].
  destruct (is_continuation c).
  - intros H. now rewrite IH.
  - destruct n as [|n]; [lia|]. intros H. rewrite IH; [reflexivity | lia].
Qed.

(** The en dash takes three bytes and counts as one character. *)
Example take_chars_en_dash :
  let dash := String (ascii_of_nat 226) (String (ascii_of_nat 128)
                (String (ascii_of_nat 147) EmptyString)) in
  take_chars 2 ("a" ++ dash ++ "b") = ("a" ++ dash)%string /\
  char_length ("a" ++ dash ++ "b") = 3%nat /\
  String.length ("a" ++ dash ++ "b") = 5%nat.
Proof. repeat split. Qed.

(** On ASCII text characters are bytes. *)
Lemma char_length_ascii (s : string) :
  (forall c, In c (list_ascii_of_string s) -> is_continuation c = false) ->
  char_length s = String.length s.
Proof.
  induction s as [|c s IH]; cbn [char_length String.length list_ascii_of_string];
    [reflexivity|].
  intros H. rewrite (H c) by (now left). f_equal. apply IH.
  intros c' Hc'. apply H. now right.
Qed.

End Text.

(** ** patch_extractor.py : the classifier *)

Module PatchExtractor.
Import Text.

Definition patch_keywords : list string :=
  [ "patch"; "update"; "hotfix"; "fix"; "bug"; "balance";
    "expansion"; "dlc"; "content update"; "new feature";
    "maintenance"; "adjustment"; "tweak"; "improvement" ].

Definition major_indicators : list string :=
  [ "major update"; "major patch"; "expansion"; "new content";
    "new feature"; "new game mode"; "new map"; "new character";
    "gameplay change"; "mechanic change"; "overhaul";
    "substantial"; "significant"; "massive"; "complete rework" ].

Definition minor_indicators : list string :=
  [ "hotfix"; "bug fix"; "small fix"; "minor"; "performance";
    "cosmetic"; "visual"; "balance adjustment"; "tweak";
    "adjustment"; "stability" ].

(** The text the classifier searches: [(title + " " + contents).lower()]. *)
Definition combined (title contents : string) : string :=
  lower (title ++ " " ++ contents).

(** [classify_patch]: [None], or the tuple
    [(is_patch, is_major, classification_reason)]. *)
Definition classify_patch (title contents : string)
  : option (bool * bool * string) :=
  let combined := combined title contents in
  let is_patch := any_in patch_keywords combined in
  if negb is_patch then None
  else
    let is_major_candidate := any_in major_indicators combined in
    let is_minor_candidate := any_in minor_indicators combined in
    let '(is_major, reason) :=
      if is_minor_candidate && negb is_major_candidate then
        (false, "minor_keywords")
      else if is_major_candidate then
        (true, "major_keywords")
      else if contains "bug fix" combined || contains "hotfix" combined then
        (false, "default_minor")
      else
        (true, "default_major")
    in
    Some (true, is_major, reason).

(** The classifier as the specification words it: the same tie-break, read
    over the lowercased concatenation of title and body. *)
Definition classify_as_specified (title body : string)
  : option (bool * bool * string) :=
  let text := lower (title ++ body) in
  if negb (any_in patch_keywords text) then None
  else if any_in minor_indicators text && negb (any_in major_indicators text)
  then Some (true, false, "minor_keywords")
  else if any_in major_indicators text
  then Some (true, true, "major_keywords")
  else if contains "bug fix" text || contains "hotfix" text
  then Some (true, false, "default_minor")
  else Some (true, true, "default_major").

(** *** Facts about the classifier *)

Lemma bugfix_hotfix_are_minor_indicators text :
  contains "bug fix" text || contains "hotfix" text = true ->
  any_in minor_indicators text = true.
Proof.
  intros H. apply any_in_spec. apply orb_true_iff in H as [H | H].
  - exists "bug fix". split; [simpl; tauto | now apply contains_spec].
  - exists "hotfix". split; [simpl; tauto | now apply contains_spec].
Qed.

(** The five outcomes of [classify_patch], by the three membership tests. *)
Lemma classify_patch_cases title contents :
  let text := combined title contents in
  classify_patch title contents =
    if negb (any_in patch_keywords text) then None
    else if any_in minor_indicators text && negb (any_in major_indicators text)
    then Some (true, false, "minor_keywords")
    else if any_in major_indicators text
    then Some (true, true, "major_keywords")
    else if contains "bug fix" text || contains "hotfix" text
    then Some (true, false, "default_minor")
    else Some (true, true, "default_major").
Proof.
  unfold classify_patch. cbv zeta.
  destruct (negb (any_in patch_keywords (combined title contents))); [reflexivity|].
  destruct (any_in minor_indicators (combined title contents)
            && negb (any_in major_indicators (combined title contents)));
    [reflexivity|].
  destruct (any_in major_indicators (combined title contents)); [reflexivity|].
  now destruct (contains "bug fix" (combined title contents)
                || contains "hotfix" (combined title contents)).
Qed.

(** C1 (as stated, refuted): read over the plain concatenation of title and
    body, the tie-break gives MINOR / minor_keywords for title "hot" and body
    "fix" (the two join into "hotfix"), while [classify_patch], which joins
    them with a space, sees only the generic keyword "fix" and answers
    MAJOR / default_major.  The other way round, for title "Bug" and body
    "fixes for the launcher" the plain concatenation holds no indicator
    (MAJOR / default_major) and the text [classify_patch] searches holds
    "bug fix" (MINOR / minor_keywords). *)
Lemma classify_patch_joins_with_space :
  (classify_as_specified "hot" "fix" = Some (true, false, "minor_keywords") /\
   classify_patch "hot" "fix" = Some (true, true, "default_major")) /\
  (classify_as_specified "Bug" "fixes for the launcher"
   = Some (true, true, "default_major") /\
   classify_patch "Bug" "fixes for the launcher"
   = Some (true, false, "minor_keywords")).
Proof. repeat split; reflexivity. Qed.

(** C1 (amended): for every title and body, with [text] the lowercased
    [title + " " + body]: no patch keyword occurs in [text] and the result is
    none; or a minor indicator occurs and no major indicator does, and the
    result is MINOR / minor_keywords; or a major indicator occurs, whatever
    the minor ones, and the result is MAJOR / major_keywords; or no indicator
    occurs and the result is MINOR / default_minor when "bug fix" or "hotfix"
    occurs and MAJOR / default_major otherwise.  The two worked examples of
    the claim evaluate as it says. *)
Theorem classify_patch_tie_break :
  (forall title body : string,
     let text := lower (title ++ " " ++ body) in
     (~ some_occurs patch_keywords text /\
        classify_patch title body = None)
     \/ (some_occurs patch_keywords text /\
         some_occurs minor_indicators text /\
         ~ some_occurs major_indicators text /\
         classify_patch title body = Some (true, false, "minor_keywords"))
     \/ (some_occurs patch_keywords text /\
         some_occurs major_indicators text /\
         classify_patch title body = Some (true, true, "major_keywords"))
     \/ (some_occurs patch_keywords text /\
         ~ some_occurs minor_indicators text /\
         ~ some_occurs major_indicators text /\
         (occurs "bug fix" text \/ occurs "hotfix" text) /\
         classify_patch title body = Some (true, false, "default_minor"))
     \/ (some_occurs patch_keywords text /\
         ~ some_occurs minor_indicators text /\
         ~ some_occurs major_indicators text /\
         ~ (occurs "bug fix" text \/ occurs "hotfix" text) /\
         classify_patch title body = Some (true, true, "default_major")))
  /\ classify_patch "Hotfix 1.2.1" "Fixed a crash"
       = Some (true, false, "minor_keywords")
  /\ classify_patch "Roadmap" "Our plans for next year" = None.
Proof.
  split; [| split; reflexivity].
  intros title body text. rewrite classify_patch_cases.
  change (combined title body) with text. cbv zeta.
  destruct (any_in patch_keywords text) eqn:Hp; cbn [negb].
  2:{ left. split; [now apply any_in_false | reflexivity]. }
  apply any_in_spec in Hp. right.
  destruct (any_in major_indicators text) eqn:Hmaj; cbn [negb].
  { rewrite andb_false_r. apply any_in_spec in Hmaj. right. left. auto. }
  rewrite andb_true_r. apply any_in_false in Hmaj.
  destruct (any_in minor_indicators text) eqn:Hmin.
  { apply any_in_spec in Hmin. left. auto. }
  apply any_in_false in Hmin. right. right.
  destruct (contains "bug fix" text || contains "hotfix" text) eqn:Hd.
  - left. repeat split; auto.
    apply orb_true_iff in Hd as [Hd | Hd]; [left | right];
      now apply contains_spec.
  - right. repeat split; auto.
    apply orb_false_iff in Hd as [Hb Hh].
    intros [Ho | Ho]; apply contains_spec in Ho; congruence.
Qed.

(** C2 (the code at the disputed input): with title "Balance Patch" and an
    empty body the searched text is "balance patch "; the patch keywords
    "balance" and "patch" occur in it, but no minor indicator does (the list
    holds "balance adjustment", not "balance") and no major indicator either,
    so [classify_patch] answers MAJOR / default_major, not MINOR. *)
Theorem classify_patch_balance_patch :
  combined "Balance Patch" "" = "balance patch " /\
  contains "balance" (combined "Balance Patch" "") = true /\
  contains "patch" (combined "Balance Patch" "") = true /\
  any_in minor_indicators (combined "Balance Patch" "") = false /\
  any_in major_indicators (combined "Balance Patch" "") = false /\
  existsb (String.eqb "balance") minor_indicators = false /\
  classify_patch "Balance Patch" "" = Some (true, true, "default_major").
Proof. repeat split; reflexivity. Qed.

(** C9: for every title and body the classifier returns none,
    MINOR / minor_keywords, MAJOR / major_keywords or MAJOR / default_major,
    never a tuple with reason default_minor: whenever "bug fix" or "hotfix"
    occurs in the searched text a minor indicator matches, so one of the two
    earlier branches is taken. *)
Theorem classify_patch_never_default_minor (title contents : string) :
  (contains "bug fix" (combined title contents)
   || contains "hotfix" (combined title contents) = true ->
   any_in minor_indicators (combined title contents) = true)
  /\ (classify_patch title contents = None
      \/ classify_patch title contents = Some (true, false, "minor_keywords")
      \/ classify_patch title contents = Some (true, true, "major_keywords")
      \/ classify_patch title contents = Some (true, true, "default_major"))
  /\ (forall is_patch is_major : bool,
        classify_patch title contents
          <> Some (is_patch, is_major, "default_minor")).
Proof.
  pose proof (bugfix_hotfix_are_minor_indicators (combined title contents)) as Hm.
  split; [exact Hm|].
  rewrite classify_patch_cases. cbv zeta.
  destruct (negb (any_in patch_keywords (combined title contents)));
    [split; [auto | discriminate]|].
  destruct (any_in major_indicators (combined title contents)); cbn [negb].
  { rewrite andb_false_r. split; [auto | discriminate]. }
  rewrite andb_true_r.
  destruct (any_in minor_indicators (combined title contents)).
  { split; [auto | discriminate]. }
  destruct (contains "bug fix" (combined title contents)
            || contains "hotfix" (combined title contents)).
  - specialize (Hm eq_refl). discriminate.
  - split; [auto 6 | discriminate].
Qed.

(** A run of C9 on a hotfix announcement: the default branch would answer
    default_minor, but the minor-keyword branch is taken first. *)
Lemma classify_patch_never_default_minor_witness :
  any_in minor_indicators (combined "Hotfix" "servers restarted") = true /\
  classify_patch "Hotfix" "servers restarted"
    <> Some (true, false, "default_minor").
Proof.
  destruct (classify_patch_never_default_minor "Hotfix" "servers restarted")
    as [Hmin [_ Hne]].
  split; [apply Hmin; reflexivity | apply Hne].
Defined.

End PatchExtractor.


(** ** Dates: [datetime], its ordering, [strftime], month arithmetic *)

Module Dates.

Open Scope Z_scope.

(** A naive [datetime] (also a pandas [Timestamp]). *)
Record datetime := mk_datetime {
  year : Z; month : Z; day : Z;
  hour : Z; minute : Z; second : Z; microsecond : Z
}.

(** Naive datetimes compare as their field tuples do. *)
Definition dt_fields (d : datetime) : list Z :=
  [year d; month d; day d; hour d; minute d; second d; microsecond d].

Fixpoint lex_compare (xs ys : list Z) : comparison :=
  match xs, ys with
  | [], [] => Eq
  | [], _ :: _ => Lt
  | _ :: _, [] => Gt
  | x :: xs', y :: ys' =>
      match x ?= y with
      | Eq => lex_compare xs' ys'
      | c => c
      end
  end.

Definition dt_compare (d1 d2 : datetime) : comparison :=
  lex_compare (dt_fields d1) (dt_fields d2).

(** [d1 < d2] *)
Definition dt_ltb (d1 d2 : datetime) : bool :=
  match dt_compare d1 d2 with Lt => true | _ => false end.

(** [d1 == d2] *)
Definition dt_eqb (d1 d2 : datetime) : bool :=
  match dt_compare d1 d2 with Eq => true | _ => false end.

(** [datetime(d.year, d.month, 1)]; also
    [d.to_period('M').to_timestamp()]. *)
Definition first_of_month (d : datetime) : datetime :=
  mk_datetime (year d) (month d) 1 0 0 0 0.

Definition is_leap (y : Z) : bool :=
  ((y mod 4 =? 0) && negb (y mod 100 =? 0)) || (y mod 400 =? 0).

Definition days_in_month (y m : Z) : Z :=
  if m =? 2 then (if is_leap y then 29 else 28)
  else if (m =? 4) || (m =? 6) || (m =? 9) || (m =? 11) then 30
  else 31.

(** [d + pd.DateOffset(months=k)]: the month moves by [k], the day is
    clipped to the length of the new month, the time of day is kept. *)
Definition add_months (d : datetime) (k : Z) : datetime :=
  let idx := year d * 12 + (month d - 1) + k in
  let y := idx / 12 in
  let m := idx mod 12 + 1 in
  mk_datetime y m (Z.min (day d) (days_in_month y m))
              (hour d) (minute d) (second d) (microsecond d).

(** Decimal digits, zero padded: [%m], [%d], [%H], [%M], [%S] print two
    digits; [%Y] prints four for the years 1000..9999. *)
Definition digit (n : Z) : ascii :=
  ascii_of_nat (48 + Z.to_nat (n mod 10)).

Definition pad2 (n : Z) : string :=
  String (digit (n / 10)) (String (digit n) "").

Definition pad4 (n : Z) : string :=
  String (digit (n / 1000)) (String (digit (n / 100)) (pad2 n)).

(** [d.strftime("%Y-%m-%d %H:%M:%S")] *)
Definition strftime_ymd_hms (d : datetime) : string :=
  (pad4 (year d) ++ "-" ++ pad2 (month d) ++ "-" ++ pad2 (day d) ++ " " ++
   pad2 (hour d) ++ ":" ++ pad2 (minute d) ++ ":" ++ pad2 (second d))%string.

(** [d.strftime('%Y-%m-%d')] *)
Definition strftime_ymd (d : datetime) : string :=
  (pad4 (year d) ++ "-" ++ pad2 (month d) ++ "-" ++ pad2 (day d))%string.

(** [d.strftime('%Y-%m')] *)
Definition strftime_ym (d : datetime) : string :=
  (pad4 (year d) ++ "-" ++ pad2 (month d))%string.

(** The field ranges of a [datetime] whose year prints on four digits. *)
Definition printable (d : datetime) : Prop :=
  1000 <= year d <= 9999 /\ 1 <= month d <= 12 /\ 1 <= day d <= 31 /\
  0 <= hour d <= 23 /\ 0 <= minute d <= 59 /\ 0 <= second d <= 59.

(** *** The ordering *)

Lemma lex_compare_refl xs : lex_compare xs xs = Eq.
Proof. induction xs as [|x xs IH]; simpl; [|rewrite Z.compare_refl]; auto. Qed.

Lemma lex_compare_eq xs ys : lex_compare xs ys = Eq -> xs = ys.
Proof.
  revert ys. induction xs as [|x xs IH]; intros [|y ys]; simpl; try easy.
  destruct (Z.compare_spec x y) as [Hxy|Hxy|Hxy]; try easy.
  intros Heq. subst. f_equal. auto.
Qed.

Lemma lex_compare_antisym xs ys :
  lex_compare ys xs = CompOpp (lex_compare xs ys).
Proof.
  revert ys. induction xs as [|x xs IH]; intros [|y ys]; simpl; try easy.
  rewrite (Z.compare_antisym x y).
  destruct (x ?= y); simpl; auto.
Qed.

Lemma lex_compare_trans xs ys zs :
  lex_compare xs ys = Lt -> lex_compare ys zs = Lt -> lex_compare xs zs = Lt.
Proof.
  revert ys zs. induction xs as [|x xs IH]; intros [|y ys] [|z zs]; simpl;
    try easy.
  destruct (Z.compare_spec x y) as [Hxy|Hxy|Hxy],
           (Z.compare_spec y z) as [Hyz|Hyz|Hyz]; try easy; subst.
  - rewrite Z.compare_refl. apply IH.
  - intros _ _. now apply Z.compare_lt_iff in Hyz as ->.
  - intros _ _. now apply Z.compare_lt_iff in Hxy as ->.
  - intros _ _. assert (x < z) as Hxz by lia.
    now apply Z.compare_lt_iff in Hxz as ->.
Qed.

Lemma dt_fields_inj d1 d2 : dt_fields d1 = dt_fields d2 -> d1 = d2.
Proof. destruct d1, d2. unfold dt_fields. simpl. congruence. Qed.

Lemma dt_compare_refl d : dt_compare d d = Eq.
Proof. apply lex_compare_refl. Qed.

Lemma dt_compare_eq d1 d2 : dt_compare d1 d2 = Eq <-> d1 = d2.
Proof.
  split; [|intros ->; apply dt_compare_refl].
  intros H. now apply dt_fields_inj, lex_compare_eq.
Qed.

Lemma dt_compare_antisym d1 d2 : dt_compare d2 d1 = CompOpp (dt_compare d1 d2).
Proof. apply lex_compare_antisym. Qed.

Lemma dt_compare_trans d1 d2 d3 :
  dt_compare d1 d2 = Lt -> dt_compare d2 d3 = Lt -> dt_compare d1 d3 = Lt.
Proof. apply lex_compare_trans. Qed.

Lemma dt_eqb_eq d1 d2 : dt_eqb d1 d2 = true <-> d1 = d2.
Proof.
  unfold dt_eqb. rewrite <- dt_compare_eq.
  destruct (dt_compare d1 d2); split; congruence.
Qed.

Lemma dt_eqb_refl d : dt_eqb d d = true.
Proof. now apply dt_eqb_eq. Qed.

(** *** Month arithmetic *)

Lemma days_in_month_pos y m : 1 <= days_in_month y m.
Proof.
  unfold days_in_month.
  destruct (m =? 2); [destruct (is_leap y); lia|].
  destruct ((m =? 4) || (m =? 6) || (m =? 9) || (m =? 11)); lia.
Qed.

(** Moving a first-of-month stamp keeps it a first-of-month stamp. *)
Lemma add_months_first_of_month d k :
  add_months (first_of_month d) k =
  first_of_month (add_months (first_of_month d) k).
Proof.
  unfold add_months, first_of_month. simpl. f_equal.
  pose proof (days_in_month_pos
    ((year d * 12 + (month d - 1) + k) / 12)
    ((year d * 12 + (month d - 1) + k) mod 12 + 1)). lia.
Qed.

Lemma add_months_0 d :
  1 <= month d <= 12 -> add_months (first_of_month d) 0 = first_of_month d.
Proof.
  intros Hm. rewrite add_months_first_of_month.
  unfold add_months, first_of_month. simpl.
  replace (year d * 12 + (month d - 1) + 0) with ((month d - 1) + year d * 12)
    by lia.
  rewrite Z.div_add, Z.mod_add by lia.
  rewrite Z.div_small, Z.mod_small by lia.
  f_equal; lia.
Qed.

(** The month of [add_months] is always a calendar month. *)
Lemma add_months_month_range d k : 1 <= month (add_months d k) <= 12.
Proof.
  unfold add_months. simpl.
  pose proof (Z.mod_pos_bound (year d * 12 + (month d - 1) + k) 12). lia.
Qed.

(** Distinct offsets from one anchor give distinct months. *)
Lemma add_months_inj d k1 k2 :
  add_months (first_of_month d) k1 = add_months (first_of_month d) k2 ->
  k1 = k2.
Proof.
  unfold add_months, first_of_month. simpl. intros H.
  injection H as Hy Hm _.
  pose proof (Z.div_mod (year d * 12 + (month d - 1) + k1) 12).
  pose proof (Z.div_mod (year d * 12 + (month d - 1) + k2) 12).
  lia.
Qed.

(** *** Date texts order as the dates do *)

Lemma append_cons c s r : (String c s ++ r)%string = String c (s ++ r)%string.
Proof. reflexivity. Qed.

Lemma append_nil r : ("" ++ r)%string = r.
Proof. reflexivity. Qed.

Lemma append_assoc (s1 s2 s3 : string) :
  ((s1 ++ s2) ++ s3 = s1 ++ (s2 ++ s3))%string.
Proof.
  induction s1 as [|c s1 IH]; [reflexivity|].
  rewrite !append_cons. now f_equal.
Qed.

Lemma digit_compare a b :
  Ascii.compare (digit a) (digit b) = (a mod 10 ?= b mod 10).
Proof.
  unfold digit.
  pose proof (Z.mod_pos_bound a 10 ltac:(lia)) as Ha.
  pose proof (Z.mod_pos_bound b 10 ltac:(lia)) as Hb.
  generalize dependent (a mod 10). intros x Hx.
  generalize dependent (b mod 10). intros y Hy.
  assert (x = 0 \/ x = 1 \/ x = 2 \/ x = 3 \/ x = 4 \/ x = 5 \/ x = 6 \/
          x = 7 \/ x = 8 \/ x = 9) as Hxc by lia.
  assert (y = 0 \/ y = 1 \/ y = 2 \/ y = 3 \/ y = 4 \/ y = 5 \/ y = 6 \/
          y = 7 \/ y = 8 \/ y = 9) as Hyc by lia.
  clear Hx Hy.
  repeat (destruct Hxc as [->|Hxc]); try subst x;
    repeat (destruct Hyc as [->|Hyc]); try subst y; reflexivity.
Qed.

(** Comparing two fixed-width decimal prefixes compares the numbers. *)
Lemma pad2_compare a b r1 r2 :
  0 <= a < 100 -> 0 <= b < 100 ->
  String.compare (pad2 a ++ r1) (pad2 b ++ r2) =
  match a ?= b with Eq => String.compare r1 r2 | c => c end.
Proof.
  intros Ha Hb. unfold pad2. rewrite !append_cons, append_nil.
  cbn [String.compare]. rewrite !digit_compare.
  destruct (Z.compare_spec ((a / 10) mod 10) ((b / 10) mod 10)) as [H1|H1|H1];
  destruct (Z.compare_spec (a mod 10) (b mod 10)) as [H2|H2|H2];
  destruct (Z.compare_spec a b) as [H3|H3|H3];
  try reflexivity; exfalso; clear r1 r2;
  Z.div_mod_to_equations; lia.
Qed.

Lemma pad4_split n :
  0 <= n < 10000 -> pad4 n = (pad2 (n / 100) ++ pad2 (n mod 100))%string.
Proof.
  intros Hn. unfold pad4, pad2. rewrite !append_cons, append_nil.
  unfold digit.
  replace ((n / 1000) mod 10) with ((n / 100 / 10) mod 10)
    by (Z.div_mod_to_equations; lia).
  replace ((n mod 100 / 10) mod 10) with ((n / 10) mod 10)
    by (Z.div_mod_to_equations; lia).
  replace ((n mod 100) mod 10) with (n mod 10)
    by (Z.div_mod_to_equations; lia).
  reflexivity.
Qed.

Lemma pad4_compare a b r1 r2 :
  0 <= a < 10000 -> 0 <= b < 10000 ->
  String.compare (pad4 a ++ r1) (pad4 b ++ r2) =
  match a ?= b with Eq => String.compare r1 r2 | c => c end.
Proof.
  intros Ha Hb. rewrite !pad4_split by assumption.
  rewrite !append_assoc.
  rewrite !pad2_compare by (Z.div_mod_to_equations; lia).
  destruct (Z.compare_spec (a / 100) (b / 100)) as [H1|H1|H1];
  destruct (Z.compare_spec (a mod 100) (b mod 100)) as [H2|H2|H2];
  destruct (Z.compare_spec a b) as [H3|H3|H3];
  try reflexivity; exfalso; clear r1 r2;
  Z.div_mod_to_equations; lia.
Qed.

Lemma sep_compare c r1 r2 :
  String.compare (String c "" ++ r1) (String c "" ++ r2) = String.compare r1 r2.
Proof.
  rewrite !append_cons, !append_nil. cbn [String.compare].
  unfold Ascii.compare. now rewrite N.compare_refl.
Qed.

Lemma append_empty_r s : (s ++ "")%string = s.
Proof. induction s as [|c s IH]; [reflexivity|]. rewrite append_cons. now f_equal. Qed.

(** The fields [strftime_ymd_hms] prints: the date and time to the second. *)
Definition to_the_second (d : datetime) : list Z :=
  [year d; month d; day d; hour d; minute d; second d].

(** On printable datetimes the texts of [strftime_ymd_hms] compare, as
    strings, the way the datetimes compare to the second. *)
Lemma strftime_ymd_hms_compare d1 d2 :
  printable d1 -> printable d2 ->
  String.compare (strftime_ymd_hms d1) (strftime_ymd_hms d2) =
  lex_compare (to_the_second d1) (to_the_second d2).
Proof.
  intros (Hy1 & Hm1 & Hd1 & Hh1 & Hmi1 & Hs1) (Hy2 & Hm2 & Hd2 & Hh2 & Hmi2 & Hs2).
  unfold strftime_ymd_hms, to_the_second. cbn [lex_compare].
  rewrite <- (append_empty_r (pad2 (second d1))),
          <- (append_empty_r (pad2 (second d2))).
  rewrite pad4_compare by lia.
  destruct (year d1 ?= year d2); try reflexivity.
  rewrite sep_compare, pad2_compare by lia.
  destruct (month d1 ?= month d2); try reflexivity.
  rewrite sep_compare, pad2_compare by lia.
  destruct (day d1 ?= day d2); try reflexivity.
  rewrite sep_compare, pad2_compare by lia.
  destruct (hour d1 ?= hour d2); try reflexivity.
  rewrite sep_compare, pad2_compare by lia.
  destruct (minute d1 ?= minute d2); try reflexivity.
  rewrite sep_compare, pad2_compare by lia.
  destruct (second d1 ?= second d2); reflexivity.
Qed.

End Dates.

(** ** patch_extractor.py : the event extractor *)

Module Extractor.
Import Text PatchExtractor Dates.

(** A news item of the Steam Web API; a key the item lacks is [None]. *)
Record news_item := mk_news_item {
  ni_date : option Z;
  ni_title : option string;
  ni_contents : option string
}.

(** One entry of the [patches] list. *)
Record patch_entry := mk_patch_entry {
  pe_appid : Z;
  pe_title : string;
  pe_contents : string;
  pe_date : string;
  pe_unix_timestamp : Z;
  pe_is_major : bool;
  pe_classification_reason : string
}.

(** One value of the [summary] dict. *)
Record game_summary := mk_game_summary {
  total_patches : Z;
  major_patches : Z;
  minor_patches : Z;
  has_major_patch : bool;
  first_major_patch_date : option string;
  last_patch_date : option string
}.

(** Keys of a Python dict that holds integers or strings: [5] and ["5"] are
    different keys. *)
Abbreviation pykey := (Z + string)%type.

(** What [extract_patches_for_games] returns (the entries the panel does not
    read, [extraction_date] and [period], are left out). *)
Record extraction := mk_extraction {
  summary : gmap pykey game_summary;
  patches : list patch_entry
}.

(** [max(xs)] and [min(xs)] over strings ([None] for an empty sequence,
    where the source does not call them): the first extremal element wins. *)
Definition str_max (xs : list string) : option string :=
  match xs with
  | [] => None
  | x :: xs' =>
      Some (fold_left (fun acc y => if String.ltb acc y then y else acc) xs' x)
  end.

Definition str_min (xs : list string) : option string :=
  match xs with
  | [] => None
  | x :: xs' =>
      Some (fold_left (fun acc y => if String.ltb y acc then y else acc) xs' x)
  end.

(** [contents[:500]] *)
Definition truncate_500 (contents : string) : string :=
  take_chars 500 contents.

(** The "Summarize" block of the per-game loop body. *)
Definition summarize (patches : list patch_entry) : game_summary :=
  let major_count := Z.of_nat (length (List.filter pe_is_major patches)) in
  let minor_count := (Z.of_nat (length patches) - major_count)%Z in
  let last_patch_date :=
    match patches with
    | [] => None
    | _ => str_max (map pe_date patches)
    end in
  let first_major_patch_date :=
    if existsb pe_is_major patches
    then str_min (map pe_date (List.filter pe_is_major patches))
    else None in
  mk_game_summary (Z.of_nat (length patches)) major_count minor_count
                  (0 <? major_count)%Z first_major_patch_date last_patch_date.

Section Extraction.

(** [datetime.utcfromtimestamp]; [None] when it raises. *)
Variable utcfromtimestamp : Z -> option datetime.

(** The HTTP request of [fetch_news_for_app], down to the [newsitems] list;
    [None] when anything in the [try] block raises. *)
Variable request_news : Z -> option (list news_item).

(** [datetime.utcnow() - timedelta(days=365)], read once per run. *)
Variable one_year_ago : datetime.

Definition fetch_news_for_app (appid : Z) : list news_item :=
  match request_news appid with
  | Some newsitems => newsitems
  | None => []
  end.

(** The body of [for item in news]: [None] stands for [continue], [Some]
    for the entry appended to [patches] and [all_patches]. *)
Definition patch_entry_of (appid : Z) (item : news_item) : option patch_entry :=
  let unix_ts := default 0%Z (ni_date item) in
  match utcfromtimestamp unix_ts with
  | None => None
  | Some item_date =>
      if dt_ltb item_date one_year_ago then None
      else
        let title := default "" (ni_title item) in
        let contents := default "" (ni_contents item) in
        match classify_patch title contents with
        | None => None
        | Some (is_patch, is_major, reason) =>
            Some (mk_patch_entry appid title (truncate_500 contents)
                                 (strftime_ymd_hms item_date) unix_ts
                                 is_major reason)
        end
  end.

Definition collect_patches (appid : Z) (news : list news_item)
  : list patch_entry :=
  omap (patch_entry_of appid) news.

(** One round of [for appid in appids]. *)
Definition extract_game (out : extraction) (appid : Z) : extraction :=
  let news := fetch_news_for_app appid in
  let game_patches := collect_patches appid news in
  mk_extraction (<[inl appid := summarize game_patches]> (summary out))
                (patches out ++ game_patches).

Definition extract_patches_for_games (appids : list Z) : extraction :=
  fold_left extract_game appids (mk_extraction ∅ []).

(** *** The order on date texts *)

Lemma ascii_compare_refl a : Ascii.compare a a = Eq.
Proof. unfold Ascii.compare. apply N.compare_refl. Qed.

Lemma string_compare_refl s : String.compare s s = Eq.
Proof.
  induction s as [|a s IH]; [reflexivity|].
  cbn [String.compare]. now rewrite ascii_compare_refl.
Qed.

Lemma string_compare_trans a b c :
  String.compare a b = Lt -> String.compare b c = Lt -> String.compare a c = Lt.
Proof.
  revert b c. induction a as [|x a IH]; intros [|y b] [|z c];
    cbn [String.compare]; try easy.
  unfold Ascii.compare.
  destruct (N.compare_spec (N_of_ascii x) (N_of_ascii y)) as [Hxy|Hxy|Hxy],
           (N.compare_spec (N_of_ascii y) (N_of_ascii z)) as [Hyz|Hyz|Hyz];
    try easy.
  - rewrite Hxy, Hyz, N.compare_refl. apply IH.
  - intros _ _. rewrite Hxy. now apply N.compare_lt_iff in Hyz as ->.
  - intros _ _. rewrite <- Hyz. now apply N.compare_lt_iff in Hxy as ->.
  - intros _ _. assert (N_of_ascii x < N_of_ascii z)%N as Hxz by lia.
    now apply N.compare_lt_iff in Hxz as ->.
Qed.

Lemma string_leb_refl s : String.leb s s = true.
Proof. unfold String.leb. now rewrite string_compare_refl. Qed.

Lemma string_ltb_leb a b : String.ltb a b = true -> String.leb a b = true.
Proof. unfold String.ltb, String.leb. now destruct (String.compare a b). Qed.

Lemma string_not_ltb_leb a b : String.ltb a b = false -> String.leb b a = true.
Proof.
  unfold String.ltb, String.leb. rewrite (String.compare_antisym a b).
  now destruct (String.compare b a).
Qed.

Lemma string_leb_trans a b c :
  String.leb a b = true -> String.leb b c = true -> String.leb a c = true.
Proof.
  unfold String.leb. intros Hab Hbc.
  destruct (String.compare a b) eqn:Eab; try discriminate.
  - now apply String.compare_eq_iff in Eab as ->.
  - destruct (String.compare b c) eqn:Ebc; try discriminate.
    + apply String.compare_eq_iff in Ebc as <-. now rewrite Eab.
    + now rewrite (string_compare_trans a b c).
Qed.

(** *** [min] and [max] *)

Lemma fold_min_spec xs x :
  let m := fold_left (fun acc y => if String.ltb y acc then y else acc) xs x in
  In m (x :: xs) /\ forall y, In y (x :: xs) -> String.leb m y = true.
Proof.
  revert x. induction xs as [|z xs IH]; intros x; cbn [fold_left].
  - split; [now left|]. intros y [<-|[]]. apply string_leb_refl.
  - destruct (String.ltb z x) eqn:Hzx.
    + destruct (IH z) as [Hin Hle]. split; [now right|].
      intros y [<-|Hy]; [|now apply Hle].
      apply string_leb_trans with z;
        [apply Hle; now left | now apply string_ltb_leb].
    + destruct (IH x) as [Hin Hle]. split.
      * destruct Hin as [<-|Hin]; [now left | right; now right].
      * intros y [<-|[<-|Hy]].
        -- apply Hle. now left.
        -- apply string_leb_trans with x;
             [apply Hle; now left | now apply string_not_ltb_leb].
        -- apply Hle. now right.
Qed.

Lemma fold_max_spec xs x :
  let m := fold_left (fun acc y => if String.ltb acc y then y else acc) xs x in
  In m (x :: xs) /\ forall y, In y (x :: xs) -> String.leb y m = true.
Proof.
  revert x. induction xs as [|z xs IH]; intros x; cbn [fold_left].
  - split; [now left|]. intros y [<-|[]]. apply string_leb_refl.
  - destruct (String.ltb x z) eqn:Hxz.
    + destruct (IH z) as [Hin Hle]. split; [now right|].
      intros y [<-|Hy]; [|now apply Hle].
      apply string_leb_trans with z;
        [now apply string_ltb_leb | apply Hle; now left].
    + destruct (IH x) as [Hin Hle]. split.
      * destruct Hin as [<-|Hin]; [now left | right; now right].
      * intros y [<-|[<-|Hy]].
        -- apply Hle. now left.
        -- apply string_leb_trans with x;
             [now apply string_not_ltb_leb | apply Hle; now left].
        -- apply Hle. now right.
Qed.

Lemma str_min_spec xs d :
  str_min xs = Some d ->
  In d xs /\ forall y, In y xs -> String.leb d y = true.
Proof.
  destruct xs as [|x xs]; [discriminate|]. cbn [str_min].
  intros [= <-]. apply fold_min_spec.
Qed.

Lemma str_max_spec xs d :
  str_max xs = Some d ->
  In d xs /\ forall y, In y xs -> String.leb y d = true.
Proof.
  destruct xs as [|x xs]; [discriminate|]. cbn [str_max].
  intros [= <-]. apply fold_max_spec.
Qed.

Lemma str_min_None xs : str_min xs = None <-> xs = [].
Proof. destruct xs; split; easy. Qed.

Lemma str_max_None xs : str_max xs = None <-> xs = [].
Proof. destruct xs; split; easy. Qed.

(** *** The summary of one game *)

(** The summary of a game without activity. *)
Definition no_activity : game_summary :=
  mk_game_summary 0 0 0 false None None.

Lemma existsb_false_filter {A} (f : A -> bool) (l : list A) :
  existsb f l = false -> List.filter f l = [].
Proof.
  induction l as [|a l IH]; [reflexivity|]. cbn [existsb List.filter].
  destruct (f a); [discriminate|]. exact IH.
Qed.

Lemma summarize_first_major_Some patches d :
  first_major_patch_date (summarize patches) = Some d ->
  (exists p, In p patches /\ pe_is_major p = true /\ pe_date p = d) /\
  (forall q, In q patches -> pe_is_major q = true ->
             String.leb d (pe_date q) = true).
Proof.
  unfold summarize. cbn [first_major_patch_date].
  destruct (existsb pe_is_major patches); [|discriminate].
  intros Hmin. apply str_min_spec in Hmin as [Hin Hle]. split.
  - apply in_map_iff in Hin as (p & Hp & Hin).
    apply filter_In in Hin as [Hin Hmaj]. now exists p.
  - intros q Hq Hmaj. apply Hle, in_map, filter_In. now split.
Qed.

Lemma summarize_first_major_None patches :
  first_major_patch_date (summarize patches) = None ->
  forall p, In p patches -> pe_is_major p = false.
Proof.
  unfold summarize. cbn [first_major_patch_date].
  destruct (existsb pe_is_major patches) eqn:Hex.
  - intros Hmin. apply str_min_None in Hmin.
    apply existsb_exists in Hex as (p & Hin & Hmaj).
    assert (In (pe_date p) (map pe_date (List.filter pe_is_major patches)))
      as Habs by (apply in_map, filter_In; now split).
    rewrite Hmin in Habs. destruct Habs.
  - intros _ p Hin. destruct (pe_is_major p) eqn:Hmaj; [|reflexivity].
    assert (existsb pe_is_major patches = true) as Habs
      by (apply existsb_exists; now exists p).
    congruence.
Qed.

Lemma summarize_last_Some patches d :
  last_patch_date (summarize patches) = Some d ->
  (exists p, In p patches /\ pe_date p = d) /\
  (forall q, In q patches -> String.leb (pe_date q) d = true).
Proof.
  unfold summarize. cbn [last_patch_date].
  destruct patches as [|p0 ps]; [discriminate|].
  intros Hmax. apply str_max_spec in Hmax as [Hin Hle]. split.
  - apply in_map_iff in Hin as (p & Hp & Hin). now exists p.
  - intros q Hq. now apply Hle, in_map.
Qed.

Lemma summarize_last_None patches :
  last_patch_date (summarize patches) = None -> patches = [].
Proof.
  unfold summarize. cbn [last_patch_date].
  destruct patches as [|p0 ps]; [reflexivity|]. discriminate.
Qed.

(** *** The summary dict after the loop over the games *)

Lemma extract_summary_lookup appids out0 appid :
  (In appid appids ->
   summary (fold_left extract_game appids out0) !! (inl appid : pykey) =
   Some (summarize (collect_patches appid (fetch_news_for_app appid)))) /\
  (~ In appid appids ->
   summary (fold_left extract_game appids out0) !! (inl appid : pykey) =
   summary out0 !! (inl appid : pykey)).
Proof.
  revert out0. induction appids as [|a l IH]; intros out0; cbn [fold_left].
  - split; [intros [] | reflexivity].
  - destruct (IH (extract_game out0 a)) as [IHin IHout].
    destruct (in_dec Z.eq_dec appid l) as [Hl|Hl].
    + split; [intros _; now apply IHin | intros Hn; exfalso; apply Hn; now right].
    + rewrite (IHout Hl). cbn [extract_game summary]. split.
      * intros [->|Hin]; [apply lookup_insert_eq | contradiction].
      * intros Hn. apply lookup_insert_ne. intros [= ->]. apply Hn. now left.
Qed.

(** Only integer keys are written. *)
Lemma extract_summary_no_str_key appids out0 (k : string) :
  summary (fold_left extract_game appids out0) !! (inr k : pykey) =
  summary out0 !! (inr k : pykey).
Proof.
  revert out0. induction appids as [|a l IH]; intros out0; cbn [fold_left];
    [reflexivity|].
  rewrite IH. cbn [extract_game summary]. now apply lookup_insert_ne.
Qed.

(** *** Date texts of the extracted records are chronological *)

(** Every record comes from a news item inside the window and carries the
    text of that item's date. *)
Lemma collect_patches_origin appid news p :
  In p (collect_patches appid news) ->
  exists item item_date,
    In item news /\
    utcfromtimestamp (default 0%Z (ni_date item)) = Some item_date /\
    dt_ltb item_date one_year_ago = false /\
    pe_date p = strftime_ymd_hms item_date /\
    pe_appid p = appid.
Proof.
  unfold collect_patches. rewrite <- list_elem_of_In, list_elem_of_omap.
  intros (item & Hin & Hp). apply list_elem_of_In in Hin.
  unfold patch_entry_of in Hp. cbv zeta in Hp.
  destruct (utcfromtimestamp (default 0%Z (ni_date item))) as [t|] eqn:Ht;
    [|discriminate].
  destruct (dt_ltb t one_year_ago) eqn:Hold; [discriminate|].
  destruct (classify_patch _ _) as [[[is_patch is_major] reason]|];
    [|discriminate].
  injection Hp as <-. now exists item, t.
Qed.

(** On printable datetimes, [<=] on the date texts is [<=] on the dates,
    read to the second. *)
Lemma date_text_leb d1 d2 :
  printable d1 -> printable d2 ->
  String.leb (strftime_ymd_hms d1) (strftime_ymd_hms d2) = true <->
  lex_compare (to_the_second d1) (to_the_second d2) <> Gt.
Proof.
  intros H1 H2. unfold String.leb.
  rewrite (strftime_ymd_hms_compare d1 d2 H1 H2).
  destruct (lex_compare (to_the_second d1) (to_the_second d2));
    split; congruence.
Qed.

(** *** The records and the news items they come from *)

Lemma patch_entry_of_Some appid item p :
  patch_entry_of appid item = Some p <->
  exists item_date is_patch reason,
    utcfromtimestamp (default 0%Z (ni_date item)) = Some item_date /\
    dt_ltb item_date one_year_ago = false /\
    classify_patch (default "" (ni_title item)) (default "" (ni_contents item))
    = Some (is_patch, pe_is_major p, reason) /\
    p = mk_patch_entry appid (default "" (ni_title item))
          (truncate_500 (default "" (ni_contents item)))
          (strftime_ymd_hms item_date) (default 0%Z (ni_date item))
          (pe_is_major p) reason.
Proof.
  unfold patch_entry_of. cbv zeta. split.
  - destruct (utcfromtimestamp _) as [t|] eqn:Ht; [|discriminate].
    destruct (dt_ltb t one_year_ago) eqn:Hw; [discriminate|].
    destruct (classify_patch _ _) as [[[is_patch is_major] reason]|] eqn:Hc;
      [|discriminate].
    intros [= <-]. exists t, is_patch, reason. cbn [pe_is_major].
    repeat split; assumption.
  - intros (t & is_patch & reason & -> & -> & -> & Hp).
    now rewrite Hp.
Qed.

(** What [datetime.utcfromtimestamp] guarantees of its results. *)
Definition valid_datetime (d : datetime) : Prop :=
  (1 <= year d <= 9999 /\ 1 <= month d <= 12 /\ 1 <= day d <= 31 /\
   0 <= hour d <= 23 /\ 0 <= minute d <= 59 /\ 0 <= second d <= 59)%Z.

Lemma in_window_printable t :
  valid_datetime t -> (1000 <= year one_year_ago)%Z ->
  dt_ltb t one_year_ago = false -> printable t.
Proof.
  intros (Hy & Hrest) Hold Hw. split; [|exact Hrest].
  split; [|lia].
  unfold dt_ltb, dt_compare, dt_fields in Hw. cbn [lex_compare] in Hw.
  destruct (Z.compare_spec (year t) (year one_year_ago)) as [He|Hlt|Hgt];
    [lia | discriminate | lia].
Qed.

(** A news item that makes a record, with its date ([published_at]) and the
    verdict on it. *)
Definition recorded (news : list news_item) (item : news_item)
    (item_date : datetime) (is_major : bool) : Prop :=
  In item news /\
  utcfromtimestamp (default 0%Z (ni_date item)) = Some item_date /\
  dt_ltb item_date one_year_ago = false /\
  exists is_patch reason,
    classify_patch (default "" (ni_title item)) (default "" (ni_contents item))
    = Some (is_patch, is_major, reason).

Lemma recorded_entry appid news item t is_major :
  recorded news item t is_major ->
  exists p, In p (collect_patches appid news) /\
            pe_date p = strftime_ymd_hms t /\ pe_is_major p = is_major.
Proof.
  intros (Hin & Ht & Hw & is_patch & reason & Hc).
  exists (mk_patch_entry appid (default "" (ni_title item))
            (truncate_500 (default "" (ni_contents item)))
            (strftime_ymd_hms t) (default 0%Z (ni_date item)) is_major reason).
  split; [|split; reflexivity].
  unfold collect_patches. apply list_elem_of_In, list_elem_of_omap.
  exists item. split; [now apply list_elem_of_In|].
  unfold patch_entry_of. cbv zeta. now rewrite Ht, Hw, Hc.
Qed.

Lemma entry_recorded appid news p :
  In p (collect_patches appid news) ->
  exists item t, recorded news item t (pe_is_major p) /\
                 pe_date p = strftime_ymd_hms t.
Proof.
  unfold collect_patches. rewrite <- list_elem_of_In, list_elem_of_omap.
  intros (item & Hin & Hp). apply list_elem_of_In in Hin.
  apply patch_entry_of_Some in Hp
    as (t & is_patch & reason & Ht & Hw & Hc & Hp).
  exists item, t. split.
  - repeat split; try assumption. now exists is_patch, reason.
  - rewrite Hp. reflexivity.
Qed.

(** C5: for every list of classified patch records of a game,
    [first_major_patch_date] is the least date among the major records and
    is null exactly when there is none, [last_patch_date] is the greatest
    date among all records and is null exactly when there are no records.
    The summary dict of [extract_patches_for_games] binds every game of the
    input to the summary of that game's own records; a game with no
    qualifying news item, in particular one whose fetch failed, gets the
    summary with all counts zero and both dates null, as an ordinary entry.
    In terms of the news: the first major date is null exactly when no
    news item makes a major record, the last date exactly when no item
    makes a record; and, [utcfromtimestamp] returning valid datetimes and
    the window starting in a year of four digits, the first major date is
    the text of the earliest [published_at] (to the second) among the items
    recorded as major, the last date that of the latest [published_at]
    among all recorded items. *)
Theorem summarize_patch_dates :
  (forall patches : list patch_entry,
     match first_major_patch_date (summarize patches) with
     | Some d =>
         (exists p, In p patches /\ pe_is_major p = true /\ pe_date p = d) /\
         (forall q, In q patches -> pe_is_major q = true ->
                    String.leb d (pe_date q) = true)
     | None => forall p, In p patches -> pe_is_major p = false
     end /\
     match last_patch_date (summarize patches) with
     | Some d =>
         (exists p, In p patches /\ pe_date p = d) /\
         (forall q, In q patches -> String.leb (pe_date q) d = true)
     | None => patches = []
     end)
  /\ summarize [] = no_activity
  /\ (forall appid : Z,
        request_news appid = None ->
        collect_patches appid (fetch_news_for_app appid) = [])
  /\ (forall (appids : list Z) (appid : Z),
        In appid appids ->
        summary (extract_patches_for_games appids) !! (inl appid : pykey)
        = Some (summarize (collect_patches appid (fetch_news_for_app appid))))
  /\ (forall (appids : list Z) (appid : Z),
        In appid appids ->
        collect_patches appid (fetch_news_for_app appid) = [] ->
        summary (extract_patches_for_games appids) !! (inl appid : pykey)
        = Some no_activity)
  /\ (forall (appid : Z) (news : list news_item),
        let s := summarize (collect_patches appid news) in
        (first_major_patch_date s = None <->
         forall item t, ~ recorded news item t true) /\
        (last_patch_date s = None <->
         forall item t is_major, ~ recorded news item t is_major))
  /\ ((forall ts t, utcfromtimestamp ts = Some t -> valid_datetime t) ->
      (1000 <= year one_year_ago)%Z ->
      forall (appid : Z) (news : list news_item),
        let s := summarize (collect_patches appid news) in
        (forall d, first_major_patch_date s = Some d ->
           exists item t,
             recorded news item t true /\ d = strftime_ymd_hms t /\
             forall item' t', recorded news item' t' true ->
               lex_compare (to_the_second t) (to_the_second t') <> Gt)
        /\ (forall d, last_patch_date s = Some d ->
              exists item t is_major,
                recorded news item t is_major /\ d = strftime_ymd_hms t /\
                forall item' t' is_major',
                  recorded news item' t' is_major' ->
                  lex_compare (to_the_second t') (to_the_second t) <> Gt)).
Proof.
  split; [|split; [reflexivity|split; [|split; [|split; [|split]]]]].
  - intros patches. split.
    + destruct (first_major_patch_date (summarize patches)) as [d|] eqn:Hf.
      * now apply summarize_first_major_Some.
      * now apply summarize_first_major_None.
    + destruct (last_patch_date (summarize patches)) as [d|] eqn:Hl.
      * now apply summarize_last_Some.
      * now apply summarize_last_None.
  - intros appid Hfail. unfold fetch_news_for_app. now rewrite Hfail.
  - intros appids appid Hin. unfold extract_patches_for_games.
    destruct (extract_summary_lookup appids (mk_extraction ∅ []) appid)
      as [Hlook _].
    exact (Hlook Hin).
  - intros appids appid Hin Hnone. unfold extract_patches_for_games.
    destruct (extract_summary_lookup appids (mk_extraction ∅ []) appid)
      as [Hlook _].
    rewrite (Hlook Hin), Hnone. reflexivity.
  - intros appid news. cbv zeta. split; split.
    + intros Hnone item t Hrec.
      destruct (recorded_entry appid _ _ _ _ Hrec) as (p & Hp & _ & Hmaj).
      pose proof (summarize_first_major_None _ Hnone p Hp). congruence.
    + intros Hno.
      destruct (first_major_patch_date
                  (summarize (collect_patches appid news))) as [d|] eqn:Hd;
        [|reflexivity].
      apply summarize_first_major_Some in Hd as [(p & Hp & Hmaj & _) _].
      apply entry_recorded in Hp as (item & t & Hrec & _).
      rewrite Hmaj in Hrec. now destruct (Hno item t).
    + intros Hnone item t m Hrec.
      destruct (recorded_entry appid _ _ _ _ Hrec) as (p & Hp & _).
      apply summarize_last_None in Hnone. rewrite Hnone in Hp. destruct Hp.
    + intros Hno.
      destruct (last_patch_date (summarize (collect_patches appid news)))
        as [d|] eqn:Hd; [|reflexivity].
      apply summarize_last_Some in Hd as [(p & Hp & _) _].
      apply entry_recorded in Hp as (item & t & Hrec & _).
      now destruct (Hno item t (pe_is_major p)).
  - intros Hvalid Hold appid news. cbv zeta.
    assert (forall item t m, recorded news item t m -> printable t) as Hprint.
    { intros item t m (_ & Ht & Hw & _).
      apply in_window_printable; [exact (Hvalid _ t Ht) | assumption..]. }
    split.
    + intros d Hd.
      apply summarize_first_major_Some in Hd as [(p & Hp & Hmaj & Hpd) Hle].
      apply entry_recorded in Hp as (item & t & Hrec & Hdate).
      rewrite Hmaj in Hrec. exists item, t.
      split; [exact Hrec|]. split; [congruence|].
      intros item' t' Hrec'.
      destruct (recorded_entry appid _ _ _ _ Hrec') as (q & Hq & Hqd & Hqm).
      specialize (Hle q Hq Hqm). rewrite <- Hpd, Hdate, Hqd in Hle.
      apply date_text_leb in Hle; [exact Hle | eauto..].
    + intros d Hd.
      apply summarize_last_Some in Hd as [(p & Hp & Hpd) Hle].
      apply entry_recorded in Hp as (item & t & Hrec & Hdate).
      exists item, t, (pe_is_major p).
      split; [exact Hrec|]. split; [congruence|].
      intros item' t' m' Hrec'.
      destruct (recorded_entry appid _ _ _ _ Hrec') as (q & Hq & Hqd & _).
      specialize (Hle q Hq). rewrite <- Hpd, Hdate, Hqd in Hle.
      apply date_text_leb in Hle; [exact Hle | eauto..].
Qed.

End Extraction.

(** *** A small run of the extractor *)

Definition sample_utcfromtimestamp (ts : Z) : option datetime :=
  if (ts =? 1717200000)%Z then Some (mk_datetime 2024 6 1 0 0 0 0)
  else if (ts =? 1719792000)%Z then Some (mk_datetime 2024 7 1 0 0 0 0)
  else if (ts =? 1577836800)%Z then Some (mk_datetime 2020 1 1 0 0 0 0)
  else None.

Definition sample_news : list news_item :=
  [ mk_news_item (Some 1719792000%Z) (Some "Major Update 2.0")
                 (Some "New game mode added");
    mk_news_item (Some 1717200000%Z) (Some "Content Update")
                 (Some "A new map arrives");
    mk_news_item (Some 1719792000%Z) (Some "Hotfix 1.2.1")
                 (Some "Fixed a crash");
    mk_news_item (Some 1577836800%Z) (Some "Expansion announced")
                 (Some "Long ago");
    mk_news_item (Some 1717200000%Z) (Some "Roadmap")
                 (Some "Our plans for next year") ].

Definition sample_request_news (appid : Z) : option (list news_item) :=
  if (appid =? 570)%Z then Some sample_news else None.

Definition sample_one_year_ago : datetime :=
  mk_datetime 2023 8 15 12 0 0 250000.

Definition sample_patches : list patch_entry :=
  collect_patches sample_utcfromtimestamp sample_one_year_ago 570
                  (fetch_news_for_app sample_request_news 570).

Example sample_summary :
  summarize sample_patches =
  mk_game_summary 3 2 1 true (Some "2024-06-01 00:00:00")
                  (Some "2024-07-01 00:00:00").
Proof. reflexivity. Qed.

Lemma sample_utcfromtimestamp_valid ts t :
  sample_utcfromtimestamp ts = Some t -> valid_datetime t.
Proof.
  unfold sample_utcfromtimestamp.
  repeat (match goal with |- context [if ?b then _ else _] => destruct b end;
          [intros [= <-]; unfold valid_datetime; cbn; lia|]).
  discriminate.
Qed.

(** C5 on the run: the summary dict binds game 570 to the summary of its
    three records, with the first major date 2024-06-01 and the last date
    2024-07-01; that first date is the date of a news item recorded as
    major, not after the date of any other; the fetch for game 730 fails
    and the game gets the summary without activity. *)
Lemma summarize_patch_dates_witness :
  summary (extract_patches_for_games sample_utcfromtimestamp
             sample_request_news sample_one_year_ago [570; 730]%Z)
    !! (inl 570%Z : pykey)
  = Some (mk_game_summary 3 2 1 true (Some "2024-06-01 00:00:00")
                          (Some "2024-07-01 00:00:00"))
  /\ (exists item t,
        recorded sample_utcfromtimestamp sample_one_year_ago sample_news
                 item t true
        /\ "2024-06-01 00:00:00" = strftime_ymd_hms t
        /\ forall item' t',
             recorded sample_utcfromtimestamp sample_one_year_ago sample_news
                      item' t' true ->
             lex_compare (to_the_second t) (to_the_second t') <> Gt)
  /\ summary (extract_patches_for_games sample_utcfromtimestamp
                sample_request_news sample_one_year_ago [570; 730]%Z)
       !! (inl 730%Z : pykey) = Some no_activity.
Proof.
  destruct (summarize_patch_dates sample_utcfromtimestamp sample_request_news
              sample_one_year_ago)
    as (_ & _ & Hfail & Hdict & Hzero & _ & Hchron).
  split; [|split].
  - rewrite (Hdict [570; 730]%Z 570%Z (or_introl eq_refl)).
    reflexivity.
  - destruct (Hchron sample_utcfromtimestamp_valid ltac:(cbn; lia)
                     570%Z sample_news) as [Hfirst _].
    apply Hfirst. reflexivity.
  - apply Hzero; [right; left; reflexivity | apply Hfail; reflexivity].
Defined.

End Extractor.

(** ** scraper/cache.py : the TTL cache *)

Module Cache.

Section SteamCache.

(** The cached values and the JSON codec ([json.dumps], [json.loads]). *)
Variable Payload : Type.
Variable json_dumps : Payload -> string.
Variable json_loads : string -> Payload.

(** The object: its [ttl_seconds] and the [cache] table of its database,
    keyed by the primary key [(endpoint, appid)], each row holding [data]
    and [timestamp]. *)
Record SteamCache := mk_cache {
  ttl_seconds : Z;
  table : gmap (string * Z) (string * Q)
}.

(** [SteamCache(db_path, ttl_seconds)] on a fresh database. *)
Definition init (ttl : Z) : SteamCache := mk_cache ttl ∅.

(** [time.time() - ts > self.ttl_seconds] *)
Definition expired (c : SteamCache) (now ts : Q) : bool :=
  negb (Qle_bool (now - ts) (inject_Z (ttl_seconds c))).

(** [get], with [now] the reading of [time.time()]: the returned value and
    the cache after the call. *)
Definition get (c : SteamCache) (now : Q) (endpoint : string) (appid : Z)
  : option Payload * SteamCache :=
  match table c !! (endpoint, appid) with
  | None => (None, c)
  | Some (data_str, ts) =>
      if expired c now ts
      then (None, mk_cache (ttl_seconds c) (delete (endpoint, appid) (table c)))
      else (Some (json_loads data_str), c)
  end.

(** [set]: INSERT OR REPLACE under the primary key. *)
Definition set (c : SteamCache) (now : Q) (endpoint : string) (appid : Z)
    (data : Payload) : SteamCache :=
  mk_cache (ttl_seconds c)
           (<[(endpoint, appid) := (json_dumps data, now)]> (table c)).

(** [clear] *)
Definition clear (c : SteamCache) : SteamCache :=
  mk_cache (ttl_seconds c) ∅.

(** [get_stats]: the ["total"] count and the ["by_endpoint"] counts. *)
Definition stats_total (c : SteamCache) : Z :=
  Z.of_nat (size (table c)).

Definition stats_by_endpoint (c : SteamCache) : gmap string Z :=
  map_fold (fun (k : string * Z) (_ : string * Q) (acc : gmap string Z) =>
              <[k.1 := (default 0 (acc !! k.1) + 1)%Z]> acc)
           ∅ (table c).

Definition get_stats (c : SteamCache) : Z * gmap string Z :=
  (stats_total c, stats_by_endpoint c).

(** *** Reads *)

Lemma expired_true c now ts :
  expired c now ts = true <-> (inject_Z (ttl_seconds c) < now - ts)%Q.
Proof.
  unfold expired. rewrite negb_true_iff, <- not_true_iff_false, Qle_bool_iff.
  split; [apply Qnot_le_lt | apply Qlt_not_le].
Qed.

Lemma expired_false c now ts :
  expired c now ts = false <-> (now - ts <= inject_Z (ttl_seconds c))%Q.
Proof. unfold expired. now rewrite negb_false_iff, Qle_bool_iff. Qed.

Lemma get_absent c now endpoint appid :
  table c !! (endpoint, appid) = None ->
  get c now endpoint appid = (None, c).
Proof. intros H. unfold get. now rewrite H. Qed.

Lemma get_fresh c now endpoint appid data_str ts :
  table c !! (endpoint, appid) = Some (data_str, ts) ->
  (now - ts <= inject_Z (ttl_seconds c))%Q ->
  get c now endpoint appid = (Some (json_loads data_str), c).
Proof.
  intros H Hfresh. unfold get. rewrite H.
  apply expired_false in Hfresh. now rewrite Hfresh.
Qed.

Lemma get_expired c now endpoint appid data_str ts :
  table c !! (endpoint, appid) = Some (data_str, ts) ->
  (inject_Z (ttl_seconds c) < now - ts)%Q ->
  get c now endpoint appid =
  (None, mk_cache (ttl_seconds c) (delete (endpoint, appid) (table c))).
Proof.
  intros H Hold. unfold get. rewrite H.
  apply expired_true in Hold. now rewrite Hold.
Qed.

Lemma stats_total_delete c k v :
  table c !! k = Some v ->
  stats_total (mk_cache (ttl_seconds c) (delete k (table c)))
  = (stats_total c - 1)%Z.
Proof.
  intros H. unfold stats_total. cbn [table].
  rewrite map_size_delete, H. cbn beta iota.
  assert (size (table c) <> 0%nat) as Hne
    by (apply map_size_non_empty_iff; intros He; rewrite He in H;
        now rewrite lookup_empty in H).
  lia.
Qed.

(** *** Writes *)

Lemma set_lookup c now endpoint appid data :
  table (set c now endpoint appid data) !! (endpoint, appid)
  = Some (json_dumps data, now).
Proof. unfold set. cbn [table]. apply lookup_insert_eq. Qed.

Lemma set_lookup_other c now endpoint appid data k :
  k <> (endpoint, appid) ->
  table (set c now endpoint appid data) !! k = table c !! k.
Proof. intros Hk. unfold set. cbn [table]. now apply lookup_insert_ne. Qed.

Lemma set_set c t1 t2 endpoint appid d1 d2 :
  set (set c t1 endpoint appid d1) t2 endpoint appid d2
  = set c t2 endpoint appid d2.
Proof. unfold set. cbn [table ttl_seconds]. now rewrite insert_insert_eq. Qed.

Lemma stats_total_set c now endpoint appid data :
  stats_total (set c now endpoint appid data) =
  match table c !! (endpoint, appid) with
  | Some _ => stats_total c
  | None => (stats_total c + 1)%Z
  end.
Proof.
  unfold stats_total, set. cbn [table]. rewrite map_size_insert.
  destruct (table c !! (endpoint, appid)); unfold id; lia.
Qed.

(** C8: for every cache, key and payload that survives the JSON codec, a
    [set] followed by a [get] at most the TTL later returns that payload and
    leaves the cache as it is; a [get] of an absent key returns no value; a
    [get] of an entry older than the TTL returns no value and deletes the
    entry, so the total of [get_stats] goes down by one and the key is
    absent afterwards; [set] replaces the row of its key (the last write
    wins), leaves every other key alone, and adds a row only for a new
    key. *)
Theorem cache_contract (c : SteamCache) (endpoint : string) (appid : Z) :
  (forall (data : Payload) (t_set t_get : Q),
     json_loads (json_dumps data) = data ->
     (t_get - t_set <= inject_Z (ttl_seconds c))%Q ->
     get (set c t_set endpoint appid data) t_get endpoint appid
     = (Some data, set c t_set endpoint appid data))
  /\ (forall now : Q,
        table c !! (endpoint, appid) = None ->
        get c now endpoint appid = (None, c))
  /\ (forall (now : Q) (data_str : string) (stored_at : Q),
        table c !! (endpoint, appid) = Some (data_str, stored_at) ->
        (inject_Z (ttl_seconds c) < now - stored_at)%Q ->
        (get c now endpoint appid).1 = None /\
        table (get c now endpoint appid).2 !! (endpoint, appid) = None /\
        (forall k, k <> (endpoint, appid) ->
                   table (get c now endpoint appid).2 !! k = table c !! k) /\
        stats_total (get c now endpoint appid).2 = (stats_total c - 1)%Z /\
        (forall later : Q,
           get (get c now endpoint appid).2 later endpoint appid
           = (None, (get c now endpoint appid).2)))
  /\ (forall (data : Payload) (t_set t_get : Q),
        (inject_Z (ttl_seconds c) < t_get - t_set)%Q ->
        (get (set c t_set endpoint appid data) t_get endpoint appid).1 = None /\
        stats_total
          (get (set c t_set endpoint appid data) t_get endpoint appid).2
        = (stats_total (set c t_set endpoint appid data) - 1)%Z)
  /\ (forall (d1 d2 : Payload) (t1 t2 : Q),
        set (set c t1 endpoint appid d1) t2 endpoint appid d2
        = set c t2 endpoint appid d2 /\
        table (set (set c t1 endpoint appid d1) t2 endpoint appid d2)
          !! (endpoint, appid) = Some (json_dumps d2, t2) /\
        (forall k, k <> (endpoint, appid) ->
                   table (set c t1 endpoint appid d1) !! k = table c !! k) /\
        stats_total (set (set c t1 endpoint appid d1) t2 endpoint appid d2)
        = stats_total (set c t1 endpoint appid d1)).
Proof.
  repeat apply conj.
  - intros data t_set t_get Hcodec Hfresh.
    rewrite (get_fresh _ t_get endpoint appid (json_dumps data) t_set).
    + now rewrite Hcodec.
    + apply set_lookup.
    + exact Hfresh.
  - intros now. apply get_absent.
  - intros now data_str stored_at Hrow Hold.
    rewrite (get_expired c now endpoint appid data_str stored_at Hrow Hold).
    cbn [fst snd table]. repeat apply conj.
    + reflexivity.
    + apply lookup_delete_eq.
    + intros k Hk. now apply lookup_delete_ne.
    + now apply stats_total_delete with (v := (data_str, stored_at)).
    + intros later. apply get_absent. cbn [table]. apply lookup_delete_eq.
  - intros data t_set t_get Hold.
    rewrite (get_expired _ t_get endpoint appid (json_dumps data) t_set
               (set_lookup c t_set endpoint appid data) Hold).
    cbn [fst snd]. split; [reflexivity|].
    apply stats_total_delete with (v := (json_dumps data, t_set)).
    apply set_lookup.
  - intros d1 d2 t1 t2. repeat apply conj.
    + apply set_set.
    + apply set_lookup.
    + intros k Hk. now apply set_lookup_other.
    + now rewrite stats_total_set, set_lookup.
Qed.

End SteamCache.

(** *** A run of the cache, with booleans as payloads *)

Definition bool_dumps (b : bool) : string := if b then "true" else "false".
Definition bool_loads (s : string) : bool := String.eqb s "true".

(** C8 on the run: a payload stored at time 100 under ("store", 570) in a
    cache with the default TTL is read back an hour later, and is gone,
    with the total down from 1 to 0, eight days later. *)
Lemma cache_contract_witness :
  get bool bool_loads (set bool bool_dumps (init 604800) 100 "store" 570 true)
      3700 "store" 570
  = (Some true, set bool bool_dumps (init 604800) 100 "store" 570 true)
  /\ (get bool bool_loads
        (set bool bool_dumps (init 604800) 100 "store" 570 true)
        691300 "store" 570).1 = None
  /\ stats_total
       (get bool bool_loads
          (set bool bool_dumps (init 604800) 100 "store" 570 true)
          691300 "store" 570).2
     = (stats_total (set bool bool_dumps (init 604800) 100 "store" 570 true)
        - 1)%Z.
Proof.
  destruct (cache_contract bool bool_dumps bool_loads (init 604800)
              "store" 570%Z) as (Hhit & _ & _ & Hold & _).
  split.
  - apply Hhit; [reflexivity | vm_compute; discriminate].
  - apply (Hold true 100%Q 691300%Q). vm_compute; reflexivity.
Defined.

End Cache.

(** ** collect_panel_for_did.py : the monthly series and the panel *)

Module Panel.
Import Dates Extractor.

(** One dict of [fetch_monthly_series]: [{date, avg, peak}]. *)
Record raw_point := mk_raw_point {
  rp_date : string;
  rp_avg : option Q;
  rp_peak : option Q
}.

(** One row of [df_series] once grouped: columns [ym], [avg], [peak]
    ([None] in [ym] is NaT). *)
Record series_row := mk_series_row {
  sr_ym : option datetime;
  sr_avg : option Q;
  sr_peak : option Q
}.

(** The non-null cells of a column. *)
Definition present {A} (cells : list (option A)) : list A :=
  omap id cells.

(** [mean] of a group, nulls skipped; null for a group without values.
    The quotient is kept in lowest terms. *)
Definition mean (xs : list Q) : option Q :=
  match xs with
  | [] => None
  | _ => Some (Qred (fold_right Qplus 0 xs / inject_Z (Z.of_nat (length xs)))%Q)
  end.

(** [max] of a group, nulls skipped. *)
Definition maximum (xs : list Q) : option Q :=
  match xs with
  | [] => None
  | x :: xs' => Some (fold_left Qmax xs' x)
  end.

(** The sorted, duplicate-free keys of a [groupby]. *)
Fixpoint insert_key (k : datetime) (ks : list datetime) : list datetime :=
  match ks with
  | [] => [k]
  | k' :: ks' =>
      match dt_compare k k' with
      | Lt => k :: ks
      | Eq => ks
      | Gt => k' :: insert_key k ks'
      end
  end.

Definition group_keys {A} (rows : list (option datetime * A)) : list datetime :=
  fold_right (fun row ks =>
                match fst row with
                | Some k => insert_key k ks
                | None => ks
                end) [] rows.

(** The rows of the group of key [k], in frame order. *)
Definition group {A} (k : datetime) (rows : list (option datetime * A))
  : list A :=
  map snd (List.filter (fun row =>
                          match fst row with
                          | Some k' => dt_eqb k' k
                          | None => false
                          end) rows).

(** [range(lo, hi)] *)
Definition py_range (lo hi : Z) : list Z :=
  map (fun i => (lo + Z.of_nat i)%Z) (seq 0 (Z.to_nat (hi - lo))).

(** [df['ym'].isna().all()] *)
Definition ym_isna_all (df : list series_row) : bool :=
  forallb (fun r => match sr_ym r with None => true | Some _ => false end) df.

(** [df['ym'].max()], nulls skipped; NaT for a column without values. *)
Definition ym_max (df : list series_row) : option datetime :=
  match present (map sr_ym df) with
  | [] => None
  | k :: ks => Some (fold_left (fun acc k' => if dt_ltb acc k' then k' else acc) ks k)
  end.

(** [df[df['ym'] == row_date]] *)
Definition matching (df : list series_row) (row_date : datetime)
  : list series_row :=
  List.filter (fun r => match sr_ym r with
                        | Some k => dt_eqb k row_date
                        | None => false
                        end) df.

(** *** Grouping keys *)

Definition dt_lt (a b : datetime) : Prop := dt_compare a b = Lt.

Lemma dt_lt_irrefl a : ~ dt_lt a a.
Proof. unfold dt_lt. now rewrite dt_compare_refl. Qed.

Lemma insert_key_In k ks x :
  In x (insert_key k ks) <-> x = k \/ In x ks.
Proof.
  induction ks as [|k' ks IH]; cbn [insert_key].
  - simpl. intuition.
  - destruct (dt_compare k k') eqn:Hc.
    + apply dt_compare_eq in Hc as ->. simpl. intuition.
    + simpl. intuition.
    + simpl. rewrite IH. intuition.
Qed.

Lemma insert_key_sorted k ks :
  StronglySorted dt_lt ks -> StronglySorted dt_lt (insert_key k ks).
Proof.
  induction ks as [|k' ks IH]; intros Hs; cbn [insert_key].
  - repeat constructor.
  - destruct (dt_compare k k') eqn:Hc; [exact Hs | |].
    + constructor; [exact Hs|]. constructor; [exact Hc|].
      apply StronglySorted_inv in Hs as [_ Hall].
      rewrite List.Forall_forall in *. intros a Ha.
      apply dt_compare_trans with k'; [exact Hc | now apply Hall].
    + apply StronglySorted_inv in Hs as [Hs Hall].
      constructor; [now apply IH|].
      apply List.Forall_forall. intros x Hx.
      apply insert_key_In in Hx as [->|Hx].
      * unfold dt_lt. rewrite dt_compare_antisym, Hc. reflexivity.
      * rewrite List.Forall_forall in Hall. now apply Hall.
Qed.

Lemma group_keys_sorted {A} (rows : list (option datetime * A)) :
  StronglySorted dt_lt (group_keys rows).
Proof.
  induction rows as [|[ym p] rows IH]; cbn [group_keys fold_right fst].
  - constructor.
  - destruct ym; [now apply insert_key_sorted | exact IH].
Qed.

Lemma group_keys_In {A} (rows : list (option datetime * A)) k :
  In k (group_keys rows) <-> exists p, In (Some k, p) rows.
Proof.
  induction rows as [|[ym p] rows IH]; cbn [group_keys fold_right fst].
  - split; [intros [] | intros [p []]].
  - destruct ym as [k'|].
    + fold (group_keys rows). rewrite insert_key_In, IH. split.
      * intros [->|[q Hq]]; [exists p; now left | exists q; now right].
      * intros [q [[= <- <-]|Hq]]; [now left | right; now exists q].
    + fold (group_keys rows). rewrite IH. split.
      * intros [q Hq]. exists q. now right.
      * intros [q [[=]|Hq]]. now exists q.
Qed.

Lemma sorted_lt_NoDup ks : StronglySorted dt_lt ks -> List.NoDup ks.
Proof.
  induction 1 as [|k ks Hs IH Hall]; constructor; [|exact IH].
  intros Hin. rewrite List.Forall_forall in Hall.
  now apply (dt_lt_irrefl k), Hall.
Qed.

Lemma group_In {A} k (rows : list (option datetime * A)) p :
  In p (group k rows) <-> In (Some k, p) rows.
Proof.
  unfold group. rewrite in_map_iff. split.
  - intros ([ym q] & <- & Hin). apply filter_In in Hin as [Hin Hk].
    cbn [fst snd] in *. destruct ym as [k'|]; [|discriminate].
    now apply dt_eqb_eq in Hk as ->.
  - intros Hin. exists (Some k, p). split; [reflexivity|].
    apply filter_In. split; [exact Hin|]. cbn [fst]. apply dt_eqb_refl.
Qed.

(** *** Mean and maximum *)

Lemma mean_spec xs a :
  mean xs = Some a ->
  xs <> [] /\
  (a == fold_right Qplus 0 xs / inject_Z (Z.of_nat (length xs)))%Q.
Proof.
  destruct xs as [|x xs]; [discriminate|]. cbn [mean].
  intros [= <-]. split; [discriminate | apply Qred_correct].
Qed.

Lemma fold_Qmax_spec xs x :
  In (fold_left Qmax xs x) (x :: xs) /\
  forall y, In y (x :: xs) -> (y <= fold_left Qmax xs x)%Q.
Proof.
  revert x. induction xs as [|z xs IH]; intros x; cbn [fold_left].
  - split; [now left|]. intros y [<-|[]]. apply Qle_refl.
  - destruct (IH (Qmax x z)) as [Hin Hle]. split.
    + destruct Hin as [Hin|Hin]; [|right; now right].
      rewrite <- Hin.
      destruct (Q.max_spec x z) as [[_ Hm]|[_ Hm]].
      * unfold Qmax, GenericMinMax.gmax in *.
        destruct (x ?= z)%Q; [now left | right; now left | now left].
      * unfold Qmax, GenericMinMax.gmax in *.
        destruct (x ?= z)%Q; [now left | right; now left | now left].
    + intros y [<-|[<-|Hy]].
      * eapply Qle_trans; [apply Q.le_max_l | apply Hle; now left].
      * eapply Qle_trans; [apply Q.le_max_r | apply Hle; now left].
      * apply Hle. now right.
Qed.

Lemma maximum_spec xs m :
  maximum xs = Some m ->
  In m xs /\ forall y, In y xs -> (y <= m)%Q.
Proof.
  destruct xs as [|x xs]; [discriminate|]. cbn [maximum].
  intros [= <-]. apply fold_Qmax_spec.
Qed.

(** *** The latest month and the matching rows of a frame *)

Definition dt_le (a b : datetime) : Prop := dt_compare a b <> Gt.

Lemma dt_le_refl a : dt_le a a.
Proof. unfold dt_le. now rewrite dt_compare_refl. Qed.

Lemma dt_le_trans a b c : dt_le a b -> dt_le b c -> dt_le a c.
Proof.
  unfold dt_le. intros Hab Hbc.
  destruct (dt_compare a b) eqn:Eab; [| |contradiction].
  - now apply dt_compare_eq in Eab as ->.
  - destruct (dt_compare b c) eqn:Ebc; [| |contradiction].
    + apply dt_compare_eq in Ebc as <-. now rewrite Eab.
    + now rewrite (dt_compare_trans a b c).
Qed.

Lemma dt_ltb_le a b : dt_ltb a b = true -> dt_le a b.
Proof. unfold dt_ltb, dt_le. now destruct (dt_compare a b). Qed.

Lemma dt_not_ltb_le a b : dt_ltb a b = false -> dt_le b a.
Proof.
  unfold dt_ltb, dt_le. rewrite (dt_compare_antisym a b).
  now destruct (dt_compare a b).
Qed.

Lemma fold_dt_max_spec ks k :
  let m := fold_left (fun acc k' => if dt_ltb acc k' then k' else acc) ks k in
  In m (k :: ks) /\ forall x, In x (k :: ks) -> dt_le x m.
Proof.
  revert k. induction ks as [|z ks IH]; intros k; cbn [fold_left].
  - split; [now left|]. intros x [<-|[]]. apply dt_le_refl.
  - destruct (dt_ltb k z) eqn:Hkz.
    + destruct (IH z) as [Hin Hle]. split; [now right|].
      intros x [<-|Hx]; [|now apply Hle].
      apply dt_le_trans with z; [now apply dt_ltb_le | apply Hle; now left].
    + destruct (IH k) as [Hin Hle]. split.
      * destruct Hin as [<-|Hin]; [now left | right; now right].
      * intros x [<-|[<-|Hx]].
        -- apply Hle. now left.
        -- apply dt_le_trans with k;
             [now apply dt_not_ltb_le | apply Hle; now left].
        -- apply Hle. now right.
Qed.

Lemma present_In {A} (cells : list (option A)) x :
  In x (present cells) <-> In (Some x) cells.
Proof.
  unfold present. rewrite <- !list_elem_of_In, list_elem_of_omap. split.
  - intros (c & Hc & Hx). cbn in Hx. now subst c.
  - intros Hc. now exists (Some x).
Qed.

Lemma ym_max_spec df latest :
  ym_max df = Some latest ->
  In (Some latest) (map sr_ym df) /\
  forall k, In (Some k) (map sr_ym df) -> dt_le k latest.
Proof.
  unfold ym_max.
  destruct (present (map sr_ym df)) as [|k ks] eqn:Hp; [discriminate|].
  intros [= <-]. destruct (fold_dt_max_spec ks k) as [Hin Hle]. split.
  - apply present_In. now rewrite Hp.
  - intros x Hx. apply Hle. rewrite <- Hp. now apply present_In.
Qed.

Lemma ym_max_None df :
  ym_max df = None <-> present (map sr_ym df) = [].
Proof. unfold ym_max. destruct (present (map sr_ym df)); split; easy. Qed.

Lemma ym_isna_all_present df :
  ym_isna_all df = true <-> present (map sr_ym df) = [].
Proof.
  unfold ym_isna_all, present.
  induction df as [|r df IH]; cbn [forallb map omap]; [easy|].
  destruct (sr_ym r); cbn [id]; [split; discriminate|].
  rewrite andb_true_l. exact IH.
Qed.

Lemma matching_nil df row_date :
  (forall r, In r df -> sr_ym r <> Some row_date) ->
  matching df row_date = [].
Proof.
  intros Hmiss. unfold matching.
  induction df as [|r df IH]; [reflexivity|]. cbn [List.filter].
  destruct (sr_ym r) as [k|] eqn:Hk.
  - destruct (dt_eqb k row_date) eqn:He.
    + apply dt_eqb_eq in He as ->. exfalso.
      apply (Hmiss r); [now left | exact Hk].
    + apply IH. intros r' Hr'. apply Hmiss. now right.
  - apply IH. intros r' Hr'. apply Hmiss. now right.
Qed.

(** In a frame without repeated months the matching rows of a month are
    the row of that month. *)
Lemma matching_unique df row_date r :
  List.NoDup (map sr_ym df) -> In r df -> sr_ym r = Some row_date ->
  matching df row_date = [r].
Proof.
  unfold matching. induction df as [|r0 df IH]; intros Hnd Hin Hr; [destruct Hin|].
  cbn [map] in Hnd. apply NoDup_cons_iff in Hnd as [Hfresh Hnd].
  cbn [List.filter]. destruct Hin as [->|Hin].
  - rewrite Hr, dt_eqb_refl. f_equal.
    apply (matching_nil df row_date). intros r' Hr' Heq.
    apply Hfresh. rewrite Hr, <- Heq. now apply in_map.
  - destruct (sr_ym r0) as [k|] eqn:Hk; [|now apply IH].
    destruct (dt_eqb k row_date) eqn:He; [|now apply IH].
    apply dt_eqb_eq in He as ->. exfalso. apply Hfresh.
    rewrite <- Hr. now apply in_map.
Qed.

Lemma py_range_m4_5 : py_range (-4) 5 = [-4; -3; -2; -1; 0; 1; 2; 3; 4]%Z.
Proof. reflexivity. Qed.

Lemma fold_left_app_flat_map {A B} (f : A -> list B) (l : list A) (acc : list B) :
  fold_left (fun rows a => (rows ++ f a)%list) l acc
  = (acc ++ flat_map f l)%list.
Proof.
  revert acc. induction l as [|a l IH]; intros acc; cbn [fold_left flat_map].
  - now rewrite app_nil_r.
  - now rewrite IH, app_assoc.
Qed.

Section PanelBuilder.

(** Library calls and fetchers.  Each fetcher is a function of the appid:
    within one run a game is fetched with one result. *)

(** [pd.to_datetime(column, errors='coerce')], on the whole column. *)
Variable to_datetime : list string -> list (option datetime).

(** [datetime.fromisoformat] and
    [datetime.strptime(_, '%Y-%m-%d %H:%M:%S')]; [None] when they raise. *)
Variable fromisoformat : string -> option datetime.
Variable strptime_ymd_hms : string -> option datetime.

(** [scraper.steamcharts_scraper.fetch_monthly_series] *)
Variable fetch_monthly_series : Z -> list raw_point.

(** Opaque JSON values; the store and SteamDB results with the accessors
    [build_panel] uses.  A fetch that raises, or returns nothing, is [None]. *)
Variable Json : Type.
Variable StoreData : Type.
Variable store_fetch_app : Z -> option StoreData.
Variable store_name : StoreData -> option Json.
Variable store_metacritic : StoreData -> option Json.
Variable SteamDBData : Type.
Variable steamdb_fetch_app : Z -> option SteamDBData.
Variable owners_from_steamdb : option SteamDBData -> option Q.

(** The extractor's environment. *)
Variable utcfromtimestamp : Z -> option datetime.
Variable request_news : Z -> option (list news_item).
Variable one_year_ago : datetime.

(** [str(appid)] *)
Definition str_of_int (n : Z) : string := pretty n.

(** [extract_last_major_date] *)
Definition extract_last_major_date
    (patch_summary : gmap pykey game_summary) (appid : Z) : option datetime :=
  let s :=
    match patch_summary !! (inr (str_of_int appid) : pykey) with
    | Some s => Some s
    | None => patch_summary !! (inl appid : pykey)
    end in
  match s with
  | None => None
  | Some s =>
      match first_major_patch_date s with
      | None => None
      | Some date_str =>
          if String.eqb date_str "" then None
          else
            match fromisoformat date_str with
            | Some d => Some d
            | None =>
                match strptime_ymd_hms date_str with
                | Some d => Some d
                | None => None
                end
            end
      end
  end.

(** The series frame with its [date] column parsed and its [ym] column
    added: each raw point beside the first of its month. *)
Definition with_ym (series : list raw_point)
  : list (option datetime * raw_point) :=
  combine (map (fmap first_of_month) (to_datetime (map rp_date series)))
          series.

(** The "Fetch monthly series" block of [build_panel], on the path where
    the pandas calls return: an empty series gives the empty frame, any
    other is grouped by [ym] (keys sorted, NaT dropped) with the mean of
    [avg] and the maximum of [peak]. *)
Definition normalize_series (series : list raw_point) : list series_row :=
  match series with
  | [] => []
  | _ :: _ =>
      let rows := with_ym series in
      map (fun k =>
             mk_series_row (Some k)
               (mean (present (map rp_avg (group k rows))))
               (maximum (present (map rp_peak (group k rows)))))
          (group_keys rows)
  end.

(** The spec's reading of the normalizer.  The raw points beside their
    parsed dates, and the bucket of a month: the raw points whose own date
    falls in that month, in the order of the series. *)
Definition dated (series : list raw_point)
  : list (option datetime * raw_point) :=
  combine (to_datetime (map rp_date series)) series.

Definition bucket (series : list raw_point) (k : datetime) : list raw_point :=
  map snd (List.filter (fun dp => match fst dp with
                                  | Some d => dt_eqb (first_of_month d) k
                                  | None => false
                                  end) (dated series)).

(** One row of the panel. *)
Record panel_row := mk_panel_row {
  row_appid : Z;
  row_name : option Json;
  row_event_date : option string;
  row_rel_month : Z;
  row_month : option string;
  row_avg_players : option Q;
  row_peak_players : option Q;
  row_owners_estimate : option Q;
  row_metacritic_score : option Json;
  row_treatment : Z
}.

(** The locals of one round of [for appid in appids] when the loop over
    [rel] starts. *)
Record game_locals := mk_game_locals {
  gl_appid : Z;
  gl_store_data : option StoreData;
  gl_owners_est : option Q;
  gl_metacritic : option Json;
  gl_treatment : Z;
  gl_event_month : option datetime;
  gl_df_series : list series_row
}.

Definition game_locals_of (patch_summary : gmap pykey game_summary)
    (appid : Z) : game_locals :=
  let store_data := store_fetch_app appid in
  let sdb := steamdb_fetch_app appid in
  let owners_est := owners_from_steamdb sdb in
  let metacritic :=
    match store_data with
    | Some sd => store_metacritic sd
    | None => None
    end in
  let last_major := extract_last_major_date patch_summary appid in
  let '(treatment, event_dt) :=
    match last_major with
    | None => (0%Z, None)
    | Some d => (1%Z, Some d)
    end in
  let df_series := normalize_series (fetch_monthly_series appid) in
  let event_month := fmap first_of_month event_dt in
  mk_game_locals appid store_data owners_est metacritic treatment
                 event_month df_series.

(** [avg] and [peak] of the first matching row, null when none matches. *)
Definition first_match (matched : list series_row) : option Q * option Q :=
  match matched with
  | r :: _ => (sr_avg r, sr_peak r)
  | [] => (None, None)
  end.

(** The body of [for rel in range(-4, 5)]: the row appended to [rows].
    The frame always has its [ym] column, so in the control branch the
    fallback on the [date] column is never taken: past the test for an
    empty or all-NaT frame, [ym_max] is a month. *)
Definition panel_row_of (g : game_locals) (rel : Z) : panel_row :=
  let df_series := gl_df_series g in
  let '(row_date, avg_peak, event_date_str) :=
    match gl_event_month g with
    | None =>
        if match df_series with [] => true | _ => false end
           || ym_isna_all df_series
        then (None, (None, None), None)
        else
          match ym_max df_series with
          | Some latest =>
              let row_date := add_months latest rel in
              (Some row_date, first_match (matching df_series row_date), None)
          | None => (None, (None, None), None)
          end
    | Some event_month =>
        let row_date := add_months event_month rel in
        (Some row_date, first_match (matching df_series row_date),
         Some (strftime_ymd event_month))
    end in
  mk_panel_row (gl_appid g)
               (match gl_store_data g with
                | Some sd => store_name sd
                | None => None
                end)
               event_date_str rel (fmap strftime_ym row_date)
               (fst avg_peak) (snd avg_peak)
               (gl_owners_est g) (gl_metacritic g) (gl_treatment g).

(** The rows one game adds. *)
Definition game_rows (patch_summary : gmap pykey game_summary) (appid : Z)
  : list panel_row :=
  map (panel_row_of (game_locals_of patch_summary appid)) (py_range (-4) 5).

(** [build_panel]: the patch summary is extracted first, then every game
    appends its rows. *)
Definition build_panel (appids : list Z) : list panel_row :=
  let patch_out :=
    extract_patches_for_games utcfromtimestamp request_news one_year_ago
                              appids in
  let patch_summary := summary patch_out in
  fold_left (fun rows appid => (rows ++ game_rows patch_summary appid)%list)
            appids [].

(** *** The normalized series *)

Lemma first_of_month_idem d : first_of_month (first_of_month d) = first_of_month d.
Proof. reflexivity. Qed.

Lemma with_ym_key series k p :
  In (Some k, p) (with_ym series) -> first_of_month k = k /\ In p series.
Proof.
  unfold with_ym. intros Hin. split; [|now apply in_combine_r in Hin].
  apply in_combine_l, in_map_iff in Hin as ([d|] & Hd & _); [|discriminate].
  injection Hd as <-. apply first_of_month_idem.
Qed.

Lemma with_ym_snd series :
  length (to_datetime (map rp_date series)) = length series ->
  map snd (with_ym series) = series.
Proof.
  unfold with_ym. intros Hlen.
  assert (length (map (fmap first_of_month) (to_datetime (map rp_date series)))
          = length series) as Hlen' by now rewrite length_map.
  revert Hlen'. generalize (map (fmap first_of_month)
                                (to_datetime (map rp_date series))).
  clear Hlen. induction series as [|p series IH]; intros [|c cells] Hl;
    try discriminate; [reflexivity|].
  cbn [combine map snd]. f_equal. apply IH. now injection Hl.
Qed.

Lemma normalize_series_eq series :
  normalize_series series =
  map (fun k =>
         mk_series_row (Some k)
           (mean (present (map rp_avg (group k (with_ym series)))))
           (maximum (present (map rp_peak (group k (with_ym series))))))
      (group_keys (with_ym series)).
Proof.
  destruct series as [|p series]; [|reflexivity].
  unfold with_ym. cbn [map]. now destruct (map _ (to_datetime [])).
Qed.

Lemma normalize_series_ym series :
  map sr_ym (normalize_series series) = map Some (group_keys (with_ym series)).
Proof. rewrite normalize_series_eq, map_map. reflexivity. Qed.

Lemma normalize_series_In series r :
  In r (normalize_series series) <->
  exists k, In k (group_keys (with_ym series)) /\
    r = mk_series_row (Some k)
          (mean (present (map rp_avg (group k (with_ym series)))))
          (maximum (present (map rp_peak (group k (with_ym series))))).
Proof.
  rewrite normalize_series_eq, in_map_iff. split.
  - intros (k & <- & Hk). now exists k.
  - intros (k & Hk & ->). now exists k.
Qed.

Lemma Some_inj_NoDup {A} (l : list A) : List.NoDup l -> List.NoDup (map Some l).
Proof.
  induction 1 as [|x l Hx Hl IH]; cbn [map]; constructor; [|exact IH].
  rewrite in_map_iff. intros (y & [= ->] & Hy). contradiction.
Qed.

(** *** The buckets of the normalizer *)

Lemma combine_map_l {A B C} (f : A -> C) (l : list A) (l' : list B) :
  combine (map f l) l' = map (fun ab => (f (fst ab), snd ab)) (combine l l').
Proof.
  revert l'. induction l as [|a l IH]; intros [|b l']; cbn [map combine];
    try reflexivity.
  cbn [fst snd]. now rewrite IH.
Qed.

Lemma with_ym_dated series :
  with_ym series
  = map (fun dp => (fmap first_of_month (fst dp), snd dp)) (dated series).
Proof. unfold with_ym, dated. apply combine_map_l. Qed.

(** The group of a month in the frame is the bucket of that month: the
    points whose own date falls in it. *)
Lemma group_bucket series k : group k (with_ym series) = bucket series k.
Proof.
  rewrite with_ym_dated. unfold group, bucket.
  induction (dated series) as [|[[d|] p] l IH]; cbn [map List.filter fst snd];
    [reflexivity| |exact IH].
  cbn [fmap option_fmap option_map].
  destruct (dt_eqb (first_of_month d) k); cbn [map snd]; now rewrite IH.
Qed.

Lemma bucket_In series k p :
  In p (bucket series k) <->
  exists d, In (Some d, p) (dated series) /\ first_of_month d = k.
Proof.
  unfold bucket. rewrite in_map_iff. split.
  - intros ([[d|] q] & Hq & Hin); cbn [snd] in Hq; subst q;
      apply filter_In in Hin as [Hin Hk]; cbn [fst] in Hk; [|discriminate].
    exists d. split; [exact Hin | now apply dt_eqb_eq].
  - intros (d & Hin & Hk). exists (Some d, p). split; [reflexivity|].
    apply filter_In. split; [exact Hin|]. cbn [fst]. now apply dt_eqb_eq.
Qed.

Lemma with_ym_In series k p :
  In (Some k, p) (with_ym series) <->
  exists d, In (Some d, p) (dated series) /\ first_of_month d = k.
Proof.
  rewrite with_ym_dated, in_map_iff. split.
  - intros ([[d|] q] & Heq & Hin); cbn [fst snd fmap option_fmap option_map]
      in Heq; [|discriminate].
    injection Heq as <- <-. now exists d.
  - intros (d & Hin & <-). now exists (Some d, p).
Qed.

(** C6: the normalizer buckets the raw points by the first of the month of
    their own date: a point is in the bucket of a month exactly when its
    date parses to a day of that month, every dated point has the row of
    its month in the output, and the output has one row per non-empty
    bucket, the months strictly increasing (so no month twice, and in
    chronological order); the row of a month carries the arithmetic mean of
    the raw averages of its bucket and the greatest of the bucket's peaks
    (nulls skipped); the two points of January 2024 of the example merge
    into the single row (2024-01-01, 15, 20), and the empty series
    normalizes to the empty frame. *)
Theorem normalize_series_one_row_per_month :
  (forall series : list raw_point,
     let out := normalize_series series in
     (exists months,
        map sr_ym out = map Some months /\ StronglySorted dt_lt months)
     /\ List.NoDup (map sr_ym out)
     /\ ((forall col, length (to_datetime col) = length col) ->
         map snd (dated series) = series /\
         map fst (dated series) = to_datetime (map rp_date series))
     /\ (forall k p,
           In p (bucket series k) <->
           exists d, In (Some d, p) (dated series) /\ first_of_month d = k)
     /\ (forall d p, In (Some d, p) (dated series) ->
           In p (bucket series (first_of_month d)) /\
           exists r, In r out /\ sr_ym r = Some (first_of_month d))
     /\ (forall r, In r out ->
           exists k,
             sr_ym r = Some k /\ first_of_month k = k /\
             (exists p, In p (bucket series k)) /\
             match sr_avg r with
             | Some a =>
                 let avgs := present (map rp_avg (bucket series k)) in
                 avgs <> [] /\
                 (a == fold_right Qplus 0 avgs
                       / inject_Z (Z.of_nat (length avgs)))%Q
             | None => present (map rp_avg (bucket series k)) = []
             end /\
             match sr_peak r with
             | Some m =>
                 let peaks := present (map rp_peak (bucket series k)) in
                 In m peaks /\ forall y, In y peaks -> (y <= m)%Q
             | None => present (map rp_peak (bucket series k)) = []
             end))
  /\ normalize_series [] = []
  /\ (to_datetime ["2024-01-05"; "2024-01-20"]
      = [Some (mk_datetime 2024 1 5 0 0 0 0);
         Some (mk_datetime 2024 1 20 0 0 0 0)] ->
      normalize_series
        [mk_raw_point "2024-01-05" (Some 10%Q) (Some 20%Q);
         mk_raw_point "2024-01-20" (Some 20%Q) (Some 15%Q)]
      = [mk_series_row (Some (mk_datetime 2024 1 1 0 0 0 0))
                       (Some 15%Q) (Some 20%Q)]).
Proof.
  split; [|split; [reflexivity|]].
  - intros series out. subst out.
    split; [|split; [|split; [|split; [|split]]]].
    + exists (group_keys (with_ym series)).
      split; [apply normalize_series_ym | apply group_keys_sorted].
    + rewrite normalize_series_ym.
      apply Some_inj_NoDup, sorted_lt_NoDup, group_keys_sorted.
    + intros Hlen. unfold dated.
      assert (length (to_datetime (map rp_date series)) = length series)
        as Hl by now rewrite Hlen, length_map.
      revert Hl. generalize (to_datetime (map rp_date series)).
      induction series as [|p series IH]; intros [|c cells] Hl;
        try discriminate; [now split|].
      cbn [combine map fst snd]. destruct (IH cells) as [-> ->];
        [now injection Hl | now split].
    + intros k p. apply bucket_In.
    + intros d p Hin. split; [apply bucket_In; now exists d|].
      assert (In (first_of_month d) (group_keys (with_ym series))) as Hk
        by (apply group_keys_In; exists p; apply with_ym_In; now exists d).
      eexists. split; [apply normalize_series_In; eexists; split;
                         [exact Hk | reflexivity] | reflexivity].
    + intros r Hr. apply normalize_series_In in Hr as (k & Hk & ->).
      exists k. cbn [sr_ym sr_avg sr_peak]. rewrite group_bucket.
      apply group_keys_In in Hk as [p Hp].
      split; [reflexivity|].
      split; [now apply (with_ym_key series k p)|].
      split; [exists p; apply bucket_In; now apply with_ym_In|].
      split.
      * destruct (mean _) as [a|] eqn:Hmean.
        -- now apply mean_spec.
        -- now destruct (present (map rp_avg (bucket series k))).
      * destruct (maximum _) as [m|] eqn:Hmax.
        -- now apply maximum_spec.
        -- now destruct (present (map rp_peak (bucket series k))).
  - intros Hparse. rewrite normalize_series_eq. unfold with_ym.
    cbn [map rp_date]. rewrite Hparse. reflexivity.
Qed.

(** *** The event date of a game *)

(** The summary [extract_last_major_date] reads: under the key
    [str(appid)], else under [appid]. *)
Definition summary_of (patch_summary : gmap pykey game_summary) (appid : Z)
  : option game_summary :=
  match patch_summary !! (inr (str_of_int appid) : pykey) with
  | Some s => Some s
  | None => patch_summary !! (inl appid : pykey)
  end.

(** The date a date text denotes for [extract_last_major_date]: ISO first,
    then ['%Y-%m-%d %H:%M:%S']. *)
Definition parse_event_date (date_str : string) : option datetime :=
  match fromisoformat date_str with
  | Some d => Some d
  | None => strptime_ymd_hms date_str
  end.

Lemma extract_last_major_date_eq patch_summary appid :
  extract_last_major_date patch_summary appid =
  match summary_of patch_summary appid with
  | None => None
  | Some s =>
      match first_major_patch_date s with
      | None => None
      | Some date_str =>
          if String.eqb date_str "" then None else parse_event_date date_str
      end
  end.
Proof.
  unfold extract_last_major_date, summary_of, parse_event_date. cbv zeta.
  destruct (match patch_summary !! _ with Some s => Some s | None => _ end)
    as [s|]; [|reflexivity].
  destruct (first_major_patch_date s) as [date_str|]; [|reflexivity].
  destruct (String.eqb date_str ""); [reflexivity|].
  destruct (fromisoformat date_str); [reflexivity|].
  now destruct (strptime_ymd_hms date_str).
Qed.

Lemma extract_last_major_date_parsed patch_summary appid s date_str dt :
  summary_of patch_summary appid = Some s ->
  first_major_patch_date s = Some date_str ->
  date_str <> "" ->
  parse_event_date date_str = Some dt ->
  extract_last_major_date patch_summary appid = Some dt.
Proof.
  intros Hs Hd Hne Hp. rewrite extract_last_major_date_eq, Hs, Hd.
  destruct (String.eqb_spec date_str ""); [contradiction | exact Hp].
Qed.

Lemma extract_last_major_date_unparsed patch_summary appid s date_str :
  summary_of patch_summary appid = Some s ->
  first_major_patch_date s = Some date_str ->
  fromisoformat date_str = None ->
  strptime_ymd_hms date_str = None ->
  extract_last_major_date patch_summary appid = None.
Proof.
  intros Hs Hd Hiso Hstrp. rewrite extract_last_major_date_eq, Hs, Hd.
  destruct (String.eqb date_str ""); [reflexivity|].
  unfold parse_event_date. now rewrite Hiso.
Qed.

Lemma extract_last_major_date_no_date patch_summary appid :
  (summary_of patch_summary appid = None \/
   exists s, summary_of patch_summary appid = Some s /\
             first_major_patch_date s = None) ->
  extract_last_major_date patch_summary appid = None.
Proof.
  rewrite extract_last_major_date_eq.
  intros [-> | (s & -> & ->)]; reflexivity.
Qed.

(** *** The locals of a game *)

Lemma game_locals_treated patch_summary appid dt :
  extract_last_major_date patch_summary appid = Some dt ->
  gl_treatment (game_locals_of patch_summary appid) = 1%Z /\
  gl_event_month (game_locals_of patch_summary appid)
  = Some (first_of_month dt).
Proof. intros H. unfold game_locals_of. cbv zeta. now rewrite H. Qed.

Lemma game_locals_control patch_summary appid :
  extract_last_major_date patch_summary appid = None ->
  gl_treatment (game_locals_of patch_summary appid) = 0%Z /\
  gl_event_month (game_locals_of patch_summary appid) = None.
Proof. intros H. unfold game_locals_of. cbv zeta. now rewrite H. Qed.

Lemma game_locals_df_series patch_summary appid :
  gl_df_series (game_locals_of patch_summary appid)
  = normalize_series (fetch_monthly_series appid).
Proof.
  unfold game_locals_of. cbv zeta.
  now destruct (extract_last_major_date patch_summary appid).
Qed.

Lemma game_locals_appid patch_summary appid :
  gl_appid (game_locals_of patch_summary appid) = appid.
Proof.
  unfold game_locals_of. cbv zeta.
  now destruct (extract_last_major_date patch_summary appid).
Qed.

(** Treatment is 1 exactly when an event month exists. *)
Lemma game_locals_treatment patch_summary appid :
  (gl_treatment (game_locals_of patch_summary appid) = 1%Z /\
   exists em, gl_event_month (game_locals_of patch_summary appid) = Some em)
  \/ (gl_treatment (game_locals_of patch_summary appid) = 0%Z /\
      gl_event_month (game_locals_of patch_summary appid) = None).
Proof.
  destruct (extract_last_major_date patch_summary appid) as [dt|] eqn:H.
  - left. destruct (game_locals_treated _ _ _ H) as [-> ->]. eauto.
  - right. now apply game_locals_control.
Qed.

(** *** The rows of a game *)

(** The anchor month of a game: the event month of a treated game, the
    latest month of its own frame for a control game, none when that frame
    holds no month. *)
Definition anchor (g : game_locals) : option datetime :=
  match gl_event_month g with
  | Some event_month => Some event_month
  | None => ym_max (gl_df_series g)
  end.

Lemma panel_row_of_anchor g rel :
  panel_row_of g rel =
  mk_panel_row (gl_appid g)
    (match gl_store_data g with Some sd => store_name sd | None => None end)
    (fmap strftime_ymd (gl_event_month g))
    rel
    (fmap (fun a => strftime_ym (add_months a rel)) (anchor g))
    (match anchor g with
     | Some a => fst (first_match (matching (gl_df_series g) (add_months a rel)))
     | None => None
     end)
    (match anchor g with
     | Some a => snd (first_match (matching (gl_df_series g) (add_months a rel)))
     | None => None
     end)
    (gl_owners_est g) (gl_metacritic g) (gl_treatment g).
Proof.
  unfold panel_row_of, anchor. cbv zeta.
  destruct (gl_event_month g) as [em|]; [reflexivity|].
  destruct (gl_df_series g) as [|r df] eqn:Hdf; [reflexivity|].
  cbn [orb]. destruct (ym_isna_all (r :: df)) eqn:Hna.
  - apply ym_isna_all_present, ym_max_None in Hna. now rewrite Hna.
  - now destruct (ym_max (r :: df)).
Qed.

Lemma panel_row_of_rel g rel : row_rel_month (panel_row_of g rel) = rel.
Proof. now rewrite panel_row_of_anchor. Qed.

Lemma panel_row_of_appid g rel : row_appid (panel_row_of g rel) = gl_appid g.
Proof. now rewrite panel_row_of_anchor. Qed.

Lemma panel_row_of_treatment g rel :
  row_treatment (panel_row_of g rel) = gl_treatment g.
Proof. now rewrite panel_row_of_anchor. Qed.

Lemma panel_row_of_event_date g rel :
  row_event_date (panel_row_of g rel) = fmap strftime_ymd (gl_event_month g).
Proof. now rewrite panel_row_of_anchor. Qed.

Lemma panel_row_of_month g rel :
  row_month (panel_row_of g rel)
  = fmap (fun a => strftime_ym (add_months a rel)) (anchor g).
Proof. now rewrite panel_row_of_anchor. Qed.

Lemma panel_row_of_no_anchor g rel :
  anchor g = None ->
  row_month (panel_row_of g rel) = None /\
  row_avg_players (panel_row_of g rel) = None /\
  row_peak_players (panel_row_of g rel) = None.
Proof. intros H. rewrite panel_row_of_anchor, H. now cbn. Qed.

Lemma panel_row_of_missing g rel a :
  anchor g = Some a ->
  (forall r, In r (gl_df_series g) -> sr_ym r <> Some (add_months a rel)) ->
  row_avg_players (panel_row_of g rel) = None /\
  row_peak_players (panel_row_of g rel) = None.
Proof.
  intros Ha Hmiss. rewrite panel_row_of_anchor, Ha.
  cbn [row_avg_players row_peak_players].
  now rewrite (matching_nil _ _ Hmiss).
Qed.

Lemma panel_row_of_found g rel a r :
  anchor g = Some a ->
  List.NoDup (map sr_ym (gl_df_series g)) ->
  In r (gl_df_series g) -> sr_ym r = Some (add_months a rel) ->
  row_avg_players (panel_row_of g rel) = sr_avg r /\
  row_peak_players (panel_row_of g rel) = sr_peak r.
Proof.
  intros Ha Hnd Hin Hr. rewrite panel_row_of_anchor, Ha.
  cbn [row_avg_players row_peak_players].
  now rewrite (matching_unique _ _ r Hnd Hin Hr).
Qed.

Lemma game_rows_eq patch_summary appid :
  game_rows patch_summary appid =
  map (panel_row_of (game_locals_of patch_summary appid))
      [-4; -3; -2; -1; 0; 1; 2; 3; 4]%Z.
Proof. unfold game_rows. now rewrite py_range_m4_5. Qed.

Lemma game_rows_In patch_summary appid row :
  In row (game_rows patch_summary appid) ->
  exists rel, (-4 <= rel <= 4)%Z /\
    row = panel_row_of (game_locals_of patch_summary appid) rel.
Proof.
  rewrite game_rows_eq, in_map_iff. intros (rel & <- & Hrel).
  exists rel. split; [|reflexivity]. cbn in Hrel. lia.
Qed.

Lemma build_panel_flat_map appids :
  build_panel appids =
  flat_map (game_rows (summary (extract_patches_for_games
                         utcfromtimestamp request_news one_year_ago appids)))
           appids.
Proof. unfold build_panel. cbv zeta. now rewrite fold_left_app_flat_map. Qed.

(** The frame of a game holds no month twice, and none that is null. *)
Lemma game_locals_df_NoDup patch_summary appid :
  List.NoDup (map sr_ym (gl_df_series (game_locals_of patch_summary appid))).
Proof.
  rewrite game_locals_df_series, normalize_series_ym.
  apply Some_inj_NoDup, sorted_lt_NoDup, group_keys_sorted.
Qed.

Lemma normalize_series_no_month series :
  ym_max (normalize_series series) = None <-> normalize_series series = [].
Proof.
  rewrite ym_max_None. split.
  - intros Hp. destruct (normalize_series series) as [|r df] eqn:Hn;
      [reflexivity|].
    assert (In r (normalize_series series)) as Hr by (rewrite Hn; now left).
    apply normalize_series_In in Hr as (k & _ & Hrk).
    assert (In k (present (map sr_ym (r :: df)))) as Hin
      by (apply present_In; left; now rewrite Hrk).
    rewrite Hp in Hin. destruct Hin.
  - now intros ->.
Qed.

Lemma normalize_series_month_first series k :
  In (Some k) (map sr_ym (normalize_series series)) -> first_of_month k = k.
Proof.
  rewrite normalize_series_ym, in_map_iff. intros (k' & [= ->] & Hk).
  apply group_keys_In in Hk as [p Hp]. now apply (with_ym_key series k p).
Qed.

Lemma strftime_ym_first_of_month d :
  strftime_ym (first_of_month d) = strftime_ym d.
Proof. reflexivity. Qed.

Lemma game_rows_treatment patch_summary appid row :
  In row (game_rows patch_summary appid) ->
  row_treatment row = gl_treatment (game_locals_of patch_summary appid) /\
  row_event_date row
  = fmap strftime_ymd (gl_event_month (game_locals_of patch_summary appid)).
Proof.
  intros Hin. apply game_rows_In in Hin as (rel & _ & ->).
  now rewrite panel_row_of_treatment, panel_row_of_event_date.
Qed.

(** C3: a game whose summary carries a first major patch date (a date text
    that parses) is treated, and its anchor, the month of its row with
    [rel_month = 0], is the first of the month of that date; a game without
    such a date is a control, anchored at the latest month of its own
    normalized series; when that series is empty there is no anchor and the
    rows of the game carry null [month], [avg_players] and
    [peak_players]. *)
Theorem anchor_determination
    (patch_summary : gmap pykey game_summary) (appid : Z) :
  let g := game_locals_of patch_summary appid in
  let df := normalize_series (fetch_monthly_series appid) in
  (forall (s : game_summary) (date_str : string) (dt : datetime),
     summary_of patch_summary appid = Some s ->
     first_major_patch_date s = Some date_str ->
     date_str <> "" ->
     parse_event_date date_str = Some dt ->
     anchor g = Some (first_of_month dt) /\
     (forall row, In row (game_rows patch_summary appid) ->
        row_treatment row = 1%Z /\
        row_month row
        = Some (strftime_ym
                  (add_months (first_of_month dt) (row_rel_month row)))) /\
     ((1 <= month dt <= 12)%Z ->
      row_month (panel_row_of g 0) = Some (strftime_ym dt)))
  /\ ((summary_of patch_summary appid = None \/
       exists s, summary_of patch_summary appid = Some s /\
                 first_major_patch_date s = None) ->
      extract_last_major_date patch_summary appid = None)
  /\ (extract_last_major_date patch_summary appid = None ->
      (forall row, In row (game_rows patch_summary appid) ->
         row_treatment row = 0%Z) /\
      match df with
      | [] =>
          anchor g = None /\
          forall row, In row (game_rows patch_summary appid) ->
            row_month row = None /\
            row_avg_players row = None /\
            row_peak_players row = None
      | _ :: _ =>
          exists latest,
            anchor g = Some latest /\
            In (Some latest) (map sr_ym df) /\
            (forall k, In (Some k) (map sr_ym df) -> dt_le k latest) /\
            (forall row, In row (game_rows patch_summary appid) ->
               row_month row
               = Some (strftime_ym (add_months latest (row_rel_month row)))) /\
            ((1 <= month latest <= 12)%Z ->
             row_month (panel_row_of g 0) = Some (strftime_ym latest))
      end).
Proof.
  intros g df. subst g df. repeat apply conj.
  - intros s date_str dt Hs Hd Hne Hp.
    pose proof (extract_last_major_date_parsed _ _ _ _ _ Hs Hd Hne Hp) as Hdt.
    destruct (game_locals_treated _ _ _ Hdt) as [Htr Hem].
    assert (anchor (game_locals_of patch_summary appid)
            = Some (first_of_month dt)) as Ha
      by (unfold anchor; now rewrite Hem).
    repeat apply conj.
    + exact Ha.
    + intros row Hrow. apply game_rows_In in Hrow as (rel & _ & ->).
      now rewrite panel_row_of_treatment, panel_row_of_month,
        panel_row_of_rel, Ha.
    + intros Hm. rewrite panel_row_of_month, Ha. cbn [fmap option_fmap option_map].
      now rewrite add_months_0, strftime_ym_first_of_month.
  - apply extract_last_major_date_no_date.
  - intros Hnone. destruct (game_locals_control _ _ Hnone) as [Htr Hem].
    assert (anchor (game_locals_of patch_summary appid)
            = ym_max (normalize_series (fetch_monthly_series appid))) as Ha
      by (unfold anchor; now rewrite Hem, game_locals_df_series).
    split.
    + intros row Hrow. apply game_rows_In in Hrow as (rel & _ & ->).
      now rewrite panel_row_of_treatment.
    + destruct (normalize_series (fetch_monthly_series appid)) as [|r df]
        eqn:Hdf.
      * split; [now rewrite Ha|].
        intros row Hrow. apply game_rows_In in Hrow as (rel & _ & ->).
        apply panel_row_of_no_anchor. now rewrite Ha.
      * destruct (ym_max (r :: df)) as [latest|] eqn:Hmax.
        2:{ rewrite <- Hdf in Hmax. apply normalize_series_no_month in Hmax.
            congruence. }
        destruct (ym_max_spec _ _ Hmax) as [Hin Hle].
        exists latest. repeat apply conj; try assumption.
        -- intros row Hrow. apply game_rows_In in Hrow as (rel & _ & ->).
           now rewrite panel_row_of_month, panel_row_of_rel, Ha.
        -- intros Hm. rewrite panel_row_of_month, Ha.
           cbn [fmap option_fmap option_map].
           assert (first_of_month latest = latest) as Hfirst
             by (apply (normalize_series_month_first (fetch_monthly_series appid));
                 now rewrite Hdf).
           rewrite <- Hfirst at 1. now rewrite add_months_0, Hfirst.
Qed.

(** C10: when the summary of a game carries a first major patch date text
    that neither [fromisoformat] nor [strptime] with ['%Y-%m-%d %H:%M:%S']
    accepts, [extract_last_major_date] returns no date and every row of the
    game is a control row: [treatment = 0] and a null [event_date], whatever
    the summary says about major patches. *)
Theorem unparsable_date_is_control
    (patch_summary : gmap pykey game_summary) (appid : Z)
    (s : game_summary) (date_str : string) :
  summary_of patch_summary appid = Some s ->
  first_major_patch_date s = Some date_str ->
  fromisoformat date_str = None ->
  strptime_ymd_hms date_str = None ->
  extract_last_major_date patch_summary appid = None /\
  forall row, In row (game_rows patch_summary appid) ->
    row_treatment row = 0%Z /\ row_event_date row = None.
Proof.
  intros Hs Hd Hiso Hstrp.
  pose proof (extract_last_major_date_unparsed _ _ _ _ Hs Hd Hiso Hstrp)
    as Hnone.
  split; [exact Hnone|]. intros row Hrow.
  destruct (game_locals_control _ _ Hnone) as [Htr Hem].
  destruct (game_rows_treatment _ _ _ Hrow) as [-> ->].
  now rewrite Htr, Hem.
Qed.

Lemma flat_map_length_const {A B} (f : A -> list B) (l : list A) (n : nat) :
  (forall a, length (f a) = n) -> length (flat_map f l) = (n * length l)%nat.
Proof.
  intros Hf. induction l as [|a l IH]; cbn [flat_map length]; [lia|].
  rewrite length_app, Hf, IH. lia.
Qed.

Lemma map_flat_map {A B C} (h : B -> C) (f : A -> list B) (l : list A) :
  map h (flat_map f l) = flat_map (fun a => map h (f a)) l.
Proof.
  induction l as [|a l IH]; cbn [flat_map map]; [reflexivity|].
  now rewrite map_app, IH.
Qed.

Lemma game_rows_rel_months patch_summary appid :
  map row_rel_month (game_rows patch_summary appid)
  = [-4; -3; -2; -1; 0; 1; 2; 3; 4]%Z.
Proof.
  rewrite game_rows_eq. cbn [map]. now rewrite !panel_row_of_rel.
Qed.

Lemma game_rows_appids patch_summary appid :
  map row_appid (game_rows patch_summary appid) = repeat appid 9.
Proof.
  rewrite game_rows_eq. cbn [map repeat].
  now rewrite !panel_row_of_appid, game_locals_appid.
Qed.

(** C4: the panel is the rows of the games in input order; every game of the
    input list gives exactly nine rows, whose [rel_month] run through -4,
    -3, ..., 4 in this order; a row whose month is not in the frame of its
    game is still there, with null [avg_players] and [peak_players] (and a
    row whose month is in the frame carries the values of that month). *)
Theorem build_panel_nine_rows (appids : list Z) :
  let patch_summary :=
    summary (extract_patches_for_games utcfromtimestamp request_news
                                       one_year_ago appids) in
  build_panel appids = flat_map (game_rows patch_summary) appids
  /\ length (build_panel appids) = (9 * length appids)%nat
  /\ map row_appid (build_panel appids)
     = flat_map (fun appid => repeat appid 9) appids
  /\ map row_rel_month (build_panel appids)
     = flat_map (fun _ => [-4; -3; -2; -1; 0; 1; 2; 3; 4]%Z) appids
  /\ (forall appid : Z,
        game_rows patch_summary appid
        = map (panel_row_of (game_locals_of patch_summary appid))
              [-4; -3; -2; -1; 0; 1; 2; 3; 4]%Z)
  /\ (forall (appid rel : Z) (a : datetime),
        let g := game_locals_of patch_summary appid in
        anchor g = Some a ->
        row_rel_month (panel_row_of g rel) = rel /\
        row_month (panel_row_of g rel) = Some (strftime_ym (add_months a rel)) /\
        ((forall r, In r (gl_df_series g) ->
                    sr_ym r <> Some (add_months a rel)) ->
         row_avg_players (panel_row_of g rel) = None /\
         row_peak_players (panel_row_of g rel) = None) /\
        (forall r, In r (gl_df_series g) ->
                   sr_ym r = Some (add_months a rel) ->
         row_avg_players (panel_row_of g rel) = sr_avg r /\
         row_peak_players (panel_row_of g rel) = sr_peak r)).
Proof.
  intros patch_summary. subst patch_summary.
  rewrite build_panel_flat_map. repeat apply conj.
  - reflexivity.
  - apply flat_map_length_const. intros appid.
    now rewrite game_rows_eq, length_map.
  - rewrite map_flat_map. apply flat_map_ext. intros appid.
    apply game_rows_appids.
  - rewrite map_flat_map. apply flat_map_ext. intros appid.
    apply game_rows_rel_months.
  - intros appid. apply game_rows_eq.
  - intros appid rel a g Ha. subst g. repeat apply conj.
    + apply panel_row_of_rel.
    + now rewrite panel_row_of_month, Ha.
    + intros Hmiss. now apply (panel_row_of_missing _ rel a).
    + intros r Hin Hr. apply (panel_row_of_found _ rel a r); try assumption.
      apply game_locals_df_NoDup.
Qed.

(** C7: in every row of the panel [treatment] is 0 or 1, and it is 1 exactly
    when [event_date] is not null; the rows of one game all carry the same
    [treatment] and the same [event_date]. *)
Theorem treatment_iff_event_date (appids : list Z) :
  (forall row, In row (build_panel appids) ->
     (row_treatment row = 0%Z \/ row_treatment row = 1%Z) /\
     (row_treatment row = 1%Z <-> row_event_date row <> None) /\
     (row_treatment row = 0%Z <-> row_event_date row = None))
  /\ (forall (patch_summary : gmap pykey game_summary) (appid : Z) r1 r2,
        In r1 (game_rows patch_summary appid) ->
        In r2 (game_rows patch_summary appid) ->
        row_treatment r1 = row_treatment r2 /\
        row_event_date r1 = row_event_date r2).
Proof.
  split.
  - intros row Hrow. rewrite build_panel_flat_map in Hrow.
    apply in_flat_map in Hrow as (appid & _ & Hrow).
    destruct (game_rows_treatment _ _ _ Hrow) as [-> ->].
    destruct (game_locals_treatment
                (summary (extract_patches_for_games utcfromtimestamp
                            request_news one_year_ago appids)) appid)
      as [[-> [em ->]] | [-> ->]]; cbn [fmap option_fmap option_map].
    + split; [now right|]. split; split; intros; congruence.
    + split; [now left|]. split; split; intros; congruence.
  - intros patch_summary appid r1 r2 H1 H2.
    destruct (game_rows_treatment _ _ _ H1) as [-> ->].
    destruct (game_rows_treatment _ _ _ H2) as [-> ->]. now split.
Qed.

(** *** The panel on the extractor's own summary *)

(** The summary dict [build_panel] works on. *)
Definition extracted_summary (appids : list Z) : gmap pykey game_summary :=
  summary (extract_patches_for_games utcfromtimestamp request_news
                                     one_year_ago appids).

(** The patch records of one game. *)
Definition game_patches (appid : Z) : list patch_entry :=
  collect_patches utcfromtimestamp one_year_ago appid
                  (fetch_news_for_app request_news appid).

Lemma summary_of_extracted appids appid :
  In appid appids ->
  summary_of (extracted_summary appids) appid
  = Some (summarize (game_patches appid)).
Proof.
  intros Hin. unfold summary_of, extracted_summary, extract_patches_for_games.
  rewrite extract_summary_no_str_key. cbn [summary]. rewrite lookup_empty.
  now apply extract_summary_lookup.
Qed.

Lemma strftime_ymd_hms_nonempty d : strftime_ymd_hms d <> "".
Proof. unfold strftime_ymd_hms, pad4. rewrite append_cons. discriminate. Qed.

(** When the parsers read the texts the extractor writes, a game of the
    input list is treated exactly when it has a major patch record: the
    date text of its summary is then never refused. *)
Lemma treated_iff_major_record appids appid :
  In appid appids ->
  (forall item_date : datetime,
     parse_event_date (strftime_ymd_hms item_date) <> None) ->
  gl_treatment (game_locals_of (extracted_summary appids) appid) = 1%Z <->
  exists p, In p (game_patches appid) /\ pe_is_major p = true.
Proof.
  intros Hin Hparse.
  pose proof (summary_of_extracted appids appid Hin) as Hs.
  split.
  - intros Htr.
    destruct (extract_last_major_date (extracted_summary appids) appid)
      as [dt|] eqn:Hdt.
    + rewrite extract_last_major_date_eq, Hs in Hdt.
      destruct (first_major_patch_date (summarize (game_patches appid)))
        as [d|] eqn:Hd; [|discriminate].
      apply summarize_first_major_Some in Hd as [(p & Hp & Hmaj & _) _].
      now exists p.
    + apply game_locals_control in Hdt as [Hz _]. congruence.
  - intros (p & Hp & Hmaj).
    destruct (first_major_patch_date (summarize (game_patches appid)))
      as [d|] eqn:Hd.
    + pose proof Hd as Hd'.
      apply summarize_first_major_Some in Hd' as [(q & Hq & _ & Hqd) _].
      apply collect_patches_origin in Hq as (item & t & _ & _ & _ & Hdate & _).
      rewrite Hdate in Hqd. subst d.
      destruct (parse_event_date (strftime_ymd_hms t)) as [dt|] eqn:Hdt;
        [|now destruct (Hparse t)].
      apply (game_locals_treated _ _ dt).
      apply (extract_last_major_date_parsed _ _ _ _ _ Hs Hd);
        [apply strftime_ymd_hms_nonempty | exact Hdt].
    + pose proof (summarize_first_major_None _ Hd p Hp). congruence.
Qed.

End PanelBuilder.

(** *** A small run of the panel builder *)

(** A parser of the texts "YYYY-MM-DD" and "YYYY-MM-DD HH:MM:SS", standing
    in for the library parsers in the run. *)
Definition digit_of (c : ascii) : option Z :=
  let n := nat_of_ascii c in
  if (48 <=? n)%nat && (n <=? 57)%nat then Some (Z.of_nat (n - 48)) else None.

Fixpoint digits_value (s : string) (acc : Z) : option Z :=
  match s with
  | EmptyString => Some acc
  | String c s' =>
      match digit_of c with
      | Some d => digits_value s' (10 * acc + d)%Z
      | None => None
      end
  end.

Definition field (s : string) (start len : nat) : option Z :=
  let f := String.substring start len s in
  if (String.length f =? len)%nat then digits_value f 0%Z else None.

Definition sample_parse (s : string) : option datetime :=
  let n := String.length s in
  if negb ((n =? 10)%nat || (n =? 19)%nat) then None
  else if negb (String.eqb (String.substring 4 1 s) "-"
                && String.eqb (String.substring 7 1 s) "-") then None
  else
    match field s 0 4, field s 5 2, field s 8 2 with
    | Some y, Some m, Some d =>
        if (n =? 10)%nat then Some (mk_datetime y m d 0 0 0 0)
        else
          match field s 11 2, field s 14 2, field s 17 2 with
          | Some hh, Some mm, Some ss => Some (mk_datetime y m d hh mm ss 0)
          | _, _, _ => None
          end
    | _, _, _ => None
    end.

Definition sample_to_datetime (col : list string) : list (option datetime) :=
  map sample_parse col.

Definition sample_series (appid : Z) : list raw_point :=
  if (appid =? 570)%Z then
    [ mk_raw_point "2024-05-03" (Some 100%Q) (Some 200%Q);
      mk_raw_point "2024-07-01" (Some 50%Q) (Some 60%Q);
      mk_raw_point "2024-05-20" (Some 300%Q) (Some 150%Q) ]
  else if (appid =? 730)%Z then
    [ mk_raw_point "2024-01-05" (Some 10%Q) (Some 20%Q);
      mk_raw_point "2024-01-20" (Some 20%Q) (Some 15%Q);
      mk_raw_point "2023-11-11" (Some 7%Q) None ]
  else [].

(** A summary dict as it could be loaded: game 570 with a date the parsers
    read, game 440 with one they do not, game 730 without major patch. *)
Definition sample_patch_summary : gmap pykey game_summary :=
  <[(inl 570%Z : pykey) :=
      mk_game_summary 3 2 1 true (Some "2024-06-01 00:00:00")
                      (Some "2024-07-01 00:00:00")]>
  (<[(inl 440%Z : pykey) :=
      mk_game_summary 1 1 0 true (Some "1 June 2024") (Some "1 June 2024")]>
  (<[(inl 730%Z : pykey) := no_activity]> ∅)).

Definition sample_game_locals_of (patch_summary : gmap pykey game_summary)
    (appid : Z) : game_locals string unit :=
  game_locals_of sample_to_datetime sample_parse sample_parse sample_series
                 string unit (fun _ => None) (fun _ => None)
                 unit (fun _ => None) (fun _ => None) patch_summary appid.

Definition sample_panel_row_of (g : game_locals string unit) (rel : Z)
  : panel_row string :=
  panel_row_of string unit (fun _ => None) g rel.

Definition sample_game_rows (patch_summary : gmap pykey game_summary)
    (appid : Z) : list (panel_row string) :=
  game_rows sample_to_datetime sample_parse sample_parse sample_series
            string unit (fun _ => None) (fun _ => None) (fun _ => None)
            unit (fun _ => None) (fun _ => None) patch_summary appid.

Definition sample_build_panel (appids : list Z) : list (panel_row string) :=
  build_panel sample_to_datetime sample_parse sample_parse sample_series
              string unit (fun _ => None) (fun _ => None) (fun _ => None)
              unit (fun _ => None) (fun _ => None)
              sample_utcfromtimestamp sample_request_news sample_one_year_ago
              appids.

(** C6 on the run: the library parser reads the two dates of the example,
    and the two January points merge into one row.  The series of game 570
    holds two points of May 2024 and one of July: July has a row of its
    own, with the values of the July point alone, and the row of May
    carries the mean 200 of the two May averages. *)
Lemma normalize_series_one_row_per_month_witness :
  normalize_series sample_to_datetime
    [mk_raw_point "2024-01-05" (Some 10%Q) (Some 20%Q);
     mk_raw_point "2024-01-20" (Some 20%Q) (Some 15%Q)]
  = [mk_series_row (Some (mk_datetime 2024 1 1 0 0 0 0))
                   (Some 15%Q) (Some 20%Q)]
  /\ map snd (dated sample_to_datetime (sample_series 730))
     = sample_series 730
  /\ (exists r,
        In r (normalize_series sample_to_datetime (sample_series 570)) /\
        sr_ym r = Some (mk_datetime 2024 7 1 0 0 0 0))
  /\ (forall r,
        In r (normalize_series sample_to_datetime (sample_series 570)) ->
        (sr_ym r = Some (mk_datetime 2024 7 1 0 0 0 0) ->
         exists a, sr_avg r = Some a /\ (a == 50)%Q) /\
        (sr_ym r = Some (mk_datetime 2024 5 1 0 0 0 0) ->
         exists a, sr_avg r = Some a /\ (a == 200)%Q)).
Proof.
  destruct (normalize_series_one_row_per_month sample_to_datetime)
    as (Hseries & _ & Hexample).
  split; [|split; [|split]].
  - apply Hexample. reflexivity.
  - destruct (Hseries (sample_series 730)) as (_ & _ & Hsnd & _).
    apply Hsnd. intros col. apply length_map.
  - destruct (Hseries (sample_series 570)) as (_ & _ & _ & _ & Hpoint & _).
    destruct (Hpoint (mk_datetime 2024 7 1 0 0 0 0)
                     (mk_raw_point "2024-07-01" (Some 50%Q) (Some 60%Q)))
      as [_ Hrow]; [|exact Hrow].
    right; left; reflexivity.
  - intros r Hr.
    destruct (Hseries (sample_series 570)) as (_ & _ & _ & _ & _ & Hrows).
    destruct (Hrows r Hr) as (k & Hk & _ & _ & Havg & _).
    split; intros Hym; rewrite Hym in Hk; injection Hk as <-;
      (destruct (sr_avg r) as [a|];
       [ cbv zeta in Havg; destruct Havg as [_ Heq]; exists a;
         split; [reflexivity|];
         apply (Qeq_trans _ _ _ Heq); vm_compute; reflexivity
       | vm_compute in Havg; discriminate ]).
Defined.

(** C3 on the run: game 570, whose first major patch is dated 2024-06-01,
    is treated and anchored at 2024-06; game 730, without major patch, is a
    control anchored at 2024-01, the latest month of its series; game 999,
    unknown to the summary and without series, has no anchor. *)
Lemma anchor_determination_witness :
  (row_month string
     (sample_panel_row_of (sample_game_locals_of sample_patch_summary 570) 0)
   = Some "2024-06"
   /\ forall row, In row (sample_game_rows sample_patch_summary 570) ->
        row_treatment string row = 1%Z)
  /\ (row_month string
        (sample_panel_row_of (sample_game_locals_of sample_patch_summary 730) 0)
      = Some "2024-01"
      /\ forall row, In row (sample_game_rows sample_patch_summary 730) ->
           row_treatment string row = 0%Z)
  /\ (forall row, In row (sample_game_rows sample_patch_summary 999) ->
        row_month string row = None /\
        row_avg_players string row = None /\
        row_peak_players string row = None).
Proof.
  repeat apply conj.
  - pose proof (anchor_determination sample_to_datetime sample_parse
      sample_parse sample_series string unit (fun _ => None) (fun _ => None)
      (fun _ => None) unit (fun _ => None) (fun _ => None)
      sample_patch_summary 570%Z) as H.
    cbv zeta in H. destruct H as (Htreated & _ & _).
    destruct (Htreated
      (mk_game_summary 3 2 1 true (Some "2024-06-01 00:00:00")
                       (Some "2024-07-01 00:00:00"))
      "2024-06-01 00:00:00" (mk_datetime 2024 6 1 0 0 0 0)
      eq_refl eq_refl ltac:(discriminate) eq_refl) as (_ & _ & Hzero).
    apply Hzero. cbn. lia.
  - pose proof (anchor_determination sample_to_datetime sample_parse
      sample_parse sample_series string unit (fun _ => None) (fun _ => None)
      (fun _ => None) unit (fun _ => None) (fun _ => None)
      sample_patch_summary 570%Z) as H.
    cbv zeta in H. destruct H as (Htreated & _ & _).
    destruct (Htreated
      (mk_game_summary 3 2 1 true (Some "2024-06-01 00:00:00")
                       (Some "2024-07-01 00:00:00"))
      "2024-06-01 00:00:00" (mk_datetime 2024 6 1 0 0 0 0)
      eq_refl eq_refl ltac:(discriminate) eq_refl) as (_ & Hrows & _).
    intros row Hrow. now apply Hrows.
  - pose proof (anchor_determination sample_to_datetime sample_parse
      sample_parse sample_series string unit (fun _ => None) (fun _ => None)
      (fun _ => None) unit (fun _ => None) (fun _ => None)
      sample_patch_summary 730%Z) as H.
    cbv zeta in H. destruct H as (_ & Hnodate & Hcontrol).
    assert (extract_last_major_date sample_parse sample_parse
              sample_patch_summary 730 = None) as Hnone
      by (apply Hnodate; right; exists no_activity; split; reflexivity).
    destruct (Hcontrol Hnone) as [_ Hdf].
    change (normalize_series sample_to_datetime (sample_series 730))
      with [mk_series_row (Some (mk_datetime 2023 11 1 0 0 0 0))
                          (Some 7%Q) None;
            mk_series_row (Some (mk_datetime 2024 1 1 0 0 0 0))
                          (Some 15%Q) (Some 20%Q)] in Hdf.
    destruct Hdf as (latest & Ha & _ & _ & _ & Hzero).
    injection Ha as <-. apply Hzero. vm_compute. split; discriminate.
  - pose proof (anchor_determination sample_to_datetime sample_parse
      sample_parse sample_series string unit (fun _ => None) (fun _ => None)
      (fun _ => None) unit (fun _ => None) (fun _ => None)
      sample_patch_summary 730%Z) as H.
    cbv zeta in H. destruct H as (_ & Hnodate & Hcontrol).
    assert (extract_last_major_date sample_parse sample_parse
              sample_patch_summary 730 = None) as Hnone
      by (apply Hnodate; right; exists no_activity; split; reflexivity).
    destruct (Hcontrol Hnone) as [Hrows _]. exact Hrows.
  - pose proof (anchor_determination sample_to_datetime sample_parse
      sample_parse sample_series string unit (fun _ => None) (fun _ => None)
      (fun _ => None) unit (fun _ => None) (fun _ => None)
      sample_patch_summary 999%Z) as H.
    cbv zeta in H. destruct H as (_ & Hnodate & Hcontrol).
    assert (extract_last_major_date sample_parse sample_parse
              sample_patch_summary 999 = None) as Hnone
      by (apply Hnodate; left; reflexivity).
    destruct (Hcontrol Hnone) as [_ Hdf].
    change (normalize_series sample_to_datetime (sample_series 999))
      with (@nil series_row) in Hdf.
    destruct Hdf as [_ Hrows]. exact Hrows.
Defined.

(** C10 on the run: the summary of game 440 records a major patch dated
    "1 June 2024", which the parsers refuse; its rows are control rows. *)
Lemma unparsable_date_is_control_witness :
  extract_last_major_date sample_parse sample_parse sample_patch_summary 440
  = None
  /\ forall row, In row (sample_game_rows sample_patch_summary 440) ->
       row_treatment string row = 0%Z /\ row_event_date string row = None.
Proof.
  apply (unparsable_date_is_control sample_to_datetime sample_parse
    sample_parse sample_series string unit (fun _ => None) (fun _ => None)
    (fun _ => None) unit (fun _ => None) (fun _ => None)
    sample_patch_summary 440%Z
    (mk_game_summary 1 1 0 true (Some "1 June 2024") (Some "1 June 2024"))
    "1 June 2024"); reflexivity.
Defined.

(** The summary dict the run of [build_panel] over games 730 and 570
    extracts. *)
Definition sample_extracted_summary : gmap pykey game_summary :=
  summary (extract_patches_for_games sample_utcfromtimestamp
             sample_request_news sample_one_year_ago [730; 570]%Z).

(** C4 on the run: two games give eighteen rows; the row of game 570 for
    June 2024, a month its frame lacks, is there with null player counts,
    and its row for May 2024 carries the merged values of May. *)
Lemma build_panel_nine_rows_witness :
  length (sample_build_panel [730; 570]%Z) = 18%nat
  /\ map (row_rel_month string) (sample_build_panel [730; 570]%Z)
     = [-4; -3; -2; -1; 0; 1; 2; 3; 4; -4; -3; -2; -1; 0; 1; 2; 3; 4]%Z
  /\ (row_rel_month string
        (sample_panel_row_of
           (sample_game_locals_of sample_extracted_summary 570) 0) = 0%Z
      /\ row_month string
           (sample_panel_row_of
              (sample_game_locals_of sample_extracted_summary 570) 0)
         = Some "2024-06"
      /\ row_avg_players string
           (sample_panel_row_of
              (sample_game_locals_of sample_extracted_summary 570) 0) = None
      /\ row_peak_players string
           (sample_panel_row_of
              (sample_game_locals_of sample_extracted_summary 570) 0) = None)
  /\ row_avg_players string
       (sample_panel_row_of
          (sample_game_locals_of sample_extracted_summary 570) (-1))
     = Some 200%Q.
Proof.
  pose proof (build_panel_nine_rows sample_to_datetime sample_parse
    sample_parse sample_series string unit (fun _ => None) (fun _ => None)
    (fun _ => None) unit (fun _ => None) (fun _ => None)
    sample_utcfromtimestamp sample_request_news sample_one_year_ago
    [730; 570]%Z) as H.
  cbv zeta in H. destruct H as (_ & Hlen & _ & Hrel & _ & Hrow).
  repeat apply conj.
  - exact Hlen.
  - exact Hrel.
  - destruct (Hrow 570%Z 0%Z (mk_datetime 2024 6 1 0 0 0 0) eq_refl)
      as (H0 & _). exact H0.
  - destruct (Hrow 570%Z 0%Z (mk_datetime 2024 6 1 0 0 0 0) eq_refl)
      as (_ & Hmonth & _). exact Hmonth.
  - destruct (Hrow 570%Z 0%Z (mk_datetime 2024 6 1 0 0 0 0) eq_refl)
      as (_ & _ & Hmiss & _).
    apply Hmiss. intros r Hr. vm_compute in Hr.
    destruct Hr as [<-|[<-|[]]]; discriminate.
  - destruct (Hrow 570%Z 0%Z (mk_datetime 2024 6 1 0 0 0 0) eq_refl)
      as (_ & _ & Hmiss & _).
    apply Hmiss. intros r Hr. vm_compute in Hr.
    destruct Hr as [<-|[<-|[]]]; discriminate.
  - destruct (Hrow 570%Z (-1)%Z (mk_datetime 2024 6 1 0 0 0 0) eq_refl)
      as (_ & _ & _ & Hfound).
    apply (Hfound (mk_series_row (Some (mk_datetime 2024 5 1 0 0 0 0))
                                 (Some 200%Q) (Some 200%Q)));
      [vm_compute; left; reflexivity | vm_compute; reflexivity].
Defined.

(** C7 on the run: the row of the treated game 570 at [rel_month = 0] has
    [treatment = 1] and an event date, the row of the control game 730 has
    [treatment = 0] and none. *)
Lemma treatment_iff_event_date_witness :
  (row_treatment string
     (sample_panel_row_of (sample_game_locals_of sample_extracted_summary 570) 0)
   = 1%Z
   /\ row_event_date string
        (sample_panel_row_of
           (sample_game_locals_of sample_extracted_summary 570) 0)
      <> None)
  /\ (row_treatment string
        (sample_panel_row_of
           (sample_game_locals_of sample_extracted_summary 730) 0)
      = 0%Z
      /\ row_event_date string
           (sample_panel_row_of
              (sample_game_locals_of sample_extracted_summary 730) 0)
         = None).
Proof.
  destruct (treatment_iff_event_date sample_to_datetime sample_parse
    sample_parse sample_series string unit (fun _ => None) (fun _ => None)
    (fun _ => None) unit (fun _ => None) (fun _ => None)
    sample_utcfromtimestamp sample_request_news sample_one_year_ago
    [730; 570]%Z) as [Hrows _].
  assert (forall appid rel,
            In appid [730; 570]%Z ->
            In rel [-4; -3; -2; -1; 0; 1; 2; 3; 4]%Z ->
            In (sample_panel_row_of
                  (sample_game_locals_of sample_extracted_summary appid) rel)
               (sample_build_panel [730; 570]%Z)) as Hin.
  { intros appid rel Happ Hrel. unfold sample_build_panel.
    rewrite build_panel_flat_map. apply in_flat_map. exists appid.
    split; [exact Happ|]. rewrite game_rows_eq. apply in_map_iff.
    exists rel. split; [reflexivity | exact Hrel]. }
  split.
  - destruct (Hrows _ (Hin 570%Z 0%Z ltac:(right; left; reflexivity)
                           ltac:(do 4 right; left; reflexivity)))
      as (_ & [Hto _] & _).
    split; [reflexivity | apply Hto; reflexivity].
  - destruct (Hrows _ (Hin 730%Z 0%Z ltac:(left; reflexivity)
                           ltac:(do 4 right; left; reflexivity)))
      as (_ & _ & [Hto _]).
    split; [reflexivity | apply Hto; reflexivity].
Defined.

End Panel.

(** * Further properties of the code

  Beyond the sources above, this part follows
  - [collect_panel_for_did.py]      : [owners_from_steamdb];
  - [scraper/utils.py]              : [RateLimiter];
  - [scraper/steamdb_scraper.py]    : [_get_html], [fetch_app];
  - [scraper/store_scraper.py]      : [fetch_app];
  - [compare_updates.py]            : [looks_like_update],
    [had_recent_update], [parse_owners_value];
  - [read_api_key], which several scripts share.

  Times and pauses are exact rationals; the pages, the requests and the
  random draws are Section variables. *)

(** ** patch_extractor.py : more on [classify_patch] *)

Module ClassifierFacts.
Import Text PatchExtractor.

Lemma lower_app (s1 s2 : string) :
  lower (s1 ++ s2) = (lower s1 ++ lower s2)%string.
Proof.
  induction s1 as [|c s1 IH]; [reflexivity|].
  change (String c s1 ++ s2)%string with (String c (s1 ++ s2)%string).
  cbn [lower]. rewrite IH. reflexivity.
Qed.

Lemma lower_ascii_idem (c : ascii) : lower_ascii (lower_ascii c) = lower_ascii c.
Proof.
  destruct c as [[] [] [] [] [] [] [] []]; reflexivity.
Qed.

Lemma lower_idem (s : string) : lower (lower s) = lower s.
Proof.
  induction s as [|c s IH]; [reflexivity|].
  cbn [lower]. now rewrite lower_ascii_idem, IH.
Qed.

Lemma combined_lower (title contents : string) :
  combined title contents = (lower title ++ " " ++ lower contents)%string.
Proof. unfold combined. now rewrite !lower_app. Qed.

Lemma classify_patch_by_combined (t1 c1 t2 c2 : string) :
  combined t1 c1 = combined t2 c2 ->
  classify_patch t1 c1 = classify_patch t2 c2.
Proof. intros H. rewrite !classify_patch_cases. cbv zeta. now rewrite H. Qed.

(** X1: The classification ignores letter case: two news items whose titles and
    whose bodies agree once lowercased classify alike; in particular an item
    and its lowercased form do. *)
Theorem classify_patch_case_insensitive (t1 c1 t2 c2 : string) :
  lower t1 = lower t2 -> lower c1 = lower c2 ->
  classify_patch t1 c1 = classify_patch t2 c2 /\
  classify_patch (lower t1) (lower c1) = classify_patch t1 c1.
Proof.
  intros Ht Hc. split; apply classify_patch_by_combined.
  - now rewrite !combined_lower, Ht, Hc.
  - now rewrite !combined_lower, !lower_idem.
Qed.

Lemma classify_patch_case_insensitive_witness :
  classify_patch "HOTFIX 1.2.1" "Fixed A Crash"
  = classify_patch "hotfix 1.2.1" "fixed a crash" /\
  classify_patch (lower "HOTFIX 1.2.1") (lower "Fixed A Crash")
  = classify_patch "HOTFIX 1.2.1" "Fixed A Crash".
Proof.
  apply (classify_patch_case_insensitive "HOTFIX 1.2.1" "Fixed A Crash"
           "hotfix 1.2.1" "fixed a crash"); reflexivity.
Defined.

Lemma occurs_trans (a b c : string) : occurs a b -> occurs b c -> occurs a c.
Proof.
  intros (l1 & r1 & ->) (l2 & r2 & ->).
  exists (l2 ++ l1)%string, (r1 ++ r2)%string.
  now rewrite !Dates.append_assoc.
Qed.

(** The indicators that are, or contain, a patch keyword. *)
Definition decisive_major : list string :=
  ["major update"; "major patch"; "expansion"; "new feature"].

(** X2: A news item in whose text "major update", "major patch", "expansion"
    or "new feature" occurs is always a patch and always MAJOR with reason
    major_keywords, whatever else the text holds (minor indicators
    included). *)
Theorem classify_patch_decisive_major (title contents kw : string) :
  In kw decisive_major ->
  occurs kw (combined title contents) ->
  classify_patch title contents = Some (true, true, "major_keywords").
Proof.
  intros Hkw Hocc. rewrite classify_patch_cases. cbv zeta.
  assert (any_in major_indicators (combined title contents) = true) as Hmaj.
  { apply any_in_spec. exists kw. split; [|exact Hocc].
    cbn in Hkw. cbn. intuition. }
  assert (any_in patch_keywords (combined title contents) = true) as Hpatch.
  { apply any_in_spec.
    destruct Hkw as [<-|[<-|[<-|[<-|[]]]]].
    - exists "update". split; [cbn; intuition|].
      apply occurs_trans with "major update"; [|exact Hocc].
      now exists "major ", "".
    - exists "patch". split; [cbn; intuition|].
      apply occurs_trans with "major patch"; [|exact Hocc].
      now exists "major ", "".
    - exists "expansion". split; [cbn; intuition | exact Hocc].
    - exists "new feature". split; [cbn; intuition | exact Hocc]. }
  rewrite Hpatch, Hmaj. cbn [negb]. now rewrite andb_false_r.
Qed.

Lemma classify_patch_decisive_major_witness :
  classify_patch "Hotfix and bug fix" "Small tweak before the EXPANSION"
  = Some (true, true, "major_keywords").
Proof.
  apply (classify_patch_decisive_major _ _ "expansion").
  - right; right; left; reflexivity.
  - apply contains_spec. reflexivity.
Defined.

End ClassifierFacts.

(** ** patch_extractor.py : more on [extract_patches_for_games] *)

Module ExtractorFacts.
Import Text PatchExtractor Dates Extractor.

Lemma omap_length_le {A B} (f : A -> option B) (l : list A) :
  (length (omap f l) <= length l)%nat.
Proof.
  induction l as [|a l IH]; cbn [omap list_omap length]; [lia|].
  destruct (f a); cbn [length]; lia.
Qed.

Lemma strftime_ymd_hms_length (d : datetime) :
  String.length (strftime_ymd_hms d) = 19%nat.
Proof. reflexivity. Qed.

(** X3: The counts and the two dates of a summary fit together: the total is
    the number of records and splits into major and minor ones;
    [has_major_patch] holds exactly when some record is major, which is
    exactly when [first_major_patch_date] is not null; [last_patch_date] is
    null exactly when the total is zero; and the first major date is never
    after the last patch date. *)
Theorem summarize_consistent (patches : list patch_entry) :
  let s := summarize patches in
  total_patches s = Z.of_nat (length patches)
  /\ (total_patches s = major_patches s + minor_patches s)%Z
  /\ (0 <= major_patches s)%Z /\ (0 <= minor_patches s)%Z
  /\ (has_major_patch s = true <->
      exists p, In p patches /\ pe_is_major p = true)
  /\ (has_major_patch s = true <-> first_major_patch_date s <> None)
  /\ (last_patch_date s = None <-> total_patches s = 0%Z)
  /\ (forall first last : string,
        first_major_patch_date s = Some first ->
        last_patch_date s = Some last ->
        String.leb first last = true).
Proof.
  cbv zeta.
  assert (has_major_patch (summarize patches) = true <->
          exists p, In p patches /\ pe_is_major p = true) as Hhas.
  { unfold summarize. cbn [has_major_patch]. rewrite Z.ltb_lt. split.
    - intros Hpos.
      destruct (List.filter pe_is_major patches) as [|p ps] eqn:Hf;
        [cbn in Hpos; lia|].
      assert (In p (List.filter pe_is_major patches)) as Hin
        by (rewrite Hf; now left).
      apply filter_In in Hin. now exists p.
    - intros (p & Hin & Hmaj).
      assert (In p (List.filter pe_is_major patches)) as Hin'
        by (apply filter_In; now split).
      destruct (List.filter pe_is_major patches); [destruct Hin'|].
      cbn [length]. lia. }
  repeat apply conj.
  - reflexivity.
  - unfold summarize. cbn [total_patches major_patches minor_patches]. lia.
  - unfold summarize. cbn [major_patches]. lia.
  - unfold summarize. cbn [minor_patches].
    pose proof (filter_length_le pe_is_major patches). lia.
  - apply Hhas.
  - apply Hhas.
  - intros Hhm. apply Hhas in Hhm as (p & Hin & Hmaj). intros Hnone.
    pose proof (summarize_first_major_None _ Hnone p Hin). congruence.
  - intros Hsome.
    destruct (first_major_patch_date (summarize patches)) as [d|] eqn:Hd;
      [|contradiction].
    apply Hhas. apply summarize_first_major_Some in Hd as [(p & Hp) _].
    exists p. tauto.
  - intros Hnone. apply summarize_last_None in Hnone. now subst.
  - unfold summarize. cbn [last_patch_date total_patches].
    destruct patches; [reflexivity | cbn [length]; lia].
  - intros first last Hf Hl.
    apply summarize_first_major_Some in Hf as [(p & Hin & _ & <-) _].
    apply summarize_last_Some in Hl as [_ Hle]. now apply Hle.
Qed.

Section Records.

Variable utcfromtimestamp : Z -> option datetime.
Variable request_news : Z -> option (list news_item).
Variable one_year_ago : datetime.

(** The notions of the extractor, in this environment. *)
Local Abbreviation recorded :=
  (Extractor.recorded utcfromtimestamp one_year_ago).
Local Abbreviation recorded_entry :=
  (Extractor.recorded_entry utcfromtimestamp one_year_ago).
Local Abbreviation entry_recorded :=
  (Extractor.entry_recorded utcfromtimestamp one_year_ago).
Local Abbreviation in_window_printable :=
  (Extractor.in_window_printable one_year_ago).
Local Abbreviation patch_entry_of_Some :=
  (Extractor.patch_entry_of_Some utcfromtimestamp one_year_ago).

(** X4: The records of a game are exactly the news items that have a date,
    are not older than the window and classify as a patch: every such item
    is recorded, with its title and timestamp, the text of its date on 19
    characters, the classifier's verdict and the first 500 characters of
    its contents, and every record is the record of such an item.  The
    items are judged one by one, in the order of the news (the records of
    two lists of news put end to end are the records of the first followed
    by those of the second), and there are never more records than
    news. *)
Theorem collect_patches_exact (appid : Z) (news : list news_item) :
  (forall more : list news_item,
     collect_patches utcfromtimestamp one_year_ago appid (news ++ more)%list
     = (collect_patches utcfromtimestamp one_year_ago appid news ++
        collect_patches utcfromtimestamp one_year_ago appid more)%list)
  /\ (length (collect_patches utcfromtimestamp one_year_ago appid news)
      <= length news)%nat
  /\ (forall item item_date is_patch is_major reason,
        In item news ->
        utcfromtimestamp (default 0%Z (ni_date item)) = Some item_date ->
        dt_ltb item_date one_year_ago = false ->
        classify_patch (default "" (ni_title item))
                       (default "" (ni_contents item))
        = Some (is_patch, is_major, reason) ->
        In (mk_patch_entry appid (default "" (ni_title item))
              (take_chars 500 (default "" (ni_contents item)))
              (strftime_ymd_hms item_date) (default 0%Z (ni_date item))
              is_major reason)
           (collect_patches utcfromtimestamp one_year_ago appid news))
  /\ (forall p,
        In p (collect_patches utcfromtimestamp one_year_ago appid news) ->
        exists item item_date is_patch,
          In item news /\
          utcfromtimestamp (default 0%Z (ni_date item)) = Some item_date /\
          dt_ltb item_date one_year_ago = false /\
          classify_patch (default "" (ni_title item))
                         (default "" (ni_contents item))
          = Some (is_patch, pe_is_major p, pe_classification_reason p) /\
          p = mk_patch_entry appid (default "" (ni_title item))
                (take_chars 500 (default "" (ni_contents item)))
                (strftime_ymd_hms item_date) (default 0%Z (ni_date item))
                (pe_is_major p) (pe_classification_reason p) /\
          String.length (pe_date p) = 19%nat /\
          (char_length (pe_contents p) <= 500)%nat /\
          exists rest,
            default "" (ni_contents item) = (pe_contents p ++ rest)%string).
Proof.
  assert (forall p,
    In p (collect_patches utcfromtimestamp one_year_ago appid news) <->
    exists item, In item news /\
      patch_entry_of utcfromtimestamp one_year_ago appid item = Some p) as Hin.
  { intros p. unfold collect_patches.
    rewrite <- list_elem_of_In, list_elem_of_omap.
    split; intros (item & Hi & Hp); exists item;
      (split; [now apply list_elem_of_In | exact Hp]). }
  split; [|split; [|split]].
  - intros more. unfold collect_patches. apply omap_app.
  - unfold collect_patches. apply omap_length_le.
  - intros item t is_patch is_major reason Hitem Ht Hw Hc.
    apply Hin. exists item. split; [exact Hitem|].
    unfold patch_entry_of. cbv zeta. now rewrite Ht, Hw, Hc.
  - intros p Hp. apply Hin in Hp as (item & Hitem & Hp).
    apply patch_entry_of_Some in Hp
      as (t & is_patch & reason & Ht & Hw & Hc & Hp).
    exists item, t, is_patch.
    assert (pe_classification_reason p = reason) as Hreason
      by (rewrite Hp; reflexivity).
    assert (pe_contents p
            = take_chars 500 (default "" (ni_contents item))) as Hcontents
      by (rewrite Hp; reflexivity).
    assert (pe_date p = strftime_ymd_hms t) as Hdate
      by (rewrite Hp; reflexivity).
    rewrite Hreason, Hcontents, Hdate.
    split; [exact Hitem|]. split; [exact Ht|]. split; [exact Hw|].
    split; [exact Hc|]. split; [exact Hp|]. split; [reflexivity|].
    split; [apply take_chars_length | apply take_chars_prefix].
Qed.

(** The records of one game, as the loop over the games collects them. *)
Definition records_of (appid : Z) : list patch_entry :=
  collect_patches utcfromtimestamp one_year_ago appid
                  (fetch_news_for_app request_news appid).

Lemma extract_patches_fold appids out0 :
  patches (fold_left (extract_game utcfromtimestamp request_news one_year_ago)
                     appids out0)
  = (patches out0 ++ flat_map records_of appids)%list.
Proof.
  revert out0. induction appids as [|a l IH]; intros out0;
    cbn [fold_left flat_map].
  - now rewrite app_nil_r.
  - rewrite IH. cbn [extract_game patches]. now rewrite <- app_assoc.
Qed.

(** X5: The output of a run: the record list is the records of the games, game
    after game in input order; the summary dict has exactly the integer keys
    of the input, each bound to the summary of that game's records; every
    record belongs to a game of the input; the per-game totals, summed over
    the input list, give the length of the record list; and an empty input
    gives an empty output. *)
Theorem extract_patches_for_games_output (appids : list Z) :
  let out := extract_patches_for_games utcfromtimestamp request_news
                                       one_year_ago appids in
  patches out = flat_map records_of appids
  /\ (forall k : pykey,
        is_Some (summary out !! k) <->
        exists appid, In appid appids /\ k = inl appid)
  /\ (forall appid, In appid appids ->
        summary out !! (inl appid : pykey)
        = Some (summarize (records_of appid)))
  /\ (forall p, In p (patches out) -> In (pe_appid p) appids)
  /\ Z.of_nat (length (patches out))
     = fold_right Z.add 0%Z
         (map (fun appid => total_patches (summarize (records_of appid)))
              appids)
  /\ extract_patches_for_games utcfromtimestamp request_news one_year_ago []
     = mk_extraction ∅ [].
Proof.
  cbv zeta. unfold extract_patches_for_games.
  assert (patches (fold_left
            (extract_game utcfromtimestamp request_news one_year_ago)
            appids (mk_extraction ∅ []))
          = flat_map records_of appids) as Hpatches
    by (rewrite extract_patches_fold; reflexivity).
  repeat apply conj.
  - exact Hpatches.
  - intros [a|k].
    + destruct (extract_summary_lookup utcfromtimestamp request_news
                  one_year_ago appids (mk_extraction ∅ []) a) as [Hin Hout].
      destruct (in_dec Z.eq_dec a appids) as [Ha|Ha].
      * rewrite (Hin Ha). split; [intros _; now exists a | intros _; eauto].
      * rewrite (Hout Ha). cbn [summary]. rewrite lookup_empty. split.
        -- intros [x Hx]. discriminate.
        -- intros (a' & Ha' & [= ->]). contradiction.
    + rewrite extract_summary_no_str_key. cbn [summary].
      rewrite lookup_empty. split.
      * intros [x Hx]. discriminate.
      * intros (a' & _ & Hk). discriminate.
  - intros appid Hin.
    now apply (extract_summary_lookup utcfromtimestamp request_news
                 one_year_ago appids (mk_extraction ∅ []) appid).
  - intros p Hp. rewrite Hpatches in Hp.
    apply in_flat_map in Hp as (a & Ha & Hp).
    apply collect_patches_origin in Hp as (_ & _ & _ & _ & _ & _ & ->).
    exact Ha.
  - rewrite Hpatches. clear Hpatches.
    induction appids as [|a l IH]; cbn [flat_map map fold_right length];
      [reflexivity|].
    rewrite length_app, Nat2Z.inj_add, IH. reflexivity.
  - reflexivity.
Qed.

(** *** The dates of a summary, read as dates *)

(** X6: When [utcfromtimestamp] returns valid datetimes and the window starts
    in a year of four digits, the two date texts of a summary are the dates
    they should be: [first_major_patch_date] is the text of the earliest
    date (to the second) among the recorded major items, and
    [last_patch_date] the text of the latest date among all recorded
    items. *)
Theorem summary_dates_chronological (appid : Z) (news : list news_item) :
  (forall ts t, utcfromtimestamp ts = Some t -> valid_datetime t) ->
  (1000 <= year one_year_ago)%Z ->
  let s := summarize (collect_patches utcfromtimestamp one_year_ago
                                      appid news) in
  (forall d, first_major_patch_date s = Some d ->
     exists item t,
       recorded news item t true /\ d = strftime_ymd_hms t /\
       forall item' t', recorded news item' t' true ->
         lex_compare (to_the_second t) (to_the_second t') <> Gt)
  /\ (forall d, last_patch_date s = Some d ->
        exists item t is_major,
          recorded news item t is_major /\ d = strftime_ymd_hms t /\
          forall item' t' is_major', recorded news item' t' is_major' ->
            lex_compare (to_the_second t') (to_the_second t) <> Gt).
Proof.
  intros Hvalid Hold. cbv zeta.
  assert (forall item t m, recorded news item t m -> printable t) as Hprint.
  { intros item t m (_ & Ht & Hw & _).
    apply in_window_printable; [exact (Hvalid _ t Ht) | assumption..]. }
  split.
  - intros d Hd.
    apply summarize_first_major_Some in Hd as [(p & Hp & Hmaj & Hpd) Hle].
    apply entry_recorded in Hp as (item & t & Hrec & Hdate).
    rewrite Hmaj in Hrec. exists item, t.
    split; [exact Hrec|]. split; [congruence|].
    intros item' t' Hrec'.
    destruct (recorded_entry appid _ _ _ _ Hrec') as (q & Hq & Hqd & Hqm).
    specialize (Hle q Hq Hqm). rewrite <- Hpd, Hdate, Hqd in Hle.
    apply date_text_leb in Hle; [exact Hle | eauto..].
  - intros d Hd.
    apply summarize_last_Some in Hd as [(p & Hp & Hpd) Hle].
    apply entry_recorded in Hp as (item & t & Hrec & Hdate).
    exists item, t, (pe_is_major p).
    split; [exact Hrec|]. split; [congruence|].
    intros item' t' m' Hrec'.
    destruct (recorded_entry appid _ _ _ _ Hrec') as (q & Hq & Hqd & _).
    specialize (Hle q Hq). rewrite <- Hpd, Hdate, Hqd in Hle.
    apply date_text_leb in Hle; [exact Hle | eauto..].
Qed.

End Records.

(** X4 on the run of the extractor: the hotfix of July 2024 is recorded as
    a minor patch, and the five news items give at most five records. *)
Lemma collect_patches_exact_witness :
  In (mk_patch_entry 570 "Hotfix 1.2.1" "Fixed a crash"
                     "2024-07-01 00:00:00" 1719792000 false "minor_keywords")
     (collect_patches sample_utcfromtimestamp sample_one_year_ago 570
                      sample_news)
  /\ (length (collect_patches sample_utcfromtimestamp sample_one_year_ago 570
                              sample_news) <= 5)%nat.
Proof.
  destruct (collect_patches_exact sample_utcfromtimestamp sample_one_year_ago
              570%Z sample_news) as (_ & Hlen & Hrec & _).
  split; [|exact Hlen].
  apply (Hrec (mk_news_item (Some 1719792000%Z) (Some "Hotfix 1.2.1")
                            (Some "Fixed a crash"))
              (mk_datetime 2024 7 1 0 0 0 0) true false "minor_keywords").
  - right; right; left; reflexivity.
  - reflexivity.
  - reflexivity.
  - reflexivity.
Defined.

Lemma summary_dates_chronological_witness :
  exists item t,
    recorded sample_utcfromtimestamp sample_one_year_ago sample_news item t true
    /\ "2024-06-01 00:00:00" = strftime_ymd_hms t
    /\ forall item' t',
         recorded sample_utcfromtimestamp sample_one_year_ago sample_news
                  item' t' true ->
         lex_compare (to_the_second t) (to_the_second t') <> Gt.
Proof.
  destruct (summary_dates_chronological sample_utcfromtimestamp
              sample_one_year_ago 570 sample_news
              sample_utcfromtimestamp_valid ltac:(cbn; lia)) as [Hfirst _].
  apply Hfirst. reflexivity.
Defined.

End ExtractorFacts.

(** ** scraper/cache.py : more on [SteamCache] *)

Module CacheFacts.
Import Cache.

(** The number of rows of an endpoint. *)
Definition endpoint_count (c : SteamCache) (endpoint : string) : Z :=
  Z.of_nat (size (filter (fun kv : (string * Z) * (string * Q) =>
                            kv.1.1 = endpoint) (table c))).

(** The sum of the counts of a ["by_endpoint"] dict. *)
Definition sum_counts (by_endpoint : gmap string Z) : Z :=
  map_fold (fun (_ : string) (n acc : Z) => (n + acc)%Z) 0%Z by_endpoint.

Lemma sum_counts_insert_fresh (m : gmap string Z) k v :
  m !! k = None -> sum_counts (<[k:=v]> m) = (v + sum_counts m)%Z.
Proof.
  intros Hk. unfold sum_counts. apply map_fold_insert_L; [|exact Hk].
  intros j1 j2 z1 z2 y _ _ _. cbn beta. lia.
Qed.

Lemma sum_counts_insert (m : gmap string Z) k v :
  sum_counts (<[k:=v]> m) = (v + sum_counts m - default 0 (m !! k))%Z.
Proof.
  destruct (m !! k) as [x|] eqn:Hk; cbn [default from_option]; unfold id.
  - rewrite <- (insert_delete_eq m k v).
    rewrite <- (insert_delete_id m k x Hk) at 2.
    rewrite !sum_counts_insert_fresh by apply lookup_delete_eq. lia.
  - rewrite sum_counts_insert_fresh by exact Hk. lia.
Qed.

Lemma endpoint_count_insert_fresh c k v endpoint :
  table c !! k = None ->
  endpoint_count (mk_cache (ttl_seconds c) (<[k:=v]> (table c))) endpoint
  = (endpoint_count c endpoint + if decide (k.1 = endpoint) then 1 else 0)%Z.
Proof.
  intros Hk. unfold endpoint_count. cbn [table].
  rewrite map_filter_insert. cbn [fst].
  destruct (decide (k.1 = endpoint)) as [He|He].
  - rewrite map_size_insert_None; [lia|].
    apply map_lookup_filter_None. now left.
  - rewrite delete_id by exact Hk. lia.
Qed.

(** X7: [get_stats] counts consistently: an endpoint is a key of ["by_endpoint"]
    exactly when the table holds a row of it, and is then bound to the
    number of its rows; the counts add up to ["total"]. *)
Theorem get_stats_consistent (c : SteamCache) :
  (forall endpoint : string,
     stats_by_endpoint c !! endpoint =
     if (endpoint_count c endpoint =? 0)%Z then None
     else Some (endpoint_count c endpoint))
  /\ sum_counts (stats_by_endpoint c) = stats_total c
  /\ (get_stats c).1 = sum_counts (get_stats c).2.
Proof.
  assert ((forall endpoint : string,
             stats_by_endpoint c !! endpoint =
             if (endpoint_count c endpoint =? 0)%Z then None
             else Some (endpoint_count c endpoint))
          /\ sum_counts (stats_by_endpoint c) = stats_total c) as H.
  { destruct c as [ttl tbl]. unfold stats_by_endpoint, stats_total.
    cbn [table].
    apply (map_fold_weak_ind
      (fun (r : gmap string Z) (m : gmap (string * Z) (string * Q)) =>
         (forall endpoint : string,
            r !! endpoint =
            if (endpoint_count (mk_cache ttl m) endpoint =? 0)%Z then None
            else Some (endpoint_count (mk_cache ttl m) endpoint))
         /\ sum_counts r = Z.of_nat (size m))).
    - split; [|reflexivity]. intros endpoint.
      unfold endpoint_count. cbn [table].
      rewrite map_filter_empty, map_size_empty. apply lookup_empty.
    - intros k v m r Hk [Hcount Hsum]. split.
      + intros endpoint.
        pose proof (endpoint_count_insert_fresh (mk_cache ttl m) k v
                      endpoint Hk) as Hc.
        cbn [table ttl_seconds] in Hc. rewrite Hc. clear Hc.
        destruct (decide (k.1 = endpoint)) as [He|He].
        * rewrite He, lookup_insert_eq, Hcount.
          assert (0 <= endpoint_count (mk_cache ttl m) endpoint)%Z
            by (unfold endpoint_count; lia).
          destruct (Z.eqb_spec (endpoint_count (mk_cache ttl m) endpoint) 0);
            destruct (Z.eqb_spec
              (endpoint_count (mk_cache ttl m) endpoint + 1) 0);
            cbn [default from_option]; unfold id; try lia; f_equal; lia.
        * rewrite lookup_insert_ne by exact He. rewrite Hcount.
          now rewrite Z.add_0_r.
      + rewrite sum_counts_insert, Hsum, map_size_insert_None by exact Hk.
        lia. }
  destruct H as [Hcount Hsum]. repeat apply conj.
  - exact Hcount.
  - exact Hsum.
  - cbn [get_stats fst snd]. now rewrite Hsum.
Qed.

Section Facts.

Variable Payload : Type.
Variable json_dumps : Payload -> string.
Variable json_loads : string -> Payload.

(** X8: A read touches its own key only: whatever it returns, the rows of all
    other keys stay, the TTL stays, and the total never grows; it returns a
    value only for a key that has a row, and then the decoded text of that
    row. *)
Theorem get_frame (c : SteamCache) (now : Q) (endpoint : string) (appid : Z) :
  let r := get Payload json_loads c now endpoint appid in
  (forall k, k <> (endpoint, appid) -> table r.2 !! k = table c !! k)
  /\ ttl_seconds r.2 = ttl_seconds c
  /\ (stats_total r.2 <= stats_total c)%Z
  /\ (forall data, r.1 = Some data ->
        r.2 = c /\
        exists data_str stored_at,
          table c !! (endpoint, appid) = Some (data_str, stored_at) /\
          data = json_loads data_str /\
          (now - stored_at <= inject_Z (ttl_seconds c))%Q)
  /\ (r.1 = None -> table r.2 !! (endpoint, appid) = None \/ r.2 = c).
Proof.
  cbv zeta. unfold get.
  destruct (table c !! (endpoint, appid)) as [[data_str ts]|] eqn:Hrow.
  - destruct (expired c now ts) eqn:Hexp; cbn [fst snd table ttl_seconds].
    + repeat apply conj.
      * intros k Hk. now apply lookup_delete_ne.
      * reflexivity.
      * rewrite (stats_total_delete c _ _ Hrow). lia.
      * discriminate.
      * intros _. left. apply lookup_delete_eq.
    + repeat apply conj; try reflexivity; try lia.
      * intros data [= <-]. split; [reflexivity|].
        exists data_str, ts. repeat split. now apply expired_false.
      * discriminate.
  - cbn [fst snd]. repeat apply conj; try reflexivity; try lia.
    + discriminate.
    + intros _. now left.
Qed.

(** X9: Expiry counts from the write, not from the last read: an entry written
    at [t_set] is served at any time up to and including [t_set + ttl]
    (the test is a strict [>]), also when the clock reads earlier than
    [t_set], and is refused at any later time, however often it was read
    before (a hit leaves the row and its timestamp as they are). *)
Theorem ttl_counts_from_write (c : SteamCache) (endpoint : string)
    (appid : Z) (data : Payload) (t_set t_read t_late : Q) :
  (t_read <= t_set + inject_Z (ttl_seconds c))%Q ->
  (t_set + inject_Z (ttl_seconds c) < t_late)%Q ->
  let c1 := set Payload json_dumps c t_set endpoint appid data in
  let r1 := get Payload json_loads c1 t_read endpoint appid in
  let r2 := get Payload json_loads r1.2 t_late endpoint appid in
  r1.1 = Some (json_loads (json_dumps data))
  /\ r1.2 = c1
  /\ (get Payload json_loads c1 (t_set + inject_Z (ttl_seconds c))
          endpoint appid).1
     = Some (json_loads (json_dumps data))
  /\ r2.1 = None
  /\ table r2.2 !! (endpoint, appid) = None.
Proof.
  intros Hread Hlate. cbv zeta.
  assert (table (set Payload json_dumps c t_set endpoint appid data)
            !! (endpoint, appid) = Some (json_dumps data, t_set)) as Hrow
    by apply set_lookup.
  assert (forall t, (t <= t_set + inject_Z (ttl_seconds c))%Q ->
            get Payload json_loads
                (set Payload json_dumps c t_set endpoint appid data)
                t endpoint appid
            = (Some (json_loads (json_dumps data)),
               set Payload json_dumps c t_set endpoint appid data)) as Hhit.
  { intros t Ht. apply (get_fresh _ _ _ _ _ _ _ t_set Hrow).
    cbn [set ttl_seconds]. lra. }
  rewrite (Hhit t_read Hread). cbn [fst snd].
  rewrite (Hhit _ (Qle_refl _)). cbn [fst snd].
  rewrite (get_expired _ _ _ _ _ _ (json_dumps data) t_set Hrow)
    by (cbn [set ttl_seconds]; lra).
  cbn [fst snd table]. repeat split. apply lookup_delete_eq.
Qed.

(** X10: [clear] empties the table and nothing else: afterwards every read
    misses and leaves the cache empty, the statistics count nothing and the
    TTL is what it was; the first write after it is then the only row, and
    the statistics count that one row under its endpoint. *)
Theorem clear_empties (c : SteamCache) :
  (forall now endpoint appid,
     get Payload json_loads (clear c) now endpoint appid = (None, clear c))
  /\ get_stats (clear c) = (0%Z, ∅)
  /\ ttl_seconds (clear c) = ttl_seconds c
  /\ (forall now endpoint appid data,
        let c1 := set Payload json_dumps (clear c) now endpoint appid data in
        get_stats c1 = (1%Z, {[endpoint := 1%Z]}) /\
        forall k, table c1 !! k <> None -> k = (endpoint, appid)).
Proof.
  split; [|split; [|split]].
  - intros now endpoint appid. unfold get, clear. cbn [table].
    now rewrite lookup_empty.
  - unfold get_stats, stats_total, stats_by_endpoint, clear. cbn [table].
    now rewrite map_size_empty, map_fold_empty.
  - reflexivity.
  - intros now endpoint appid data c1. subst c1. split.
    + unfold get_stats, stats_total, stats_by_endpoint, set, clear.
      cbn [table ttl_seconds]. rewrite insert_empty.
      rewrite map_size_singleton, map_fold_singleton. cbn [fst].
      rewrite lookup_empty. cbn [default from_option].
      now rewrite insert_empty.
    + intros k Hk. destruct (decide (k = (endpoint, appid))) as [|Hne];
        [assumption|].
      exfalso. apply Hk. unfold set, clear. cbn [table].
      rewrite lookup_insert_ne by congruence. apply lookup_empty.
Qed.

End Facts.

Lemma ttl_counts_from_write_witness :
  (get bool bool_loads
       (set bool bool_dumps (init 604800) 100 "store" 570 true)
       604900 "store" 570).1 = Some true
  /\ (get bool bool_loads
        (get bool bool_loads
           (set bool bool_dumps (init 604800) 100 "store" 570 true)
           3700 "store" 570).2
        604901 "store" 570).1 = None.
Proof.
  destruct (ttl_counts_from_write bool bool_dumps bool_loads (init 604800)
              "store" 570%Z true 100%Q 3700%Q 604901%Q
              ltac:(vm_compute; discriminate) ltac:(vm_compute; reflexivity))
    as (_ & _ & Hedge & Hlate & _).
  split; [exact Hedge | exact Hlate].
Defined.

End CacheFacts.

(** ** scraper/utils.py : [RateLimiter] *)

Module RateLimit.

Open Scope Q_scope.

(** The limiter: [min_interval] and [_last_call]. *)
Record RateLimiter := mk_rate_limiter {
  min_interval : Q;
  last_call : Q
}.

(** [RateLimiter(min_interval_seconds)] *)
Definition init (min_interval_seconds : Q) : RateLimiter :=
  mk_rate_limiter min_interval_seconds 0.

(** [wait], with [now] and [after] the two readings of [time.time()]: the
    pause asked of [time.sleep], if any, and the limiter after the call. *)
Definition wait (rl : RateLimiter) (now after : Q) : option Q * RateLimiter :=
  let elapsed := now - last_call rl in
  let pause :=
    if negb (Qle_bool (min_interval rl) elapsed)
    then Some (min_interval rl - elapsed)
    else None in
  (pause, mk_rate_limiter (min_interval rl) after).

(** The second reading of the clock comes after the first and after the
    pause, when there is one. *)
Definition clock_advances (now : Q) (pause : option Q) (after : Q) : Prop :=
  match pause with
  | Some d => now + d <= after
  | None => now <= after
  end.

(** X11: When the clock does not run backwards and [time.sleep] lasts at least
    what it is asked, a call of [wait] returns at least [min_interval]
    after the previous call returned; it pauses only when less than
    [min_interval] has passed, then for the missing time, which is positive
    and, the clock not having run backwards since the last call, at most
    [min_interval]; the interval itself is never changed. *)
Theorem wait_spaces_calls (rl : RateLimiter) (now after : Q) :
  clock_advances now (wait rl now after).1 after ->
  last_call rl + min_interval rl <= last_call (wait rl now after).2
  /\ min_interval (wait rl now after).2 = min_interval rl
  /\ ((wait rl now after).1 = None <->
      min_interval rl <= now - last_call rl)
  /\ (forall d, (wait rl now after).1 = Some d ->
        0 < d /\ d == min_interval rl - (now - last_call rl) /\
        (last_call rl <= now -> d <= min_interval rl)).
Proof.
  unfold wait, clock_advances. cbv zeta. cbn [fst snd last_call min_interval].
  destruct (Qle_bool (min_interval rl) (now - last_call rl)) eqn:Hle;
    cbn [negb].
  - apply Qle_bool_iff in Hle. intros Hclock. repeat apply conj.
    + lra.
    + reflexivity.
    + intros _. exact Hle.
    + reflexivity.
    + discriminate.
  - assert (~ min_interval rl <= now - last_call rl) as Hlt
      by (rewrite <- Qle_bool_iff; congruence).
    apply Qnot_le_lt in Hlt. intros Hclock. repeat apply conj.
    + lra.
    + reflexivity.
    + discriminate.
    + intros Habs. lra.
    + intros d [= <-]. split; [lra|]. split; [apply Qeq_refl | intros; lra].
Qed.

(** Two calls a quarter second apart with [min_interval] one second: the
    second call pauses three quarters of a second and returns a full second
    after the first. *)
Lemma wait_spaces_calls_witness :
  (wait (mk_rate_limiter 1 1000) (4001 # 4) 1001).1 = Some (3 # 4)
  /\ 1000 + 1 <= last_call (wait (mk_rate_limiter 1 1000) (4001 # 4) 1001).2.
Proof.
  destruct (wait_spaces_calls (mk_rate_limiter 1 1000) (4001 # 4) 1001
              ltac:(vm_compute; discriminate)) as (Hspace & _).
  split; [reflexivity | exact Hspace].
Defined.

End RateLimit.

(** ** scraper/steamdb_scraper.py : [_get_html] and [fetch_app] *)

Module SteamDB.
Import Cache RateLimit.

(** What one [session.get] of [_get_html] comes to: status 403; a response
    that passes [raise_for_status], with its text; or an exception, from the
    request or from [raise_for_status]. *)
Inductive response :=
| Blocked
| Fetched (text : string)
| Failed.

(** A run of [_get_html]: the text returned, the number of requests sent,
    the pause the rate limiter asked for, the pauses of the loop in order,
    and the limiter afterwards. *)
Record html_run := mk_html_run {
  html : option string;
  requests : Z;
  limiter_pause : option Q;
  pauses : list Q;
  limiter : RateLimiter
}.

(** The result dict of [fetch_app]. *)
Record steamdb_data := mk_steamdb_data {
  sd_appid : Z;
  sd_steamdb_url : string;
  sd_owners : option string;
  sd_peak_players : option string;
  sd_raw_html_snippet : option string
}.

(** A run of [fetch_app]: the dict returned, the cache and the limiter
    afterwards, and the number of requests sent. *)
Record fetch_run := mk_fetch_run {
  fr_result : steamdb_data;
  fr_cache : SteamCache;
  fr_limiter : RateLimiter;
  fr_requests : Z
}.

Section Scraper.

(** [self.max_403_retries] *)
Variable max_403_retries : Z.

(** The outcome of the request of each attempt, by attempt number
    ([tries], from 1), and the value of [random.random()] drawn in that
    attempt. *)
Variable session_get : Z -> response.
Variable random : Z -> Q.

(** The owners and peak-players texts found in a page: the label lookups
    of [fetch_app] with their regular-expression fallbacks. *)
Variable find_owners : string -> option string.
Variable find_peak_players : string -> option string.

(** The JSON codec of the cache. *)
Variable json_dumps : steamdb_data -> string.
Variable json_loads : string -> steamdb_data.

(** The [while tries <= self.max_403_retries] loop; [None] when the fuel
    runs out before the loop ends. *)
Fixpoint get_html_loop (fuel : nat) (tries : Z) (backoff : Q)
    (pauses : list Q) : option (option string * Z * list Q) :=
  match fuel with
  | O => None
  | S fuel' =>
      if (tries <=? max_403_retries)%Z then
        let tries := (tries + 1)%Z in
        match session_get tries with
        | Blocked =>
            get_html_loop fuel' tries (backoff * 2)%Q
              (pauses ++ [(backoff + random tries * (1 # 2))%Q])%list
        | Fetched text =>
            Some (Some text, tries,
                  (pauses ++ [((1 # 5) + random tries * (3 # 5))%Q])%list)
        | Failed =>
            get_html_loop fuel' tries (Qmin (backoff * 2) 8)
              (pauses ++ [backoff])%list
        end
      else Some (None, tries, pauses)
  end.

(** [_get_html]; [now] and [after] are the clock readings of the rate
    limiter. *)
Definition get_html (fuel : nat) (rl : RateLimiter) (now after : Q)
  : option html_run :=
  let '(pause, rl') := wait rl now after in
  match get_html_loop fuel 0 1 [] with
  | Some (text, tries, pauses) =>
      Some (mk_html_run text tries pause pauses rl')
  | None => None
  end.

(** [BASE_URL.format(appid=appid)] *)
Definition base_url (appid : Z) : string :=
  ("https://steamdb.info/app/" ++ pretty appid ++ "/")%string.

(** [fetch_app]; [now_get] and [now_set] are the clock readings of
    [cache.get] and [cache.set]. *)
Definition fetch_app (fuel : nat) (cache : SteamCache) (rl : RateLimiter)
    (now_get now after now_set : Q) (appid : Z) : option fetch_run :=
  let '(cached, cache) :=
    get steamdb_data json_loads cache now_get "steamdb_app" appid in
  match cached with
  | Some data => Some (mk_fetch_run data cache rl 0)
  | None =>
      let url := base_url appid in
      match get_html fuel rl now after with
      | None => None
      | Some run =>
          match html run with
          | Some (String c text) =>
              let page := String c text in
              let result :=
                mk_steamdb_data appid url (find_owners page)
                  (find_peak_players page)
                  (Some (Text.take_chars 800 page)) in
              Some (mk_fetch_run result
                      (set steamdb_data json_dumps cache now_set
                           "steamdb_app" appid result)
                      (limiter run) (requests run))
          | _ =>
              Some (mk_fetch_run (mk_steamdb_data appid url None None None)
                                 cache (limiter run) (requests run))
          end
      end
  end.

(** *** The retry loop *)

(** Attempt [k] is the first, after attempt [t], whose response passes. *)
Definition first_fetched_after (t k : Z) (text : string) : Prop :=
  (t < k <= max_403_retries + 1)%Z /\ session_get k = Fetched text /\
  forall j, (t < j < k)%Z -> forall txt, session_get j <> Fetched txt.

Lemma get_html_loop_spec fuel t b ps :
  (Z.to_nat (max_403_retries + 1 - t) < fuel)%nat ->
  exists text tries ps',
    get_html_loop fuel t b ps = Some (text, tries, ps') /\
    (t <= tries <= Z.max t (max_403_retries + 1))%Z /\
    match text with
    | Some txt => first_fetched_after t tries txt
    | None =>
        tries = Z.max t (max_403_retries + 1) /\
        forall j, (t < j <= max_403_retries + 1)%Z ->
                  forall txt, session_get j <> Fetched txt
    end.
Proof.
  revert t b ps. induction fuel as [|fuel IH]; intros t b ps Hfuel; [lia|].
  cbn [get_html_loop]. destruct (Z.leb_spec t max_403_retries) as [Hle|Hgt].
  2:{ exists None, t, ps. split; [reflexivity|]. split; [lia|].
      split; [lia|]. intros j Hj. lia. }
  cbv zeta. destruct (session_get (t + 1)) as [|txt|] eqn:Hresp.
  - destruct (IH (t + 1)%Z (b * 2)%Q
                (ps ++ [(b + random (t + 1) * (1 # 2))%Q])%list ltac:(lia))
      as (text & tries & ps' & Hrun & Hbound & Hspec).
    exists text, tries, ps'. split; [exact Hrun|]. split; [lia|].
    destruct text as [txt|].
    + destruct Hspec as (Hk & Hget & Hfirst). repeat split; try lia; try assumption.
      intros j Hj txt'. destruct (Z.eq_dec j (t + 1)%Z) as [->|Hne];
        [congruence | apply Hfirst; lia].
    + destruct Hspec as [Htries Hnone]. split; [lia|].
      intros j Hj txt'. destruct (Z.eq_dec j (t + 1)%Z) as [->|Hne];
        [congruence | apply Hnone; lia].
  - exists (Some txt), (t + 1)%Z,
      (ps ++ [((1 # 5) + random (t + 1) * (3 # 5))%Q])%list.
    split; [reflexivity|]. split; [lia|].
    repeat split; first [lia | assumption | (intros j Hj; lia)].
  - destruct (IH (t + 1)%Z (Qmin (b * 2) 8) (ps ++ [b])%list ltac:(lia))
      as (text & tries & ps' & Hrun & Hbound & Hspec).
    exists text, tries, ps'. split; [exact Hrun|]. split; [lia|].
    destruct text as [txt|].
    + destruct Hspec as (Hk & Hget & Hfirst). repeat split; try lia; try assumption.
      intros j Hj txt'. destruct (Z.eq_dec j (t + 1)%Z) as [->|Hne];
        [congruence | apply Hfirst; lia].
    + destruct Hspec as [Htries Hnone]. split; [lia|].
      intros j Hj txt'. destruct (Z.eq_dec j (t + 1)%Z) as [->|Hne];
        [congruence | apply Hnone; lia].
Qed.

(** X12: [_get_html] always returns, after at most [max_403_retries + 1]
    requests (none when that number is not positive).  It returns the text
    of the first attempt whose response is neither a 403 nor an error, and
    sends no request after it; it returns nothing exactly when none of the
    [max_403_retries + 1] attempts passes.  The rate limiter is consulted
    once, before the first attempt. *)
Theorem get_html_result (fuel : nat) (rl : RateLimiter) (now after : Q) :
  (Z.to_nat (max_403_retries + 1) < fuel)%nat ->
  exists run,
    get_html fuel rl now after = Some run /\
    (0 <= requests run <= Z.max 0 (max_403_retries + 1))%Z /\
    (limiter_pause run, limiter run) = wait rl now after /\
    match html run with
    | Some text => first_fetched_after 0 (requests run) text
    | None =>
        requests run = Z.max 0 (max_403_retries + 1) /\
        forall j, (1 <= j <= max_403_retries + 1)%Z ->
                  forall txt, session_get j <> Fetched txt
    end.
Proof.
  intros Hfuel. unfold get_html.
  destruct (wait rl now after) as [pause rl'] eqn:Hwait.
  destruct (get_html_loop_spec fuel 0 1 [])
    as (text & tries & ps' & Hrun & Hbound & Hspec).
  { now rewrite Z.sub_0_r. }
  rewrite Hrun. eexists. split; [reflexivity|].
  cbn [requests limiter_pause limiter html]. repeat split; try lia.
  destruct text as [txt|]; [exact Hspec|].
  destruct Hspec as [Htries Hnone]. split; [exact Htries|].
  intros j Hj. apply Hnone. lia.
Qed.

(** *** The pauses of the loop *)

(** The pauses of a run in which every attempt from [t + 1] on meets a
    403, starting with back-off [b]. *)
Fixpoint blocked_pauses (n : nat) (t : Z) (b : Q) : list Q :=
  match n with
  | O => []
  | S n' =>
      (b + random (t + 1) * (1 # 2))%Q :: blocked_pauses n' (t + 1) (b * 2)%Q
  end.

Lemma get_html_loop_all_blocked n fuel t b ps :
  (max_403_retries + 1 - t)%Z = Z.of_nat n -> (n < fuel)%nat ->
  (forall j, (t < j <= max_403_retries + 1)%Z -> session_get j = Blocked) ->
  get_html_loop fuel t b ps
  = Some (None, (max_403_retries + 1)%Z, (ps ++ blocked_pauses n t b)%list).
Proof.
  revert fuel t b ps. induction n as [|n IH]; intros fuel t b ps Hn Hfuel Hall;
    (destruct fuel as [|fuel]; [lia|]); cbn [get_html_loop].
  - destruct (Z.leb_spec t max_403_retries); [lia|].
    cbn [blocked_pauses]. rewrite app_nil_r. do 3 f_equal. lia.
  - destruct (Z.leb_spec t max_403_retries); [|lia].
    cbv zeta. rewrite (Hall (t + 1)%Z) by lia.
    rewrite (IH fuel (t + 1)%Z) by (try lia; intros j Hj; apply Hall; lia).
    cbn [blocked_pauses]. now rewrite <- app_assoc.
Qed.

Lemma blocked_pauses_nth n t b i p :
  nth_error (blocked_pauses n t b) i = Some p ->
  (p == b * inject_Z (2 ^ Z.of_nat i)
        + random (t + 1 + Z.of_nat i) * (1 # 2))%Q.
Proof.
  revert t b i. induction n as [|n IH]; intros t b [|i]; cbn [blocked_pauses nth_error];
    try discriminate.
  - intros [= <-]. rewrite Z.add_0_r. change (2 ^ Z.of_nat 0)%Z with 1%Z.
    rewrite Qmult_1_r. reflexivity.
  - intros Hp. apply IH in Hp. rewrite Hp.
    rewrite Nat2Z.inj_succ, Z.pow_succ_r by lia.
    replace (t + 1 + 1 + Z.of_nat i)%Z with (t + 1 + Z.succ (Z.of_nat i))%Z
      by lia.
    rewrite inject_Z_mult. ring.
Qed.

Lemma blocked_pauses_length n t b : length (blocked_pauses n t b) = n.
Proof.
  revert t b. induction n as [|n IH]; intros t b; cbn [blocked_pauses length];
    [reflexivity|]. now rewrite IH.
Qed.

Lemma get_html_loop_capped fuel t b ps run :
  (forall j, (t < j)%Z -> session_get j <> Blocked) ->
  (forall j, 0 <= random j < 1)%Q ->
  (0 < b <= 8)%Q -> Forall (fun p => p <= 8)%Q ps ->
  get_html_loop fuel t b ps = Some run ->
  Forall (fun p => p <= 8)%Q run.2.
Proof.
  revert t b ps. induction fuel as [|fuel IH]; intros t b ps Hnb Hrand Hb Hps;
    [discriminate|].
  cbn [get_html_loop]. destruct (t <=? max_403_retries)%Z.
  2:{ intros [= <-]. exact Hps. }
  cbv zeta. destruct (session_get (t + 1)) as [|txt|] eqn:Hresp.
  - destruct (Hnb (t + 1)%Z ltac:(lia) Hresp).
  - intros [= <-]. cbn [snd]. apply Forall_app. split; [exact Hps|].
    constructor; [|constructor]. pose proof (Hrand (t + 1)%Z). lra.
  - apply IH.
    + intros j Hj. apply Hnb. lia.
    + exact Hrand.
    + destruct (Q.min_spec (b * 2) 8) as [[Hm ->]|[Hm ->]]; lra.
    + apply Forall_app. split; [exact Hps|]. constructor; [lra|constructor].
Qed.

(** X13: The back-off of the loop: when every attempt meets a 403 the pause
    doubles each time without bound, the [i]-th pause (from 0) being
    [2^i] seconds plus half the random draw of that attempt; when no
    attempt meets a 403 (each fails otherwise, or passes) no pause of the
    loop is longer than 8 seconds. *)
Theorem get_html_backoff (fuel : nat) (rl : RateLimiter) (now after : Q) :
  (Z.to_nat (max_403_retries + 1) < fuel)%nat ->
  ((forall j, (1 <= j <= max_403_retries + 1)%Z -> session_get j = Blocked) ->
   exists run,
     get_html fuel rl now after = Some run /\
     html run = None /\
     length (pauses run) = Z.to_nat (max_403_retries + 1) /\
     forall i p, nth_error (pauses run) i = Some p ->
       (p == inject_Z (2 ^ Z.of_nat i)
             + random (1 + Z.of_nat i) * (1 # 2))%Q)
  /\ ((forall j, session_get j <> Blocked) ->
      (forall j, 0 <= random j < 1)%Q ->
      forall run, get_html fuel rl now after = Some run ->
        Forall (fun p => p <= 8)%Q (pauses run)).
Proof.
  intros Hfuel. split.
  - intros Hall. unfold get_html.
    destruct (wait rl now after) as [pause rl'].
    destruct (Z.le_gt_cases 0 (max_403_retries + 1)) as [Hpos|Hneg].
    + rewrite (get_html_loop_all_blocked (Z.to_nat (max_403_retries + 1))
                 fuel 0 1 []) by (try lia; intros j Hj; apply Hall; lia).
      eexists. split; [reflexivity|]. cbn [html pauses app].
      split; [reflexivity|]. split; [apply blocked_pauses_length|].
      intros i p Hp. apply blocked_pauses_nth in Hp. rewrite Hp.
      rewrite Qmult_1_l. reflexivity.
    + destruct fuel as [|fuel]; [lia|]. cbn [get_html_loop].
      destruct (Z.leb_spec 0 max_403_retries); [lia|].
      eexists. split; [reflexivity|]. cbn [html pauses].
      split; [reflexivity|].
      replace (Z.to_nat (max_403_retries + 1)) with 0%nat by lia.
      split; [reflexivity|]. intros [|i] p; discriminate.
  - intros Hnb Hrand run. unfold get_html.
    destruct (wait rl now after) as [pause rl'].
    destruct (get_html_loop fuel 0 1 []) as [[[text tries] ps]|] eqn:Hloop;
      [|discriminate].
    intros [= <-]. cbn [pauses].
    apply (get_html_loop_capped fuel 0 1 [] (text, tries, ps));
      try assumption.
    + intros j _. apply Hnb.
    + lra.
    + constructor.
Qed.

(** *** [fetch_app] and the cache *)

(** X14: [fetch_app] goes through the cache: a row of ("steamdb_app", appid)
    not older than the TTL is returned decoded, without any request and
    with cache and limiter untouched.  Otherwise [_get_html] runs; a page
    that is missing or empty gives the dict with null [owners],
    [peak_players] and snippet and is not written to the cache (the key has
    no row afterwards, so the next call asks the site again); any other
    page gives its findings with the first 800 characters of the page (a
    prefix of the page of at most 800 characters, whatever their size in
    bytes), and
    that dict is written under the key at the time of the write, so that a
    further call within the TTL of that write is served from the cache
    with no request at all. *)
Theorem fetch_app_through_cache (fuel : nat) (cache : SteamCache)
    (rl : RateLimiter) (now_get now after now_set : Q) (appid : Z) :
  (Z.to_nat (max_403_retries + 1) < fuel)%nat ->
  exists run,
    fetch_app fuel cache rl now_get now after now_set appid = Some run /\
    (forall data_str stored_at,
       table cache !! ("steamdb_app", appid) = Some (data_str, stored_at) ->
       (now_get - stored_at <= inject_Z (ttl_seconds cache))%Q ->
       run = mk_fetch_run (json_loads data_str) cache rl 0)
    /\ ((get steamdb_data json_loads cache now_get "steamdb_app" appid).1
        = None ->
        exists hrun,
          get_html fuel rl now after = Some hrun /\
          fr_requests run = requests hrun /\
          fr_limiter run = limiter hrun /\
          sd_appid (fr_result run) = appid /\
          sd_steamdb_url (fr_result run) = base_url appid /\
          match html hrun with
          | Some (String c text) =>
              sd_owners (fr_result run) = find_owners (String c text) /\
              sd_peak_players (fr_result run)
              = find_peak_players (String c text) /\
              sd_raw_html_snippet (fr_result run)
              = Some (Text.take_chars 800 (String c text)) /\
              (Text.char_length (Text.take_chars 800 (String c text))
               <= 800)%nat /\
              (exists rest,
                 String c text
                 = (Text.take_chars 800 (String c text) ++ rest)%string) /\
              table (fr_cache run) !! ("steamdb_app", appid)
              = Some (json_dumps (fr_result run), now_set) /\
              forall fuel' now_get' now' after' now_set',
                (now_get' - now_set <= inject_Z (ttl_seconds cache))%Q ->
                fetch_app fuel' (fr_cache run) (fr_limiter run)
                          now_get' now' after' now_set' appid
                = Some (mk_fetch_run (json_loads (json_dumps (fr_result run)))
                                     (fr_cache run) (fr_limiter run) 0)
          | _ =>
              fr_result run = mk_steamdb_data appid (base_url appid)
                                              None None None /\
              table (fr_cache run) !! ("steamdb_app", appid) = None /\
              forall k, k <> ("steamdb_app", appid) ->
                        table (fr_cache run) !! k = table cache !! k
          end).
Proof.
  intros Hfuel.
  destruct (get_html_result fuel rl now after Hfuel) as (hrun & Hhtml & _).
  unfold fetch_app. rewrite Hhtml.
  destruct (table cache !! ("steamdb_app", appid)) as [[data_str ts]|] eqn:Hrow.
  - destruct (expired cache now_get ts) eqn:Hexp.
    + (* an expired row: deleted, then as a miss *)
      apply expired_true in Hexp.
      rewrite (get_expired _ _ _ _ _ _ _ _ Hrow Hexp).
      set (cache' := mk_cache (ttl_seconds cache)
                       (delete ("steamdb_app", appid) (table cache))).
      destruct (html hrun) as [[|c text]|] eqn:Hpage.
      * eexists. split; [reflexivity|]. split.
        -- intros s t [= <- <-] Hfresh. lra.
        -- intros _. exists hrun. rewrite Hpage.
           cbn [fr_requests fr_limiter fr_result fr_cache sd_appid
                sd_steamdb_url]. repeat split.
           ++ apply lookup_delete_eq.
           ++ intros k Hk. now apply lookup_delete_ne.
      * eexists. split; [reflexivity|]. split.
        -- intros s t [= <- <-] Hfresh. lra.
        -- intros _. exists hrun. rewrite Hpage.
           cbn [fr_requests fr_limiter fr_result fr_cache sd_appid
                sd_steamdb_url sd_owners sd_peak_players sd_raw_html_snippet].
           do 8 (split; [reflexivity|]).
           split; [apply Text.take_chars_length|].
           split; [apply Text.take_chars_prefix|].
           split.
           ++ apply set_lookup.
           ++ intros fuel' now_get' now' after' now_set' Hfresh.
              unfold fetch_app.
              rewrite (get_fresh _ _ _ _ _ _ _ now_set
                         (set_lookup _ _ _ _ _ _ _)) by exact Hfresh.
              reflexivity.
      * eexists. split; [reflexivity|]. split.
        -- intros s t [= <- <-] Hfresh. lra.
        -- intros _. exists hrun. rewrite Hpage.
           cbn [fr_requests fr_limiter fr_result fr_cache sd_appid
                sd_steamdb_url]. repeat split.
           ++ apply lookup_delete_eq.
           ++ intros k Hk. now apply lookup_delete_ne.
    + (* a fresh row: the hit *)
      apply expired_false in Hexp.
      rewrite (get_fresh _ _ _ _ _ _ _ _ Hrow Hexp).
      eexists. split; [reflexivity|]. split.
      * now intros s t [= <- <-] _.
      * discriminate.
  - rewrite (get_absent _ _ _ _ _ _ Hrow).
    destruct (html hrun) as [[|c text]|] eqn:Hpage.
    + eexists. split; [reflexivity|]. split; [discriminate|].
      intros _. exists hrun. rewrite Hpage.
      cbn [fr_requests fr_limiter fr_result fr_cache sd_appid sd_steamdb_url].
      repeat split. exact Hrow.
    + eexists. split; [reflexivity|]. split; [discriminate|].
      intros _. exists hrun. rewrite Hpage.
      cbn [fr_requests fr_limiter fr_result fr_cache sd_appid
           sd_steamdb_url sd_owners sd_peak_players sd_raw_html_snippet].
      do 8 (split; [reflexivity|]).
      split; [apply Text.take_chars_length|].
      split; [apply Text.take_chars_prefix|].
      split.
      * apply set_lookup.
      * intros fuel' now_get' now' after' now_set' Hfresh.
        unfold fetch_app.
        rewrite (get_fresh _ _ _ _ _ _ _ now_set
                   (set_lookup _ _ _ _ _ _ _)) by exact Hfresh.
        reflexivity.
    + eexists. split; [reflexivity|]. split; [discriminate|].
      intros _. exists hrun. rewrite Hpage.
      cbn [fr_requests fr_limiter fr_result fr_cache sd_appid sd_steamdb_url].
      repeat split. exact Hrow.
Qed.

End Scraper.

(** *** A run of the scraper *)

(** A site that answers 403, then times out, then serves the page. *)
Definition sample_session_get (tries : Z) : response :=
  if (tries =? 1)%Z then Blocked
  else if (tries =? 2)%Z then Failed
  else Fetched "<td>Owners</td><td>1,000,000 - 2,000,000</td>".

Definition sample_random (tries : Z) : Q := 1 # 2.

Definition sample_find_owners (page : string) : option string :=
  if Text.contains "Owners" page then Some "1,000,000 - 2,000,000" else None.

Definition sample_dumps (d : steamdb_data) : string :=
  default "" (sd_owners d).

Definition sample_loads (s : string) : steamdb_data :=
  mk_steamdb_data 570 (base_url 570) (Some s) None None.

Lemma get_html_result_witness :
  exists run,
    get_html 3 sample_session_get sample_random 5 (RateLimit.init 1)
             1000 1000 = Some run /\
    (0 <= requests run <= 4)%Z /\
    html run = Some "<td>Owners</td><td>1,000,000 - 2,000,000</td>".
Proof.
  destruct (get_html_result 3 sample_session_get sample_random 5
              (RateLimit.init 1) 1000 1000 ltac:(vm_compute; lia))
    as (run & Hrun & Hreq & _ & _).
  exists run. split; [exact Hrun|]. split; [exact Hreq|].
  vm_compute in Hrun. injection Hrun as <-. reflexivity.
Defined.

Lemma get_html_backoff_witness :
  exists run,
    get_html 2 (fun _ => Blocked) sample_random 4 (RateLimit.init 1)
             1000 1000 = Some run /\
    html run = None /\ length (pauses run) = 3%nat.
Proof.
  destruct (get_html_backoff 2 (fun _ => Blocked) sample_random 4
              (RateLimit.init 1) 1000 1000 ltac:(vm_compute; lia))
    as [Hblocked _].
  destruct (Hblocked (fun _ _ => eq_refl)) as (run & Hrun & Hnone & Hlen & _).
  exists run. split; [exact Hrun|]. split; [exact Hnone | exact Hlen].
Defined.

Lemma fetch_app_through_cache_witness :
  exists run,
    fetch_app 3 sample_session_get sample_random sample_find_owners
              (fun _ => None) sample_dumps sample_loads 5
              (Cache.init 604800) (RateLimit.init 1) 1000 1000 1000 1003 570
    = Some run /\
    fr_requests run = 3%Z /\
    table (fr_cache run) !! ("steamdb_app", 570%Z)
    = Some (sample_dumps (fr_result run), 1003%Q) /\
    fetch_app 3 sample_session_get sample_random sample_find_owners
              (fun _ => None) sample_dumps sample_loads 0
              (fr_cache run) (fr_limiter run) 4603 4603 4603 4603 570
    = Some (mk_fetch_run (sample_loads (sample_dumps (fr_result run)))
                         (fr_cache run) (fr_limiter run) 0).
Proof.
  destruct (fetch_app_through_cache 3 sample_session_get sample_random
              sample_find_owners (fun _ => None) sample_dumps sample_loads 5
              (Cache.init 604800) (RateLimit.init 1) 1000 1000 1000 1003 570
              ltac:(vm_compute; lia)) as (run & Hrun & _ & Hmiss).
  destruct (Hmiss eq_refl) as (hrun & Hh & Hreq & _ & _ & _ & Hpage).
  vm_compute in Hh. injection Hh as <-.
  cbn [html] in Hpage.
  destruct Hpage as (_ & _ & _ & _ & _ & Hstored & Hagain).
  exists run. split; [exact Hrun|]. split; [exact Hreq|].
  split; [exact Hstored|]. apply Hagain. vm_compute. discriminate.
Defined.

End SteamDB.

(** ** scraper/store_scraper.py : [SteamStoreScraper.fetch_app] *)

Module SteamStore.
Import Cache.

Section Scraper.

(** The result dict of [fetch_app] (sixteen fields read off the response)
    and the JSON codec of the cache. *)
Variable store_data : Type.
Variable json_dumps : store_data -> string.
Variable json_loads : string -> store_data.

(** The request of [fetch_app] and the reading of its response, from
    [safe_get] to the construction of [result]: an exception (of the
    request, of [raise_for_status] or of the decoding), a response without
    a successful entry for the appid, or the result dict. *)
Inductive lookup :=
| Raised
| NotFound
| Found (result : store_data).

Variable request_appdetails : Z -> lookup.

(** How a call of [fetch_app] ends. *)
Inductive outcome :=
| Raise
| Return (result : option store_data).

(** A run of [fetch_app]: how it ends, the cache afterwards, and whether a
    request was sent. *)
Record fetch_run := mk_fetch_run {
  fr_outcome : outcome;
  fr_cache : SteamCache;
  fr_requested : bool
}.

(** [fetch_app]; [now_get] and [now_set] are the clock readings of
    [cache.get] and [cache.set]. *)
Definition fetch_app (cache : SteamCache) (now_get now_set : Q) (appid : Z)
  : fetch_run :=
  let '(cached, cache) :=
    get store_data json_loads cache now_get "store_appdetails" appid in
  match cached with
  | Some data => mk_fetch_run (Return (Some data)) cache false
  | None =>
      match request_appdetails appid with
      | Raised => mk_fetch_run Raise cache true
      | NotFound => mk_fetch_run (Return None) cache true
      | Found result =>
          mk_fetch_run (Return (Some result))
            (set store_data json_dumps cache now_set
                 "store_appdetails" appid result)
            true
      end
  end.

(** X15: The store scraper goes through the cache as well: a row of
    ("store_appdetails", appid) within its TTL is returned decoded and no
    request is sent.  Without such a row one request is sent; when it
    raises, or finds no successful entry, nothing is written and the key has
    no row afterwards; when it finds the app the dict is returned and
    written under the key, and a further call within the TTL of the write
    returns its decoded text without a request.  Rows of other keys are
    never touched. *)
Theorem store_fetch_app_through_cache (cache : SteamCache)
    (now_get now_set : Q) (appid : Z) :
  let run := fetch_app cache now_get now_set appid in
  (forall data_str stored_at,
     table cache !! ("store_appdetails", appid) = Some (data_str, stored_at) ->
     (now_get - stored_at <= inject_Z (ttl_seconds cache))%Q ->
     run = mk_fetch_run (Return (Some (json_loads data_str))) cache false)
  /\ ((get store_data json_loads cache now_get "store_appdetails" appid).1
      = None ->
      fr_requested run = true /\
      match request_appdetails appid with
      | Found result =>
          fr_outcome run = Return (Some result) /\
          table (fr_cache run) !! ("store_appdetails", appid)
          = Some (json_dumps result, now_set) /\
          forall now_get' now_set',
            (now_get' - now_set <= inject_Z (ttl_seconds cache))%Q ->
            fetch_app (fr_cache run) now_get' now_set' appid
            = mk_fetch_run (Return (Some (json_loads (json_dumps result))))
                           (fr_cache run) false
      | NotFound =>
          fr_outcome run = Return None /\
          table (fr_cache run) !! ("store_appdetails", appid) = None
      | Raised =>
          fr_outcome run = Raise /\
          table (fr_cache run) !! ("store_appdetails", appid) = None
      end)
  /\ (forall k, k <> ("store_appdetails", appid) ->
                table (fr_cache run) !! k = table cache !! k).
Proof.
  cbv zeta. unfold fetch_app.
  destruct (table cache !! ("store_appdetails", appid))
    as [[data_str ts]|] eqn:Hrow.
  - destruct (expired cache now_get ts) eqn:Hexp.
    + apply expired_true in Hexp.
      rewrite (get_expired _ _ _ _ _ _ _ _ Hrow Hexp). cbn [fst snd].
      repeat apply conj.
      * intros s t [= <- <-] Hfresh. lra.
      * intros _.
        destruct (request_appdetails appid) as [| |result];
          cbn [fr_requested fr_outcome fr_cache]; repeat split;
          try apply lookup_delete_eq; try apply set_lookup.
        intros now_get' now_set' Hfresh.
        rewrite (get_fresh _ _ _ _ _ _ _ now_set (set_lookup _ _ _ _ _ _ _))
          by exact Hfresh.
        reflexivity.
      * intros k Hk.
        destruct (request_appdetails appid); cbn [fr_cache];
          rewrite ?set_lookup_other by exact Hk; now apply lookup_delete_ne.
    + apply expired_false in Hexp.
      rewrite (get_fresh _ _ _ _ _ _ _ _ Hrow Hexp). cbn [fst snd fr_cache].
      repeat apply conj.
      * now intros s t [= <- <-] _.
      * discriminate.
      * reflexivity.
  - rewrite (get_absent _ _ _ _ _ _ Hrow). cbn [fst snd].
    repeat apply conj.
    + discriminate.
    + intros _.
      destruct (request_appdetails appid) as [| |result];
        cbn [fr_requested fr_outcome fr_cache]; repeat split;
        try exact Hrow; try apply set_lookup.
      intros now_get' now_set' Hfresh.
      rewrite (get_fresh _ _ _ _ _ _ _ now_set (set_lookup _ _ _ _ _ _ _))
        by exact Hfresh.
      reflexivity.
    + intros k Hk.
      destruct (request_appdetails appid); cbn [fr_cache];
        rewrite ?set_lookup_other by exact Hk; reflexivity.
Qed.

End Scraper.

(** A run with booleans as result dicts: the app is found, stored, and an
    hour later served from the cache. *)
Lemma store_fetch_app_through_cache_witness :
  fr_outcome bool (fetch_app bool bool_dumps bool_loads (fun _ => Found bool true)
                     (init 604800) 1000 1001 570)
  = Return bool (Some true)
  /\ fetch_app bool bool_dumps bool_loads (fun _ => Raised bool)
       (fr_cache bool (fetch_app bool bool_dumps bool_loads
                         (fun _ => Found bool true) (init 604800) 1000 1001 570))
       4600 4601 570
     = mk_fetch_run bool (Return bool (Some (bool_loads (bool_dumps true))))
         (fr_cache bool (fetch_app bool bool_dumps bool_loads
                           (fun _ => Found bool true) (init 604800)
                           1000 1001 570))
         false.
Proof.
  pose proof (store_fetch_app_through_cache bool bool_dumps bool_loads
                (fun _ => Found bool true) (init 604800) 1000 1001 570) as H.
  cbv zeta in H. destruct H as (_ & Hmiss & _).
  destruct (Hmiss eq_refl) as (_ & Hout & _ & _).
  split; [exact Hout|].
  pose proof (store_fetch_app_through_cache bool bool_dumps bool_loads
                (fun _ => Raised bool)
                (fr_cache bool (fetch_app bool bool_dumps bool_loads
                   (fun _ => Found bool true) (init 604800) 1000 1001 570))
                4600 4601 570) as H2.
  cbv zeta in H2. destruct H2 as (Hhit & _ & _).
  apply (Hhit (bool_dumps true) 1001%Q).
  - vm_compute. reflexivity.
  - vm_compute. discriminate.
Defined.

End SteamStore.

(** ** collect_panel_for_did.py : [owners_from_steamdb] *)

Module Owners.

(** The value under ['owners'] of a SteamDB dict: a number or a text. *)
Inductive owners_value :=
| OwnersNumber (n : Q)
| OwnersText (text : string).

(** [s.split(sep)] for a one-character separator. *)
Fixpoint split_on (sep : ascii) (s : string) : list string :=
  match s with
  | EmptyString => [EmptyString]
  | String c s' =>
      if Ascii.eqb c sep then EmptyString :: split_on sep s'
      else
        match split_on sep s' with
        | part :: parts => String c part :: parts
        | [] => [String c EmptyString]
        end
  end.

(** [s.replace(c, '')] for a one-character [c]. *)
Fixpoint remove_char (c : ascii) (s : string) : string :=
  match s with
  | EmptyString => EmptyString
  | String a s' =>
      if Ascii.eqb a c then remove_char c s' else String a (remove_char c s')
  end.

(** The ASCII characters [str.strip] removes: tab to carriage return, the
    four separators 0x1c..0x1f, and the space. *)
Definition is_space (c : ascii) : bool :=
  let n := nat_of_ascii c in
  ((9 <=? n) && (n <=? 13) || (28 <=? n) && (n <=? 32))%nat.

Fixpoint lstrip (s : string) : string :=
  match s with
  | String c s' => if is_space c then lstrip s' else s
  | EmptyString => EmptyString
  end.

Fixpoint rstrip (s : string) : string :=
  match s with
  | EmptyString => EmptyString
  | String c s' =>
      match rstrip s' with
      | EmptyString => if is_space c then EmptyString else String c EmptyString
      | rest => String c rest
      end
  end.

(** [s.strip()] *)
Definition strip (s : string) : string := rstrip (lstrip s).

(** The number of occurrences of a character. *)
Fixpoint count_char (c : ascii) (s : string) : nat :=
  match s with
  | EmptyString => 0
  | String a s' => (if Ascii.eqb a c then 1 else 0) + count_char c s'
  end.

Section OwnersFromSteamDB.

(** [float(text)]: the number read, [None] when [float] raises.  Texts
    that [float] reads as an infinity or a NaN are outside the model. *)
Variable py_float : string -> option Q.

(** One bound of the range: [float(part.replace(',', '').strip())]. *)
Definition bound (part : string) : option Q :=
  py_float (strip (remove_char "," part)).

(** [owners_from_steamdb]; the argument is [None] for a missing or empty
    dict, [Some None] for a dict whose ['owners'] is missing or null. *)
Definition owners_from_steamdb (steamdb_data : option (option owners_value))
  : option Q :=
  match steamdb_data with
  | None => None
  | Some None => None
  | Some (Some (OwnersNumber n)) =>
      if Qeq_bool n 0 then None else Some n
  | Some (Some (OwnersText text)) =>
      if String.eqb text "" then None
      else
        match split_on "-" text with
        | [low_part; high_part] =>
            match bound low_part with
            | None => None
            | Some low =>
                match bound high_part with
                | None => None
                | Some high => Some ((low + high) / 2)%Q
                end
            end
        | _ => None
        end
  end.

(** *** Splitting *)

Lemma split_on_length sep s :
  length (split_on sep s) = S (count_char sep s).
Proof.
  induction s as [|c s IH]; [reflexivity|]. cbn [split_on count_char].
  destruct (Ascii.eqb c sep); cbn [length]; [now rewrite IH|].
  destruct (split_on sep s) as [|p ps]; [discriminate|].
  cbn [length] in *. lia.
Qed.

Lemma split_on_single sep s r : split_on sep s = [r] -> s = r.
Proof.
  revert r. induction s as [|c s IH]; intros r; cbn [split_on].
  - now intros [= <-].
  - destruct (Ascii.eqb c sep).
    + intros [= <- Hs]. pose proof (split_on_length sep s) as Hl.
      rewrite Hs in Hl. discriminate.
    + destruct (split_on sep s) as [|p ps] eqn:Hs.
      * pose proof (split_on_length sep s) as Hl. rewrite Hs in Hl.
        discriminate.
      * intros [= <- ->]. now rewrite (IH p eq_refl).
Qed.

Lemma split_on_two sep s l r :
  split_on sep s = [l; r] -> s = (l ++ String sep r)%string.
Proof.
  revert l. induction s as [|c s IH]; intros l; cbn [split_on];
    [discriminate|].
  destruct (Ascii.eqb_spec c sep) as [->|Hne].
  - intros [= <- Hs]. apply split_on_single in Hs. now subst.
  - destruct (split_on sep s) as [|p ps] eqn:Hs; [discriminate|].
    intros [= <- ->]. now rewrite (IH p eq_refl).
Qed.

Lemma split_on_no_sep sep s : count_char sep s = 0%nat -> split_on sep s = [s].
Proof.
  induction s as [|c s IH]; [reflexivity|]. cbn [split_on count_char].
  destruct (Ascii.eqb c sep); [discriminate|].
  intros Hc. now rewrite IH.
Qed.

Lemma split_on_join sep l r :
  count_char sep l = 0%nat -> count_char sep r = 0%nat ->
  split_on sep (l ++ String sep r) = [l; r].
Proof.
  intros Hl Hr. induction l as [|c l IH].
  - change ("" ++ String sep r)%string with (String sep r).
    cbn [split_on]. rewrite Ascii.eqb_refl. now rewrite split_on_no_sep.
  - change (String c l ++ String sep r)%string
      with (String c (l ++ String sep r)).
    cbn [split_on count_char] in *.
    destruct (Ascii.eqb c sep); [discriminate|].
    now rewrite IH.
Qed.

(** X16: Only a text "low-high" with exactly one hyphen gives an estimate: a
    text with no hyphen (a single figure such as "1,234,567") or with
    several gives none, whatever [float] would read in it; with one hyphen
    the estimate is the mean of the two bounds, each read by [float] once
    commas and surrounding blanks are removed, and there is none when
    [float] refuses either; the mean lies between the bounds.  A number is
    returned as it is unless it is zero; a missing dict, missing owners and
    a zero give none. *)
Theorem owners_from_steamdb_ranges_only :
  (forall text : string,
     count_char "-" text <> 1%nat ->
     owners_from_steamdb (Some (Some (OwnersText text))) = None)
  /\ (forall (l r : string) (low high : Q),
        count_char "-" l = 0%nat -> count_char "-" r = 0%nat ->
        bound l = Some low -> bound r = Some high ->
        owners_from_steamdb (Some (Some (OwnersText (l ++ "-" ++ r))))
        = Some ((low + high) / 2)%Q)
  /\ (forall (text : string) (v : Q),
        owners_from_steamdb (Some (Some (OwnersText text))) = Some v ->
        exists l r low high,
          text = (l ++ "-" ++ r)%string /\
          bound l = Some low /\ bound r = Some high /\
          v = ((low + high) / 2)%Q /\
          ((low <= high)%Q -> (low <= v <= high)%Q))
  /\ (forall n : Q,
        owners_from_steamdb (Some (Some (OwnersNumber n)))
        = if Qeq_bool n 0 then None else Some n)
  /\ owners_from_steamdb None = None
  /\ owners_from_steamdb (Some None) = None.
Proof.
  repeat apply conj; try reflexivity.
  - intros text Hcount. cbn [owners_from_steamdb].
    destruct (String.eqb text ""); [reflexivity|].
    pose proof (split_on_length "-" text) as Hlen.
    destruct (split_on "-" text) as [|p [|q [|x xs]]]; try reflexivity.
    cbn [length] in Hlen. lia.
  - intros l r low high Hl Hr Hlow Hhigh. cbn [owners_from_steamdb].
    destruct (String.eqb_spec (l ++ "-" ++ r) "") as [He|_].
    { destruct l; discriminate. }
    change (l ++ "-" ++ r)%string with (l ++ String "-" r)%string.
    now rewrite (split_on_join "-" l r Hl Hr), Hlow, Hhigh.
  - intros text v. cbn [owners_from_steamdb].
    destruct (String.eqb text ""); [discriminate|].
    destruct (split_on "-" text) as [|l [|r [|x xs]]] eqn:Hs; try discriminate.
    destruct (bound l) as [low|] eqn:Hlow; [|discriminate].
    destruct (bound r) as [high|] eqn:Hhigh; [|discriminate].
    intros [= <-]. exists l, r, low, high.
    split; [now apply split_on_two|].
    split; [exact Hlow|]. split; [exact Hhigh|]. split; [reflexivity|].
    intros Hle. split.
    + apply Qle_shift_div_l; lra.
    + apply Qle_shift_div_r; lra.
Qed.

End OwnersFromSteamDB.

(** A reader of unsigned decimal figures, standing in for [float] in the
    run below. *)
Definition sample_float (text : string) : option Q :=
  if String.eqb text "" then None
  else option_map inject_Z (Panel.digits_value text 0).

Lemma owners_from_steamdb_ranges_only_witness :
  owners_from_steamdb sample_float (Some (Some (OwnersText "1,234,567")))
  = None
  /\ owners_from_steamdb sample_float
       (Some (Some (OwnersText "1,000,000 - 2,000,000")))
     = Some ((1000000 + 2000000) / 2)%Q.
Proof.
  destruct (owners_from_steamdb_ranges_only sample_float)
    as (Hnone & Hrange & _).
  split.
  - apply Hnone. vm_compute. discriminate.
  - apply (Hrange "1,000,000 " " 2,000,000" 1000000%Q 2000000%Q);
      reflexivity.
Defined.

End Owners.

(** ** The API key file *)

Module ApiKey.
Import Owners.

(** [read_api_key]: [file] is the text of the file at [path], [None] when
    the path does not exist. *)
Definition read_api_key (file : option string) : option string :=
  match file with
  | None => None
  | Some text =>
      let key := strip text in
      if String.eqb key "" then None else Some key
  end.

(** A text of blanks only. *)
Fixpoint blank (s : string) : bool :=
  match s with
  | EmptyString => true
  | String c s' => is_space c && blank s'
  end.

Lemma lstrip_blank s : lstrip s = "" <-> blank s = true.
Proof.
  induction s as [|c s IH]; cbn [lstrip blank]; [easy|].
  destruct (is_space c); cbn [andb]; [exact IH | easy].
Qed.

Lemma rstrip_blank s : rstrip s = "" <-> blank s = true.
Proof.
  induction s as [|c s IH]; cbn [rstrip blank]; [easy|].
  destruct (rstrip s) as [|d rest].
  - destruct (is_space c); cbn [andb]; [|easy].
    split; intros _; [now apply IH | reflexivity].
  - destruct (is_space c); cbn [andb]; [|easy].
    split; [discriminate|]. intros Hb. now apply IH in Hb.
Qed.

Lemma lstrip_head s c t : lstrip s = String c t -> is_space c = false.
Proof.
  induction s as [|a s IH]; cbn [lstrip]; [discriminate|].
  destruct (is_space a) eqn:Ha; [exact IH|].
  now intros [= <- _].
Qed.

Lemma lstrip_blank_tail s : blank (lstrip s) = blank s.
Proof.
  induction s as [|c s IH]; cbn [lstrip]; [reflexivity|].
  destruct (is_space c) eqn:Hc; [|reflexivity].
  cbn [blank]. now rewrite Hc, IH.
Qed.

Lemma rstrip_idem s : rstrip (rstrip s) = rstrip s.
Proof.
  induction s as [|c s IH]; [reflexivity|]. cbn [rstrip].
  destruct (rstrip s) as [|d rest] eqn:Hs.
  - destruct (is_space c) eqn:Hc; [reflexivity|].
    cbn [rstrip]. now rewrite Hc.
  - change (rstrip (String c (String d rest)))
      with (match rstrip (String d rest) with
            | EmptyString =>
                if is_space c then EmptyString else String c EmptyString
            | String e rest' => String c (String e rest')
            end).
    now rewrite IH.
Qed.

Lemma rstrip_head c t :
  is_space c = false -> exists u, rstrip (String c t) = String c u.
Proof.
  intros Hc. cbn [rstrip]. rewrite Hc.
  destruct (rstrip t) as [|d rest]; eauto.
Qed.

Lemma strip_fixed s : lstrip (strip s) = strip s /\ rstrip (strip s) = strip s.
Proof.
  unfold strip. split; [|apply rstrip_idem].
  destruct (lstrip s) as [|c t] eqn:Hs; [reflexivity|].
  pose proof (lstrip_head s c t Hs) as Hc.
  destruct (rstrip_head c t Hc) as [u ->]. cbn [lstrip]. now rewrite Hc.
Qed.

Lemma strip_blank s : strip s = "" <-> blank s = true.
Proof. unfold strip. now rewrite rstrip_blank, lstrip_blank_tail. Qed.

(** X17: The key read is the text of the file stripped: it is never empty and
    has no blank at either end (stripping it again, on the left or on the
    right, changes nothing); no key is read exactly when the file is missing
    or holds blanks only. *)
Theorem read_api_key_stripped (file : option string) :
  match read_api_key file with
  | Some key =>
      key <> "" /\ lstrip key = key /\ rstrip key = key /\
      exists text, file = Some text /\ key = strip text /\ blank text = false
  | None =>
      file = None \/ exists text, file = Some text /\ blank text = true
  end.
Proof.
  destruct file as [text|]; cbn [read_api_key]; [|now left].
  destruct (String.eqb_spec (strip text) "") as [He|Hne].
  - right. exists text. split; [reflexivity|]. now apply strip_blank.
  - destruct (strip_fixed text) as [Hl Hr].
    repeat split; try assumption.
    exists text. repeat split.
    destruct (blank text) eqn:Hb; [|reflexivity].
    now apply strip_blank in Hb.
Qed.

End ApiKey.

(** ** The rows of the panel over time *)

Module PanelFacts.
Import Dates Extractor Panel.

(** *** Month arithmetic *)

(** Months counted from year 0: [add_months] moves the count by [k]. *)
Lemma add_months_index (d : datetime) (k : Z) :
  (year (add_months d k) * 12 + (month (add_months d k) - 1)
   = year d * 12 + (month d - 1) + k)%Z.
Proof.
  unfold add_months. cbn [year month].
  pose proof (Z.div_mod (year d * 12 + (month d - 1) + k) 12). lia.
Qed.

Lemma add_months_day_1 (d : datetime) (k : Z) :
  day d = 1%Z -> day (add_months d k) = 1%Z.
Proof.
  intros Hd. unfold add_months. cbn [day]. rewrite Hd.
  pose proof (days_in_month_pos
    ((year d * 12 + (month d - 1) + k) / 12)
    ((year d * 12 + (month d - 1) + k) mod 12 + 1)). lia.
Qed.

Lemma add_months_add (d : datetime) (j k : Z) :
  day d = 1%Z -> add_months (add_months d j) k = add_months d (j + k).
Proof.
  intros Hd.
  pose proof (add_months_index d j) as Hidx.
  pose proof (add_months_day_1 d j Hd) as Hd'.
  unfold add_months at 1. cbv zeta. rewrite Hidx, Hd'.
  unfold add_months. cbn [hour minute second microsecond]. rewrite Hd.
  now replace (year d * 12 + (month d - 1) + j + k)%Z
    with (year d * 12 + (month d - 1) + (j + k))%Z by lia.
Qed.

(** A later offset gives a later stamp. *)
Lemma add_months_later (d : datetime) (k : Z) :
  (1 <= month d)%Z -> (0 < k)%Z -> dt_compare d (add_months d k) = Lt.
Proof.
  intros Hm Hk.
  pose proof (add_months_index d k) as Hidx.
  pose proof (add_months_month_range d k) as Hrange.
  unfold dt_compare, dt_fields. cbn [lex_compare].
  destruct (Z.compare_spec (year d) (year (add_months d k))) as [Hy|Hy|Hy].
  - destruct (Z.compare_spec (month d) (month (add_months d k)))
      as [Hmm|Hmm|Hmm]; [lia | reflexivity | lia].
  - reflexivity.
  - lia.
Qed.

Section Rows.

(** The environment of [build_panel], as in the section above. *)
Variable to_datetime : list string -> list (option datetime).
Variable fromisoformat : string -> option datetime.
Variable strptime_ymd_hms : string -> option datetime.
Variable fetch_monthly_series : Z -> list raw_point.
Variable Json : Type.
Variable StoreData : Type.
Variable store_fetch_app : Z -> option StoreData.
Variable store_name : StoreData -> option Json.
Variable store_metacritic : StoreData -> option Json.
Variable SteamDBData : Type.
Variable steamdb_fetch_app : Z -> option SteamDBData.
Variable owners_from_steamdb : option SteamDBData -> option Q.

Local Abbreviation locals_of :=
  (game_locals_of to_datetime fromisoformat strptime_ymd_hms
     fetch_monthly_series Json StoreData store_fetch_app store_metacritic
     SteamDBData steamdb_fetch_app owners_from_steamdb).
Local Abbreviation row_of := (panel_row_of Json StoreData store_name).
Local Abbreviation rows_of :=
  (game_rows to_datetime fromisoformat strptime_ymd_hms
     fetch_monthly_series Json StoreData store_fetch_app store_name
     store_metacritic SteamDBData steamdb_fetch_app owners_from_steamdb).
Local Abbreviation frame_of appid :=
  (normalize_series to_datetime (fetch_monthly_series appid)).
Local Abbreviation last_major :=
  (extract_last_major_date fromisoformat strptime_ymd_hms).
Local Abbreviation anchor_of g := (anchor Json StoreData g).

Lemma locals_event_month patch_summary appid :
  gl_event_month Json StoreData (locals_of patch_summary appid)
  = fmap first_of_month (last_major patch_summary appid).
Proof.
  unfold game_locals_of. cbv zeta.
  now destruct (extract_last_major_date _ _ patch_summary appid).
Qed.

Lemma locals_frame patch_summary appid :
  gl_df_series Json StoreData (locals_of patch_summary appid) = frame_of appid.
Proof.
  unfold game_locals_of. cbv zeta.
  now destruct (extract_last_major_date _ _ patch_summary appid).
Qed.

(** Every month of a frame is the month of a stamp the date parser gave. *)
Lemma frame_month_parsed series k :
  In (Some k) (map sr_ym (normalize_series to_datetime series)) ->
  exists d, In (Some d) (to_datetime (map rp_date series)) /\
            k = first_of_month d.
Proof.
  rewrite normalize_series_ym, in_map_iff. intros (k' & [= ->] & Hk).
  apply group_keys_In in Hk as [p Hp]. unfold with_ym in Hp.
  apply in_combine_l, in_map_iff in Hp as ([d|] & Hd & Hin); [|discriminate].
  injection Hd as <-. now exists d.
Qed.

Lemma anchor_first_of_month patch_summary appid a :
  anchor_of (locals_of patch_summary appid) = Some a -> first_of_month a = a.
Proof.
  unfold anchor. rewrite locals_event_month, locals_frame.
  destruct (last_major patch_summary appid) as [dt|];
    cbn [fmap option_fmap option_map].
  - now intros [= <-].
  - intros Hmax. apply ym_max_spec in Hmax as [Hin _].
    now apply (normalize_series_month_first to_datetime
                 (fetch_monthly_series appid)).
Qed.

(** X18: The nine rows of a game with an anchor month stand for nine consecutive
    calendar months: the month of the row at [rel + 1] is the calendar
    month after the month of the row at [rel], December being followed by
    January of the next year, so the months of the rows strictly increase
    with [rel_month]. *)
Theorem game_rows_consecutive_months
    (patch_summary : gmap pykey game_summary) (appid : Z) (a : datetime) :
  anchor_of (locals_of patch_summary appid) = Some a ->
  forall rel : Z,
    let d := add_months a rel in
    let d' := add_months a (rel + 1) in
    row_month Json (row_of (locals_of patch_summary appid) rel)
    = Some (strftime_ym d) /\
    row_month Json (row_of (locals_of patch_summary appid) (rel + 1))
    = Some (strftime_ym d') /\
    d' = add_months d 1 /\
    (1 <= month d <= 12)%Z /\
    ((month d < 12)%Z -> year d' = year d /\ month d' = (month d + 1)%Z) /\
    (month d = 12%Z -> year d' = (year d + 1)%Z /\ month d' = 1%Z) /\
    day d = 1%Z /\ day d' = 1%Z /\
    dt_compare d d' = Lt.
Proof.
  intros Ha rel d d'. subst d d'.
  pose proof (anchor_first_of_month _ _ _ Ha) as Hfirst.
  assert (day a = 1%Z) as Hday by (rewrite <- Hfirst; reflexivity).
  assert (add_months a (rel + 1) = add_months (add_months a rel) 1) as Hstep
    by (symmetry; now apply add_months_add).
  pose proof (add_months_month_range a rel) as Hrange.
  pose proof (add_months_month_range a (rel + 1)) as Hrange'.
  pose proof (add_months_index (add_months a rel) 1) as Hidx.
  rewrite <- Hstep in Hidx.
  split; [now rewrite panel_row_of_month, Ha|].
  split; [now rewrite panel_row_of_month, Ha|].
  split; [exact Hstep|]. split; [lia|]. split; [lia|]. split; [lia|].
  split; [now apply add_months_day_1|].
  split; [now apply add_months_day_1|].
  rewrite Hstep. apply add_months_later; lia.
Qed.

(** X19: A control game is anchored at the latest month of its own series, so
    its rows never look past it: every row with [rel_month > 0] has null
    [avg_players] and [peak_players], and the row with [rel_month = 0]
    carries the values of the latest month of the frame. *)
Theorem control_rows_stop_at_latest_month
    (patch_summary : gmap pykey game_summary) (appid : Z) :
  (forall d, In (Some d) (to_datetime
                            (map rp_date (fetch_monthly_series appid))) ->
             (1 <= month d <= 12)%Z) ->
  last_major patch_summary appid = None ->
  (forall row, In row (rows_of patch_summary appid) ->
     (0 < row_rel_month Json row)%Z ->
     row_avg_players Json row = None /\ row_peak_players Json row = None)
  /\ (forall latest, ym_max (frame_of appid) = Some latest ->
        exists r, In r (frame_of appid) /\ sr_ym r = Some latest /\
          row_month Json (row_of (locals_of patch_summary appid) 0)
          = Some (strftime_ym latest) /\
          row_avg_players Json (row_of (locals_of patch_summary appid) 0)
          = sr_avg r /\
          row_peak_players Json (row_of (locals_of patch_summary appid) 0)
          = sr_peak r).
Proof.
  intros Hvalid Hnone.
  assert (anchor_of (locals_of patch_summary appid) = ym_max (frame_of appid))
    as Ha
    by (unfold anchor; now rewrite locals_event_month, locals_frame, Hnone).
  assert (forall latest, ym_max (frame_of appid) = Some latest ->
            (1 <= month latest <= 12)%Z) as Hmonth.
  { intros latest Hmax. apply ym_max_spec in Hmax as [Hin _].
    apply frame_month_parsed in Hin as (d & Hd & ->).
    exact (Hvalid d Hd). }
  split.
  - intros row Hrow Hrel.
    apply game_rows_In in Hrow as (rel & _ & ->).
    rewrite panel_row_of_rel in Hrel.
    destruct (ym_max (frame_of appid)) as [latest|] eqn:Hmax.
    + apply (panel_row_of_missing _ _ _ _ rel latest Ha).
      rewrite locals_frame. intros r Hr Hym.
      destruct (ym_max_spec _ _ Hmax) as [_ Hle].
      assert (dt_le (add_months latest rel) latest) as Hback
        by (apply Hle; rewrite <- Hym; now apply in_map).
      apply Hback. rewrite dt_compare_antisym.
      rewrite add_months_later; [reflexivity | | exact Hrel].
      specialize (Hmonth latest eq_refl). lia.
    + now apply panel_row_of_no_anchor.
  - intros latest Hmax. rewrite Hmax in Ha.
    destruct (ym_max_spec _ _ Hmax) as [Hin _].
    pose proof Hin as Hin'.
    apply in_map_iff in Hin' as (r & Hr & Hrin). exists r.
    assert (add_months latest 0 = latest) as Hzero.
    { pose proof (normalize_series_month_first to_datetime _ _ Hin) as Hf.
      rewrite <- Hf. apply add_months_0. now apply Hmonth. }
    split; [exact Hrin|]. split; [exact Hr|]. split.
    + rewrite panel_row_of_month, Ha. cbn [fmap option_fmap option_map].
      now rewrite Hzero.
    + apply (panel_row_of_found _ _ _ _ 0%Z latest r Ha).
      * rewrite locals_frame, normalize_series_ym.
        apply Some_inj_NoDup, sorted_lt_NoDup, group_keys_sorted.
      * now rewrite locals_frame.
      * now rewrite Hzero.
Qed.

End Rows.

(** On the run of the section above: the rows of the treated game 570,
    anchored at June 2024, at [rel_month] 3 and 4 stand for September and
    October 2024. *)
Lemma game_rows_consecutive_months_witness :
  row_month string
    (sample_panel_row_of (sample_game_locals_of sample_patch_summary 570) 3)
  = Some "2024-09"
  /\ row_month string
       (sample_panel_row_of (sample_game_locals_of sample_patch_summary 570) 4)
     = Some "2024-10".
Proof.
  pose proof (game_rows_consecutive_months sample_to_datetime sample_parse
    sample_parse sample_series string unit (fun _ => None) (fun _ => None)
    (fun _ => None) unit (fun _ => None) (fun _ => None)
    sample_patch_summary 570%Z (mk_datetime 2024 6 1 0 0 0 0) eq_refl 3%Z)
    as H.
  cbv zeta in H. destruct H as (H3 & H4 & _).
  split.
  - etransitivity; [exact H3 | vm_compute; reflexivity].
  - etransitivity; [exact H4 | vm_compute; reflexivity].
Defined.

(** The control game 730 of the run, whose series ends in January 2024:
    its rows after [rel_month = 0] are empty, and the row at 0 carries the
    merged values of January. *)
Lemma control_rows_stop_at_latest_month_witness :
  (forall row, In row (sample_game_rows sample_patch_summary 730) ->
     (0 < row_rel_month string row)%Z ->
     row_avg_players string row = None /\
     row_peak_players string row = None)
  /\ row_avg_players string
       (sample_panel_row_of (sample_game_locals_of sample_patch_summary 730) 0)
     = Some 15%Q.
Proof.
  assert (forall d,
            In (Some d) (sample_to_datetime (map rp_date (sample_series 730))) ->
            (1 <= month d <= 12)%Z) as Hvalid.
  { intros d Hd. vm_compute in Hd.
    destruct Hd as [[= <-]|[[= <-]|[[= <-]|[]]]]; cbn [month]; lia. }
  destruct (control_rows_stop_at_latest_month sample_to_datetime sample_parse
    sample_parse sample_series string unit (fun _ => None) (fun _ => None)
    (fun _ => None) unit (fun _ => None) (fun _ => None)
    sample_patch_summary 730%Z Hvalid eq_refl) as [Hrows Hzero].
  split; [exact Hrows|].
  destruct (Hzero (mk_datetime 2024 1 1 0 0 0 0) eq_refl)
    as (r & Hr & Hym & _ & Havg & _).
  transitivity (sr_avg r); [exact Havg|]. vm_compute in Hr.
  destruct Hr as [<-|[<-|[]]]; [discriminate Hym | reflexivity].
Defined.

End PanelFacts.

(** ** compare_updates.py : recent updates and owners figures *)

Module CompareUpdates.
Import Text Dates Extractor.

(** The patterns of [looks_like_update].  Each one is a literal text (the
    pattern [v\.] reads the two characters "v."), so [re.search] is a
    substring test. *)
Definition kws : list string :=
  ["patch"; "update"; "hotfix"; "patch notes"; "update notes"; "version";
   "v."; "beta"].

(** [looks_like_update] *)
Definition looks_like_update (item : news_item) : bool :=
  let txt :=
    lower (default "" (ni_title item) ++ " " ++ default "" (ni_contents item))
  in
  any_in kws txt.

(** What a call gives: a value, or an exception that leaves the function. *)
Inductive outcome (A : Type) :=
| Raise
| Return (value : A).
Arguments Raise {A}.
Arguments Return {A} value.

Section RecentUpdate.

(** [datetime.utcfromtimestamp]; [None] when it raises. *)
Variable utcfromtimestamp : Z -> option datetime.

(** [fetch_news_for_app]; [None] when it raises. *)
Variable request_news : Z -> option (list news_item).

(** [datetime.utcnow() - timedelta(days=months * 30)] *)
Variable cutoff : datetime.

(** The loop [for it in items] of [had_recent_update]. *)
Fixpoint scan (items : list news_item) : outcome bool :=
  match items with
  | [] => Return false
  | it :: items' =>
      match ni_date it with
      | None => scan items'
      | Some ts =>
          if (ts =? 0)%Z then scan items'
          else
            match utcfromtimestamp ts with
            | None => Raise
            | Some dt =>
                if negb (dt_ltb dt cutoff) then
                  if looks_like_update it || true then Return true
                  else scan items'
                else scan items'
            end
      end
  end.

(** [had_recent_update] *)
Definition had_recent_update (appid : Z) : outcome bool :=
  match request_news appid with
  | None => Return false
  | Some items => scan items
  end.

(** An item with its title and contents taken away. *)
Definition without_text (it : news_item) : news_item :=
  mk_news_item (ni_date it) None None.

(** An item the loop passes over: undated, dated 0, or dated before the
    cutoff. *)
Definition passed_over (it : news_item) : Prop :=
  ni_date it = None \/ ni_date it = Some 0%Z \/
  exists ts dt,
    ni_date it = Some ts /\ utcfromtimestamp ts = Some dt /\
    dt_ltb dt cutoff = true.

Lemma scan_passed_over it items :
  passed_over it -> scan (it :: items) = scan items.
Proof.
  intros [Hd|[Hd|(ts & dt & Hd & Hutc & Hlt)]]; cbn [scan]; rewrite Hd.
  - reflexivity.
  - reflexivity.
  - destruct (ts =? 0)%Z; [reflexivity|]. now rewrite Hutc, Hlt.
Qed.

(** X20: The texts of the news play no part in [had_recent_update]: the answer
    is the same once every title and contents is taken away.  The first
    item dated at or after the cutoff makes the game updated, whatever the
    item says; a list of items that are all passed over gives [False], and
    so does a fetch that raises. *)
Theorem had_recent_update_any_news :
  (forall items, scan items = scan (map without_text items))
  /\ (forall pre it post ts dt,
        Forall passed_over pre ->
        ni_date it = Some ts -> ts <> 0%Z ->
        utcfromtimestamp ts = Some dt -> dt_ltb dt cutoff = false ->
        scan (pre ++ it :: post)%list = Return true)
  /\ (forall items, Forall passed_over items -> scan items = Return false)
  /\ (forall appid,
        request_news appid = None -> had_recent_update appid = Return false).
Proof.
  repeat apply conj.
  - induction items as [|it items IH]; [reflexivity|].
    cbn [map scan without_text ni_date].
    destruct (ni_date it) as [ts|]; [|exact IH].
    destruct (ts =? 0)%Z; [exact IH|].
    destruct (utcfromtimestamp ts) as [dt|]; [|reflexivity].
    destruct (negb (dt_ltb dt cutoff)); [|exact IH].
    now rewrite !orb_true_r.
  - intros pre it post ts dt Hpre Hd Hts Hutc Hlt.
    induction Hpre as [|x pre Hx _ IH].
    + cbn [app scan]. rewrite Hd.
      destruct (Z.eqb_spec ts 0) as [|_]; [contradiction|].
      rewrite Hutc, Hlt. cbn [negb]. now rewrite orb_true_r.
    + cbn [app]. now rewrite scan_passed_over.
  - intros items Hall. induction Hall as [|x items Hx _ IH]; [reflexivity|].
    now rewrite scan_passed_over.
  - intros appid Hnone. unfold had_recent_update. now rewrite Hnone.
Qed.

End RecentUpdate.

(** A run: the cutoff is 2024-01-01; an item of 2020 is passed over, and
    the roadmap of June 2024, which does not look like an update, makes the
    game updated. *)
Lemma had_recent_update_any_news_witness :
  looks_like_update
    (mk_news_item (Some 1717200000%Z) (Some "Roadmap")
                  (Some "Our plans for next year")) = false
  /\ scan sample_utcfromtimestamp (mk_datetime 2024 1 1 0 0 0 0)
       [mk_news_item (Some 1577836800%Z) (Some "Expansion announced")
                     (Some "Long ago");
        mk_news_item (Some 1717200000%Z) (Some "Roadmap")
                     (Some "Our plans for next year")]
     = Return true.
Proof.
  split; [reflexivity|].
  destruct (had_recent_update_any_news sample_utcfromtimestamp
              (fun _ => None) (mk_datetime 2024 1 1 0 0 0 0))
    as (_ & Hfirst & _).
  apply (Hfirst
    [mk_news_item (Some 1577836800%Z) (Some "Expansion announced")
                  (Some "Long ago")]
    (mk_news_item (Some 1717200000%Z) (Some "Roadmap")
                  (Some "Our plans for next year"))
    [] 1717200000%Z (mk_datetime 2024 6 1 0 0 0 0)).
  - constructor; [|constructor]. right; right.
    exists 1577836800%Z, (mk_datetime 2020 1 1 0 0 0 0).
    repeat split; reflexivity.
  - reflexivity.
  - discriminate.
  - reflexivity.
  - reflexivity.
Defined.

(** *** Owners figures *)

(** The en dash and the em dash, as their UTF-8 bytes. *)
Definition en_dash : string :=
  String (ascii_of_nat 226) (String (ascii_of_nat 128)
    (String (ascii_of_nat 147) EmptyString)).
Definition em_dash : string :=
  String (ascii_of_nat 226) (String (ascii_of_nat 128)
    (String (ascii_of_nat 148) EmptyString)).

(** [s.replace(old, new)] for a non-empty [old]: the occurrences are taken
    from the left and do not overlap; [skip] counts the characters of an
    occurrence that are still to be dropped. *)
Fixpoint replace_from (old new : string) (skip : nat) (s : string) : string :=
  match s with
  | EmptyString => EmptyString
  | String c s' =>
      match skip with
      | S k => replace_from old new k s'
      | O =>
          if startswith old s
          then (new ++ replace_from old new (String.length old - 1) s')%string
          else String c (replace_from old new 0 s')
      end
  end.

Definition replace (old new s : string) : string := replace_from old new 0 s.

(** The characters of the class [[\d,]] (ASCII digits; other decimal
    digits are outside the model). *)
Definition is_digit (c : ascii) : bool :=
  let n := nat_of_ascii c in (48 <=? n)%nat && (n <=? 57)%nat.

Definition in_class (c : ascii) : bool := is_digit c || Ascii.eqb c ",".

(** [re.findall(r"[\d,]+", s)]: the maximal runs of digits and commas. *)
Fixpoint findall (s : string) : list string :=
  match s with
  | EmptyString => []
  | String c s' =>
      if in_class c then
        match s' with
        | String c' _ =>
            if in_class c' then
              match findall s' with
              | run :: runs => String c run :: runs
              | [] => [String c EmptyString]
              end
            else String c EmptyString :: findall s'
        | EmptyString => [String c EmptyString]
        end
      else findall s'
  end.

(** [float(n.replace(",", ""))] on a run: [None] when [float] raises, which
    it does on the empty text.  The number is kept exact. *)
Definition float_of_run (n : string) : option Q :=
  let t := Owners.remove_char "," n in
  if String.eqb t "" then None
  else option_map inject_Z (Panel.digits_value t 0).

(** The dashes normalized. *)
Definition normalize_dashes (s : string) : string :=
  replace em_dash "-" (replace en_dash "-" s).

(** [parse_owners_value] *)
Definition parse_owners_value (s : option string) : outcome (option Q) :=
  match s with
  | None => Return None
  | Some s =>
      if String.eqb s "" then Return None
      else
        let s := normalize_dashes s in
        let nums := findall s in
        match nums with
        | [] => Return None
        | _ :: _ =>
            match mapM float_of_run nums with
            | None => Raise
            | Some values =>
                if contains "-" s && (2 <=? length values)%nat then
                  match values with
                  | v0 :: v1 :: _ => Return (Some ((v0 + v1) / 2)%Q)
                  | _ => Raise
                  end
                else
                  match values with
                  | v0 :: _ => Return (Some v0)
                  | [] => Raise
                  end
            end
        end
  end.

Fixpoint all_chars (p : ascii -> bool) (s : string) : bool :=
  match s with
  | EmptyString => true
  | String c s' => p c && all_chars p s'
  end.

(** Every run found is a non-empty text of digits and commas. *)
Lemma findall_runs s :
  Forall (fun n => n <> "" /\ all_chars in_class n = true) (findall s).
Proof.
  induction s as [|c s IH]; cbn [findall]; [constructor|].
  destruct (in_class c) eqn:Hc; [|exact IH].
  assert (String c "" <> "" /\ all_chars in_class (String c "") = true)
    as Hone by (split; [discriminate | cbn [all_chars]; now rewrite Hc]).
  destruct s as [|c' s']; [now repeat constructor|].
  destruct (in_class c') eqn:Hc'; [|now constructor].
  destruct (findall (String c' s')) as [|run runs]; [now repeat constructor|].
  inversion IH as [|? ? [Hne Hall] Hrest]; subst.
  constructor; [|exact Hrest].
  split; [discriminate|]. cbn [all_chars]. now rewrite Hc, Hall.
Qed.

Lemma digit_of_nonneg c d : Panel.digit_of c = Some d -> (0 <= d)%Z.
Proof.
  unfold Panel.digit_of. cbv zeta.
  destruct (_ && _); [|discriminate]. intros [= <-]. lia.
Qed.

Lemma digits_value_nonneg s :
  forall acc z, (0 <= acc)%Z -> Panel.digits_value s acc = Some z -> (0 <= z)%Z.
Proof.
  induction s as [|c s IH]; intros acc z Hacc; cbn [Panel.digits_value].
  - now intros [= <-].
  - destruct (Panel.digit_of c) as [d|] eqn:Hd; [|discriminate].
    apply digit_of_nonneg in Hd. apply IH. lia.
Qed.

Lemma digits_value_digits t :
  forall acc, all_chars is_digit t = true ->
              exists z, Panel.digits_value t acc = Some z.
Proof.
  induction t as [|c t IH]; intros acc; cbn [all_chars Panel.digits_value].
  - now exists acc.
  - intros [Hc Ht]%andb_true_iff.
    unfold Panel.digit_of. cbv zeta. unfold is_digit in Hc. cbv zeta in Hc.
    rewrite Hc. now apply IH.
Qed.

Lemma remove_commas_digits n :
  all_chars in_class n = true ->
  all_chars is_digit (Owners.remove_char "," n) = true.
Proof.
  induction n as [|c n IH]; [reflexivity|].
  cbn [all_chars Owners.remove_char]. unfold in_class at 1.
  intros [Hc Hn]%andb_true_iff.
  destruct (Ascii.eqb c ","); [now apply IH|].
  rewrite orb_false_r in Hc. cbn [all_chars]. now rewrite Hc, IH.
Qed.

Lemma float_of_run_nonneg n v : float_of_run n = Some v -> (0 <= v)%Q.
Proof.
  unfold float_of_run. cbv zeta.
  destruct (String.eqb _ ""); [discriminate|].
  destruct (Panel.digits_value _ 0) as [z|] eqn:Hz; [|discriminate].
  cbn [option_map]. intros [= <-].
  apply digits_value_nonneg in Hz; [|lia].
  unfold Qle. cbn. lia.
Qed.

Lemma float_of_run_None n :
  all_chars in_class n = true ->
  float_of_run n = None <-> Owners.remove_char "," n = "".
Proof.
  intros Hn. unfold float_of_run. cbv zeta.
  destruct (String.eqb_spec (Owners.remove_char "," n) "") as [He|Hne].
  - easy.
  - destruct (digits_value_digits _ 0%Z (remove_commas_digits n Hn)) as [z ->].
    cbn [option_map]. split; [discriminate | contradiction].
Qed.

Lemma mapM_float_nonneg nums values :
  mapM float_of_run nums = Some values -> Forall (fun v => (0 <= v)%Q) values.
Proof.
  intros H%mapM_Some_1. induction H as [|n v nums values Hv _ IH];
    constructor; [now apply (float_of_run_nonneg n) | exact IH].
Qed.

(** X21: A figure that is returned is never negative: no sign is read, so the
    text "-5" gives 5. *)
Theorem parse_owners_value_never_negative (s : option string) (v : Q) :
  parse_owners_value s = Return (Some v) -> (0 <= v)%Q.
Proof.
  destruct s as [s|]; cbn [parse_owners_value]; [|discriminate].
  destruct (String.eqb s ""); [discriminate|]. cbv zeta.
  destruct (findall (normalize_dashes s)) as [|n nums] eqn:Hf; [discriminate|].
  destruct (mapM float_of_run (n :: nums)) as [values|] eqn:Hm;
    [|discriminate].
  apply mapM_float_nonneg in Hm.
  destruct (contains "-" (normalize_dashes s) && (2 <=? length values)%nat).
  - destruct values as [|v0 [|v1 rest]]; try discriminate.
    intros [= <-]. inversion Hm as [|? ? H0 Hm']; subst.
    inversion Hm' as [|? ? H1 _]; subst.
    apply Qle_shift_div_l; lra.
  - destruct values as [|v0 rest]; [discriminate|].
    intros [= <-]. now inversion Hm.
Qed.

(** X22: On a non-empty text: no figure is returned exactly when the text holds
    no digit and no comma; the call raises exactly when some run of digits
    and commas holds commas only (a free-standing comma is enough); in
    every other case a figure is returned, the first number read or, when
    the text holds a hyphen and at least two numbers, the mean of the first
    two. *)
Theorem parse_owners_value_outcomes (text : string) :
  text <> "" ->
  let s := normalize_dashes text in
  let nums := findall s in
  (parse_owners_value (Some text) = Return None <-> nums = [])
  /\ (parse_owners_value (Some text) = Raise <->
      exists n, In n nums /\ Owners.remove_char "," n = "")
  /\ (forall values,
        nums <> [] -> mapM float_of_run nums = Some values ->
        length values = length nums /\
        exists v0 rest,
          values = v0 :: rest /\
          parse_owners_value (Some text)
          = Return (Some (match rest with
                          | v1 :: _ =>
                              if contains "-" s then ((v0 + v1) / 2)%Q else v0
                          | [] => v0
                          end))).
Proof.
  intros Hne s nums. subst s nums. cbn [parse_owners_value].
  destruct (String.eqb_spec text "") as [|_]; [contradiction|]. cbv zeta.
  pose proof (findall_runs (normalize_dashes text)) as Hruns.
  destruct (findall (normalize_dashes text)) as [|n nums] eqn:Hf.
  { split; [|split].
    - easy.
    - split; [discriminate | now intros (n & [] & _)].
    - intros values Hnil. contradiction. }
  assert (mapM float_of_run (n :: nums) = None <->
          exists m, In m (n :: nums) /\ Owners.remove_char "," m = "") as Hraise.
  { rewrite mapM_None. rewrite List.Exists_exists. split.
    - intros (m & Hm & Hnone). exists m. split; [exact Hm|].
      apply float_of_run_None; [|exact Hnone].
      rewrite List.Forall_forall in Hruns. now apply Hruns.
    - intros (m & Hm & Hempty). exists m. split; [exact Hm|].
      apply float_of_run_None; [|exact Hempty].
      rewrite List.Forall_forall in Hruns. now apply Hruns. }
  destruct (mapM float_of_run (n :: nums)) as [values|] eqn:Hm.
  - pose proof (length_mapM _ _ _ Hm) as Hlen.
    destruct values as [|v0 [|v1 rest]]; [discriminate Hlen| |].
    + rewrite andb_false_r. split; [|split].
      * split; discriminate.
      * split; [discriminate|]. intros H. apply Hraise in H. discriminate.
      * intros values _ [= <-]. split; [now symmetry|].
        now exists v0, [].
    + cbn [length Nat.leb]. rewrite andb_true_r. split; [|split].
      * split; [|discriminate]. now destruct (contains "-" _).
      * split; [now destruct (contains "-" _)|].
        intros H. apply Hraise in H. discriminate.
      * intros values _ [= <-]. split; [now symmetry|].
        exists v0, (v1 :: rest). split; [reflexivity|].
        now destruct (contains "-" _).
  - split; [|split].
    + split; discriminate.
    + split; [intros _; now apply Hraise | reflexivity].
    + intros values _ [=].
Qed.

(** "20,000 - 50,000" written with an en dash reads as 35000; "1,234,567"
    reads as the number; a text with a free-standing comma raises. *)
Lemma parse_owners_value_outcomes_witness :
  parse_owners_value (Some ("20,000 " ++ en_dash ++ " 50,000")%string)
  = Return (Some ((20000 + 50000) / 2)%Q)
  /\ parse_owners_value (Some "about 5 , maybe") = Raise.
Proof.
  split.
  - pose proof (parse_owners_value_outcomes
                  ("20,000 " ++ en_dash ++ " 50,000")%string
                  ltac:(discriminate)) as H.
    cbv zeta in H. destruct H as (_ & _ & Hvalues).
    destruct (Hvalues [20000%Q; 50000%Q] ltac:(discriminate) eq_refl)
      as (_ & v0 & rest & Heq & Hres).
    injection Heq as <- <-. exact Hres.
  - pose proof (parse_owners_value_outcomes "about 5 , maybe"
                  ltac:(discriminate)) as H.
    cbv zeta in H. destruct H as (_ & Hraise & _).
    apply Hraise. exists ",". split; [vm_compute; tauto | reflexivity].
Defined.

Lemma parse_owners_value_never_negative_witness :
  parse_owners_value (Some "-5") = Return (Some 5%Q) /\ (0 <= 5)%Q.
Proof.
  split; [reflexivity|].
  apply (parse_owners_value_never_negative (Some "-5") 5%Q). reflexivity.
Defined.

End CompareUpdates.
